(** * aiohttp client request/response engine: [aiohttp/client_reqrep.py]

    A shallow embedding of the request negotiation, the body writer and the
    response release machinery of [client_reqrep.py], with the properties
    the specification states about them.

    Python values are modelled as follows:
    - [str] as [string] (byte strings; [str.lower] acts on ASCII letters),
      [bytes] as [list Byte.byte], [int] as [Z], [len(...)] as [nat];
    - [None]-able attributes as [option];
    - the header multimap ([multidict.CIMultiDict]) as an association list
      that keeps order and duplicates, with case-insensitive keys;
    - raised exceptions as the [Raise] branch of [result];
    - the response object, its writer task and the event loop's callback
      queue as one explicit state ([World]). *)

From Stdlib Require Import String Ascii List Bool ZArith Lia Arith.
From Stdlib Require DecimalString.
Import ListNotations.

Local Open Scope string_scope.
Local Open Scope list_scope.

(** ** Python values *)

Definition bytes := list Byte.byte.

Definition bytes_eq_dec : forall a b : bytes, {a = b} + {a <> b} :=
  list_eq_dec Byte.byte_eq_dec.

(** [str(n)] for a non-negative [int]. *)
Definition str_of_nat (n : nat) : string :=
  DecimalString.NilEmpty.string_of_uint (Nat.to_uint n).

(** [c.lower()] on one character: only ['A'..'Z'] move. *)
Definition lower_ascii (c : ascii) : ascii :=
  let n := nat_of_ascii c in
  if (65 <=? n)%nat && (n <=? 90)%nat then ascii_of_nat (n + 32) else c.

(** [s.lower()] *)
Fixpoint lower (s : string) : string :=
  match s with
  | EmptyString => EmptyString
  | String c rest => String (lower_ascii c) (lower rest)
  end.

(** [needle in hay] on strings. *)
Fixpoint str_in (needle hay : string) : bool :=
  if String.prefix needle hay then true
  else match hay with
       | EmptyString => false
       | String _ rest => str_in needle rest
       end.

(** The one-character string holding a double quote. *)
Definition dquote : string := String (ascii_of_nat 34) EmptyString.

(** Truth value of a [str]: the empty string is falsy. *)
Definition str_truthy (s : string) : bool :=
  match s with EmptyString => false | _ => true end.

Definition option_eqb {A : Type} (eqb : A -> A -> bool) (x y : option A) : bool :=
  match x, y with
  | None, None => true
  | Some a, Some b => eqb a b
  | _, _ => false
  end.

(** ** Results of calls that may raise *)

Inductive result (E A : Type) : Type :=
| Ok (a : A)
| Raise (e : E).
Arguments Ok {E A} a.
Arguments Raise {E A} e.

Definition bind {E A B : Type} (m : result E A) (f : A -> result E B) : result E B :=
  match m with
  | Ok a => f a
  | Raise e => Raise e
  end.

Notation "x <- m ;; k" := (bind m (fun x => k))
  (at level 61, m at next level, right associativity).

(** ** [multidict.CIMultiDict] *)

Module CIMultiDict.

Definition t := list (string * string).

(** Keys are compared through their lower-cased identity. *)
Definition key_eqb (a b : string) : bool := String.eqb (lower a) (lower b).

(** [d.get(key)]: the value of the first entry stored under [key]. *)
Fixpoint get (d : t) (key : string) : option string :=
  match d with
  | [] => None
  | (k, v) :: rest => if key_eqb k key then Some v else get rest key
  end.

(** [d.get(key, default)] *)
Definition get_default (d : t) (key default : string) : string :=
  match get d key with Some v => v | None => default end.

(** [key in d] *)
Definition contains (d : t) (key : string) : bool :=
  existsb (fun kv => key_eqb (fst kv) key) d.

(** [d.add(key, value)]: append, duplicates allowed. *)
Definition add (d : t) (key value : string) : t := d ++ [(key, value)].

(** [del d[key]]: every entry under [key] goes. *)
Definition remove_all (d : t) (key : string) : t :=
  filter (fun kv => negb (key_eqb (fst kv) key)) d.

(** [d[key] = value]: the first entry under [key] is replaced in place and
    the later ones are dropped; without one the pair is appended. *)
Fixpoint setitem (d : t) (key value : string) : t :=
  match d with
  | [] => [(key, value)]
  | (k, v) :: rest =>
      if key_eqb k key then (key, value) :: remove_all rest key
      else (k, v) :: setitem rest key value
  end.

(** [d.extend(other)] *)
Definition extend (d other : t) : t := d ++ other.

(** [d.getall(key, [])]: every value stored under [key], in order. *)
Definition getall (d : t) (key : string) : list string :=
map snd (filter (fun kv => key_eqb (fst kv) key) d).

(** Truth value of a multidict: empty is falsy. *)
Definition truthy (d : t) : bool :=
  match d with [] => false | _ => true end.

End CIMultiDict.

(** ** [aiohttp.hdrs]: header names the module uses *)

(** Modelled from the spec: the header and method names of [aiohttp.hdrs],
    which is not part of this module, in their standard spelling. *)
Module hdrs.
Definition ACCEPT := "Accept".
Definition ACCEPT_ENCODING := "Accept-Encoding".
Definition AUTHORIZATION := "Authorization".
Definition CONNECTION := "Connection".
Definition CONTENT_ENCODING := "Content-Encoding".
Definition CONTENT_LENGTH := "Content-Length".
Definition CONTENT_TYPE := "Content-Type".
Definition COOKIE := "Cookie".
Definition EXPECT := "Expect".
Definition HOST := "Host".
Definition TRANSFER_ENCODING := "Transfer-Encoding".
Definition USER_AGENT := "User-Agent".
Definition METH_GET := "GET".
Definition METH_HEAD := "HEAD".
Definition METH_OPTIONS := "OPTIONS".
Definition METH_TRACE := "TRACE".
Definition METH_PATCH := "PATCH".
Definition METH_POST := "POST".
Definition METH_PUT := "PUT".
Definition METH_DELETE := "DELETE".
Definition METH_CONNECT := "CONNECT".
End hdrs.

(** ** [aiohttp.http.HttpVersion] *)

(** Modelled from the spec: [aiohttp.http.HttpVersion], a named tuple
    [(major, minor)], with the constants for HTTP/1.0 and HTTP/1.1. *)
Record HttpVersion := mkHttpVersion { major : Z; minor : Z }.

Definition HttpVersion10 := mkHttpVersion 1 0.
Definition HttpVersion11 := mkHttpVersion 1 1.

(** Tuple order: lexicographic. *)
Definition HttpVersion_ltb (a b : HttpVersion) : bool :=
  (major a <? major b)%Z || ((major a =? major b)%Z && (minor a <? minor b)%Z).

Definition HttpVersion_eqb (a b : HttpVersion) : bool :=
  (major a =? major b)%Z && (minor a =? minor b)%Z.

(** ** [yarl.URL], as far as the module reads it *)

Record URL := mkURL {
  scheme : string;
  raw_host : option string;
  url_host : option string;
  url_port : option Z;
  is_default_port : bool;
  user : option string;
  password : option string;
  raw_path : string;
  raw_query_string : string;
  url_str : string            (* str(url) *)
}.

Definition URL_eqb (a b : URL) : bool :=
  String.eqb (scheme a) (scheme b)
  && option_eqb String.eqb (raw_host a) (raw_host b)
  && option_eqb String.eqb (url_host a) (url_host b)
  && option_eqb Z.eqb (url_port a) (url_port b)
  && Bool.eqb (is_default_port a) (is_default_port b)
  && option_eqb String.eqb (user a) (user b)
  && option_eqb String.eqb (password a) (password b)
  && String.eqb (raw_path a) (raw_path b)
  && String.eqb (raw_query_string a) (raw_query_string b)
  && String.eqb (url_str a) (url_str b).

(** Modelled from the spec: [helpers.BasicAuth], a named tuple
    [(login, password, encoding)]. *)
Record BasicAuth := mkBasicAuth {
  login : string;
  auth_password : string;
  encoding : string
}.

Definition BasicAuth_eqb (a b : BasicAuth) : bool :=
  String.eqb (login a) (login b)
  && String.eqb (auth_password a) (auth_password b)
  && String.eqb (encoding a) (encoding b).

(** [RequestInfo]: frozen dataclass. *)
Record RequestInfo := mkRequestInfo {
  ri_url : URL;
  ri_method : string;
  ri_headers : CIMultiDict.t;
  ri_real_url : URL
}.

(** ** Exceptions the module raises or handles

    [OSError errno is_timeout]: an [OSError] raised by the transport;
    [is_timeout] is [isinstance(exc, asyncio.TimeoutError)].
    [OtherException]: an [Exception] that is neither an [OSError] nor one
    of the client errors. [OtherBaseException]: a [BaseException] outside
    [Exception] ([KeyboardInterrupt], [SystemExit]).
    Redirect history is a tuple of earlier response objects, kept here by
    object identity. *)

Inductive exn : Type :=
| ValueError (msg : string)
| TypeError (msg : string)
| AttributeError (msg : string)
| AssertionError
| RuntimeError (msg : string)
| InvalidURL (url : URL)
| OSError (errno : option Z) (is_timeout : bool)
| CancelledError
| OtherException (name : string)
| OtherBaseException (name : string)
| ClientConnectionError (msg : string)
| ClientOSError (errno : option Z) (msg : string)
| ServerFingerprintMismatch (expected got : bytes) (host : string) (port : Z)
| ClientResponseError (request_info : RequestInfo) (history : list nat)
    (status : option Z) (message : string) (headers : option CIMultiDict.t).

(** ** [Fingerprint] *)

Inductive HashFunc := md5 | sha1 | sha256.

Definition HashFunc_eqb (a b : HashFunc) : bool :=
  match a, b with
  | md5, md5 | sha1, sha1 | sha256, sha256 => true
  | _, _ => false
  end.

Module Fingerprint.

(** The class attribute, a dict from digest length to hash constructor. *)
Definition HASHFUNC_BY_DIGESTLEN : list (nat * HashFunc) :=
  [(16, md5); (20, sha1); (32, sha256)]%nat.

(** [dict.get(key)] *)
Fixpoint dict_get (d : list (nat * HashFunc)) (key : nat) : option HashFunc :=
  match d with
  | [] => None
  | (k, v) :: rest => if Nat.eqb k key then Some v else dict_get rest key
  end.

Record t := mk { _hashfunc : HashFunc; _fingerprint : bytes }.

(** [Fingerprint.__init__] *)
Definition init (fingerprint : bytes) : result exn t :=
  let digestlen := length fingerprint in
  match dict_get HASHFUNC_BY_DIGESTLEN digestlen with
  | None => Raise (ValueError "fingerprint has invalid length")
  | Some hashfunc =>
      if HashFunc_eqb hashfunc md5 || HashFunc_eqb hashfunc sha1 then
        Raise (ValueError "md5 and sha1 are insecure and not supported. Use sha256.")
      else Ok {| _hashfunc := hashfunc; _fingerprint := fingerprint |}
  end.

(** [Fingerprint.fingerprint] *)
Definition fingerprint (self : t) : bytes := _fingerprint self.

(** What [transport.get_extra_info(name)] answers for the three names
    [check] asks for; [None] when the transport has no such entry. *)
Record Transport := mkTransport {
  sslcontext : option nat;          (* the SSLContext object, if any *)
  ssl_object : option bytes;        (* its getpeercert(binary_form=True) *)
  peername : option (string * Z)
}.

Section Check.
(** [hashlib]: [hashfunc(data).digest()]. *)
Variable digest : HashFunc -> bytes -> bytes.

(** [Fingerprint.check] *)
Definition check (self : t) (transport : Transport) : result exn unit :=
  match sslcontext transport with
  | None => Ok tt
  | Some _ =>
      match ssl_object transport with
      | None => Raise (AttributeError "getpeercert")
      | Some cert =>
          let got := digest (_hashfunc self) cert in
          if bytes_eq_dec got (_fingerprint self) then Ok tt
          else
            match peername transport with
            | None => Raise (TypeError "cannot unpack peername")
            | Some (host, port) =>
                Raise (ServerFingerprintMismatch (_fingerprint self) got host port)
            end
      end
  end.
End Check.

End Fingerprint.

(** ** [ConnectionKey] *)

(** The [ssl] argument: [True]/[False], an [SSLContext] or a [Fingerprint].
    Neither class defines [__eq__], so two of them are equal only when they
    are the same object; they are kept by object identity. *)
Inductive SslPolicy :=
| SslBool (b : bool)
| SslContextObj (id : nat)
| SslFingerprintObj (id : nat).

Definition SslPolicy_eqb (a b : SslPolicy) : bool :=
  match a, b with
  | SslBool x, SslBool y => Bool.eqb x y
  | SslContextObj x, SslContextObj y => Nat.eqb x y
  | SslFingerprintObj x, SslFingerprintObj y => Nat.eqb x y
  | _, _ => false
  end.

Module ConnectionKey.

Record t := mk {
  host : string;
  port : option Z;
  is_ssl : bool;
  ssl : SslPolicy;
  proxy : option URL;
  proxy_auth : option BasicAuth;
  proxy_headers_hash : option Z
}.

(** The [__eq__] a frozen dataclass generates: the tuples of fields are
    compared, field by field. *)
Definition eqb (a b : t) : bool :=
  String.eqb (host a) (host b)
  && option_eqb Z.eqb (port a) (port b)
  && Bool.eqb (is_ssl a) (is_ssl b)
  && SslPolicy_eqb (ssl a) (ssl b)
  && option_eqb URL_eqb (proxy a) (proxy b)
  && option_eqb BasicAuth_eqb (proxy_auth a) (proxy_auth b)
  && option_eqb Z.eqb (proxy_headers_hash a) (proxy_headers_hash b).

End ConnectionKey.

(** ** [ClientRequest]: header negotiation *)

(** [str(n)] for an [int]. *)
Definition str_of_Z (z : Z) : string := DecimalString.NilEmpty.string_of_int (Z.to_int z).

(** [c.upper()] on one character. *)
Definition upper_ascii (c : ascii) : ascii :=
  let n := nat_of_ascii c in
  if (97 <=? n)%nat && (n <=? 122)%nat then ascii_of_nat (n - 32) else c.

(** [s.upper()] *)
Fixpoint upper (s : string) : string :=
  match s with
  | EmptyString => EmptyString
  | String c rest => String (upper_ascii c) (upper rest)
  end.

(** [s.rstrip(".")], through the reversed string. *)
Fixpoint lstrip_dot (l : list ascii) : list ascii :=
  match l with
  | c :: rest => if Ascii.eqb c "."%char then lstrip_dot rest else l
  | [] => []
  end.

Definition rstrip_dot (s : string) : string :=
  string_of_list_ascii (List.rev (lstrip_dot (List.rev (list_ascii_of_string s)))).

(** The character class of [_CONTAINS_CONTROL_CHAR_RE] is the complement of
    this one. *)
Definition token_char (c : ascii) : bool :=
  let n := nat_of_ascii c in
  ((48 <=? n) && (n <=? 57))%nat || ((97 <=? n) && (n <=? 122))%nat
  || ((65 <=? n) && (n <=? 90))%nat
  || existsb (Ascii.eqb c)
       ["-"; "!"; "#"; "$"; "%"; "&"; "'"; "*"; "+"; "."; "^"; "_"; "`"; "|"; "~"]%char.

(** [_CONTAINS_CONTROL_CHAR_RE.search(method)]: the first offending
    character, if there is one. *)
Fixpoint search_non_token (s : string) : option ascii :=
  match s with
  | EmptyString => None
  | String c rest => if token_char c then search_non_token rest else Some c
  end.

(** [sorted(l)] on strings: ascending, strings compared character by
    character through their code points. *)
Fixpoint insert_sorted (x : string) (l : list string) : list string :=
  match l with
  | [] => [x]
  | y :: rest => if String.leb x y then x :: y :: rest else y :: insert_sorted x rest
  end.

Definition sorted (l : list string) : list string := fold_right insert_sorted [] l.

(** Modelled from the spec: [helpers.MimeType], the result of
    [helpers.parse_mimetype]: type, subtype, suffix and parameters. *)
Record MimeType := mkMimeType {
  mt_type : string;
  mt_subtype : string;
  mt_suffix : string;
  mt_parameters : list (string * string)
}.

(** [parameters.get(key)] on the case-sensitive parameter map. *)
Fixpoint params_get (ps : list (string * string)) (key : string) : option string :=
  match ps with
  | [] => None
  | (k, v) :: rest => if String.eqb k key then Some v else params_get rest key
  end.

(** Modelled from the spec: [payload.Payload], with its optional known
    size, the headers it contributes, and the chunks its [write(writer)]
    sends. *)
Record Payload := mkPayload {
  size : option nat;
  payload_headers : CIMultiDict.t;
  payload_chunks : list bytes
}.

(** The [data] argument once [PAYLOAD_REGISTRY] has looked at it: either the
    registry knows a payload for it (a [FormData] is called first), or the
    lookup fails and the data become the fields of a [FormData] built with
    the boundary of the Content-Type header. *)
Inductive Data :=
| DataPayload (p : Payload)
| DataFormFields (form : option string -> Payload).

(** [ClientRequest.body]: [b""] by default, a payload once data were given;
    a caller may also store a list of chunks. *)
Inductive Body :=
| BodyBytes (b : bytes)
| BodyPayload (p : Payload)
| BodyChunks (chunks : list bytes).

(** The [compress] argument: a [str] by its annotation, though any truthy
    value is accepted and then means ["deflate"]. *)
Inductive Compress :=
| CompressStr (s : string)
| CompressFlag (b : bool).

Definition compress_truthy (c : option Compress) : bool :=
  match c with
  | None => false
  | Some (CompressStr s) => str_truthy s
  | Some (CompressFlag b) => b
  end.

(** Truth value of [chunked: Optional[bool]]. *)
Definition chunked_truthy (c : option bool) : bool :=
  match c with Some true => true | _ => false end.

(** An [asyncio.Future] created by [loop.create_future()]. *)
Inductive Future := PendingFuture.

Module ClientRequest.

Record t := mk {
  method : string;
  original_url : URL;
  url : URL;
  version : HttpVersion;
  headers : CIMultiDict.t;
  skip_auto_headers : CIMultiDict.t;
  body : Body;
  auth : option BasicAuth;
  chunked : option bool;
  compress : option Compress;
  proxy : option URL;
  proxy_auth : option BasicAuth;
  proxy_headers : option CIMultiDict.t;
  _ssl : SslPolicy;
  _continue : option Future
}.

Definition with_headers (self : t) (h : CIMultiDict.t) : t :=
  mk (method self) (original_url self) (url self) (version self) h
     (skip_auto_headers self) (body self) (auth self) (chunked self)
     (compress self) (proxy self) (proxy_auth self) (proxy_headers self)
     (_ssl self) (_continue self).

Definition with_skip_auto_headers (self : t) (s : CIMultiDict.t) : t :=
  mk (method self) (original_url self) (url self) (version self) (headers self)
     s (body self) (auth self) (chunked self)
     (compress self) (proxy self) (proxy_auth self) (proxy_headers self)
     (_ssl self) (_continue self).

Definition with_body (self : t) (b : Body) : t :=
  mk (method self) (original_url self) (url self) (version self) (headers self)
     (skip_auto_headers self) b (auth self) (chunked self)
     (compress self) (proxy self) (proxy_auth self) (proxy_headers self)
     (_ssl self) (_continue self).

Definition with_auth (self : t) (a : option BasicAuth) : t :=
  mk (method self) (original_url self) (url self) (version self) (headers self)
     (skip_auto_headers self) (body self) a (chunked self)
     (compress self) (proxy self) (proxy_auth self) (proxy_headers self)
     (_ssl self) (_continue self).

Definition with_chunked (self : t) (c : option bool) : t :=
  mk (method self) (original_url self) (url self) (version self) (headers self)
     (skip_auto_headers self) (body self) (auth self) c
     (compress self) (proxy self) (proxy_auth self) (proxy_headers self)
     (_ssl self) (_continue self).

Definition with_compress (self : t) (c : option Compress) : t :=
  mk (method self) (original_url self) (url self) (version self) (headers self)
     (skip_auto_headers self) (body self) (auth self) (chunked self)
     c (proxy self) (proxy_auth self) (proxy_headers self)
     (_ssl self) (_continue self).

Definition with_version (self : t) (v : HttpVersion) : t :=
  mk (method self) (original_url self) (url self) v (headers self)
     (skip_auto_headers self) (body self) (auth self) (chunked self)
     (compress self) (proxy self) (proxy_auth self) (proxy_headers self)
     (_ssl self) (_continue self).

Definition with_proxy (self : t) (p : option URL) (pa : option BasicAuth)
    (ph : option CIMultiDict.t) : t :=
  mk (method self) (original_url self) (url self) (version self) (headers self)
     (skip_auto_headers self) (body self) (auth self) (chunked self)
     (compress self) p pa ph (_ssl self) (_continue self).

Definition with_continue (self : t) (f : option Future) : t :=
  mk (method self) (original_url self) (url self) (version self) (headers self)
     (skip_auto_headers self) (body self) (auth self) (chunked self)
     (compress self) (proxy self) (proxy_auth self) (proxy_headers self)
     (_ssl self) f.

Definition GET_METHODS : list string :=
  [hdrs.METH_GET; hdrs.METH_HEAD; hdrs.METH_OPTIONS; hdrs.METH_TRACE].
Definition POST_METHODS : list string :=
  [hdrs.METH_PATCH; hdrs.METH_POST; hdrs.METH_PUT].

(** [m in methods] *)
Definition method_in (m : string) (methods : list string) : bool :=
  existsb (String.eqb m) methods.

(** [is_ssl()] *)
Definition is_ssl (self : t) : bool :=
  existsb (String.eqb (scheme (url self))) ["https"; "wss"].

(** The [ssl] property. *)
Definition ssl (self : t) : SslPolicy := _ssl self.

(** The [host] property; the assertion holds once [update_host] has
    accepted the URL. *)
Definition host (self : t) : result exn string :=
  match raw_host (url self) with
  | Some h => Ok h
  | None => Raise AssertionError
  end.

(** The [port] property. *)
Definition port (self : t) : option Z := url_port (url self).

(** [keep_alive()] *)
Definition keep_alive (self : t) : bool :=
  if HttpVersion_ltb (version self) HttpVersion10 then
    false
  else if HttpVersion_eqb (version self) HttpVersion10 then
    if option_eqb String.eqb (CIMultiDict.get (headers self) hdrs.CONNECTION)
         (Some "keep-alive")
    then true
    else false
  else if option_eqb String.eqb (CIMultiDict.get (headers self) hdrs.CONNECTION)
            (Some "close")
  then false
  else true.

Section Negotiation.

(** Collaborators outside this module. *)
Variable is_ipv6_address : string -> bool.          (* helpers *)
Variable SERVER_SOFTWARE : string.                  (* http *)
Variable HAS_BROTLI : bool.                         (* compression_utils *)
(** [SimpleCookie]: load the existing Cookie header, if any, set the
    given cookies, and [output(header="", sep=";").strip()]. *)
Variable cookie_output : option string -> list (string * string) -> string.
Variable BasicAuth_encode : BasicAuth -> string.    (* BasicAuth.encode *)
(** [basicauth_from_netrc(netrc_from_env(), host)]; [None] on
    [LookupError]. *)
Variable netrc_auth : string -> option BasicAuth.
Variable parse_mimetype : string -> MimeType.       (* helpers *)
Variable with_fragment_none : URL -> URL.           (* url.with_fragment(None) *)
Variable repr : string -> string.                   (* the built-in repr() on a str *)

Definition _gen_default_accept_encoding : string :=
  if HAS_BROTLI then "gzip, deflate, br" else "gzip, deflate".

Definition DEFAULT_HEADERS : list (string * string) :=
  [(hdrs.ACCEPT, "*/*"); (hdrs.ACCEPT_ENCODING, _gen_default_accept_encoding)].

(** [update_host] *)
Definition update_host (self : t) (url : URL) : result exn t :=
  match raw_host url with
  | None => Raise (InvalidURL url)
  | Some h =>
      if negb (str_truthy h) then Raise (InvalidURL url)
      else
        match user url with
        | Some username =>
            if str_truthy username then
              let pw := match password url with Some p => p | None => "" end in
              Ok (with_auth self (Some (mkBasicAuth username pw "latin1")))
            else Ok self
        | None => Ok self
        end
  end.

(** [update_version], for a version given as an [HttpVersion]; a version
    given as a string is parsed into one before it is stored. *)
Definition update_version (self : t) (v : HttpVersion) : t :=
  with_version self v.

(** One turn of the loop over the caller's headers in [update_headers]. *)
Definition add_caller_header (acc : CIMultiDict.t) (kv : string * string)
  : CIMultiDict.t :=
  let (key, value) := kv in
  if String.eqb (lower key) "host" then CIMultiDict.setitem acc key value
  else CIMultiDict.add acc key value.

(** [update_headers]; [raw_host] is set, [update_host] ran before. *)
Definition update_headers (self : t) (hs : option (list (string * string))) : t :=
  let netloc := match raw_host (url self) with Some h => h | None => "" end in
  let netloc := if is_ipv6_address netloc then ("[" ++ netloc ++ "]")%string else netloc in
  let netloc := rstrip_dot netloc in
  let netloc :=
    match url_port (url self) with
    | Some p =>
        if negb (is_default_port (url self)) then (netloc ++ ":" ++ str_of_Z p)%string
        else netloc
    | None => netloc
    end in
  let h0 := CIMultiDict.setitem [] hdrs.HOST netloc in
  match hs with
  | Some l => with_headers self (fold_left add_caller_header l h0)
  | None => with_headers self h0
  end.

(** [update_auto_headers]. The skip list is stored sorted, under values
    that are never read ([None] in the source). *)
Definition update_auto_headers (self : t) (skip : list string) : t :=
  let skip_md : CIMultiDict.t := map (fun hdr => (hdr, "")) (sorted skip) in
  let self := with_skip_auto_headers self skip_md in
  let used_headers := CIMultiDict.extend (headers self) skip_md in
  let h :=
    fold_left
      (fun acc kv =>
         if negb (CIMultiDict.contains used_headers (fst kv))
         then CIMultiDict.add acc (fst kv) (snd kv) else acc)
      DEFAULT_HEADERS (headers self) in
  let h :=
    if negb (CIMultiDict.contains used_headers hdrs.USER_AGENT)
    then CIMultiDict.setitem h hdrs.USER_AGENT SERVER_SOFTWARE else h in
  with_headers self h.

(** [update_cookies] *)
Definition update_cookies (self : t) (cookies : option (list (string * string))) : t :=
  match cookies with
  | None | Some [] => self
  | Some cs =>
      let existing :=
        if CIMultiDict.contains (headers self) hdrs.COOKIE
        then Some (CIMultiDict.get_default (headers self) hdrs.COOKIE "")
        else None in
      let h :=
        if CIMultiDict.contains (headers self) hdrs.COOKIE
        then CIMultiDict.remove_all (headers self) hdrs.COOKIE
        else headers self in
      with_headers self (CIMultiDict.setitem h hdrs.COOKIE (cookie_output existing cs))
  end.

(** [update_content_encoding] *)
Definition update_content_encoding (self : t) (data : option Data) : result exn t :=
  match data with
  | None => Ok self
  | Some _ =>
      let enc := lower (CIMultiDict.get_default (headers self) hdrs.CONTENT_ENCODING "") in
      if str_truthy enc then
        if compress_truthy (compress self) then
          Raise (ValueError "compress can not be set if Content-Encoding header is set")
        else Ok self
      else if compress_truthy (compress self) then
        let c := match compress self with
                 | Some (CompressStr s) => s
                 | _ => "deflate"
                 end in
        let self := with_compress self (Some (CompressStr c)) in
        let self := with_headers self
                      (CIMultiDict.setitem (headers self) hdrs.CONTENT_ENCODING c) in
        Ok (with_chunked self (Some true))
      else Ok self
  end.

(** [len(self.body)]; a payload has no [__len__]. *)
Definition body_len (b : Body) : result exn nat :=
  match b with
  | BodyBytes x => Ok (length x)
  | BodyChunks l => Ok (length l)
  | BodyPayload _ => Raise (TypeError "object of type Payload has no len()")
  end.

(** [update_transfer_encoding] *)
Definition update_transfer_encoding (self : t) : result exn t :=
  let te := lower (CIMultiDict.get_default (headers self) hdrs.TRANSFER_ENCODING "") in
  if str_in "chunked" te then
    if chunked_truthy (chunked self) then
      Raise (ValueError
        ("chunked can not be set if " ++ dquote ++ "Transfer-Encoding: chunked"
         ++ dquote ++ " header is set")%string)
    else Ok self
  else if chunked_truthy (chunked self) then
    if CIMultiDict.contains (headers self) hdrs.CONTENT_LENGTH then
      Raise (ValueError "chunked can not be set if Content-Length header is set")
    else
      Ok (with_headers self
            (CIMultiDict.setitem (headers self) hdrs.TRANSFER_ENCODING "chunked"))
  else if negb (CIMultiDict.contains (headers self) hdrs.CONTENT_LENGTH) then
    n <- body_len (body self) ;;
    Ok (with_headers self
          (CIMultiDict.setitem (headers self) hdrs.CONTENT_LENGTH (str_of_nat n)))
  else Ok self.

(** [update_auth] *)
Definition update_auth (self : t) (a : option BasicAuth) (trust_env : bool) : t :=
  let a := match a with None => auth self | Some _ => a end in
  let a :=
    match a, url_host (url self) with
    | None, Some h => if trust_env then netrc_auth h else None
    | _, _ => a
    end in
  match a with
  | None => self
  | Some a' =>
      with_headers self
        (CIMultiDict.setitem (headers self) hdrs.AUTHORIZATION (BasicAuth_encode a'))
  end.

(** One turn of the loop that copies the payload's headers. *)
Definition copy_payload_header (skip : CIMultiDict.t) (acc : CIMultiDict.t)
    (kv : string * string) : CIMultiDict.t :=
  let (key, value) := kv in
  if CIMultiDict.contains acc key then acc
  else if CIMultiDict.contains skip key then acc
  else CIMultiDict.setitem acc key value.

(** [update_body_from_data] *)
Definition update_body_from_data (self : t) (data : option Data) : result exn t :=
  match data with
  | None => Ok self
  | Some d =>
      let p :=
        match d with
        | DataPayload p => p
        | DataFormFields form =>
            let boundary :=
              if CIMultiDict.contains (headers self) hdrs.CONTENT_TYPE then
                params_get
                  (mt_parameters
                     (parse_mimetype
                        (CIMultiDict.get_default (headers self) hdrs.CONTENT_TYPE "")))
                  "boundary"
              else None in
            form boundary
        end in
      let self := with_body self (BodyPayload p) in
      (* enable chunked encoding if needed *)
      let self :=
        if negb (chunked_truthy (chunked self)) then
          if negb (CIMultiDict.contains (headers self) hdrs.CONTENT_LENGTH) then
            match size p with
            | None => with_chunked self (Some true)
            | Some n =>
                if negb (CIMultiDict.contains (headers self) hdrs.CONTENT_LENGTH) then
                  with_headers self
                    (CIMultiDict.setitem (headers self) hdrs.CONTENT_LENGTH
                       (str_of_nat n))
                else self
            end
          else self
        else self in
      (* copy payload headers *)
      if negb (CIMultiDict.truthy (payload_headers p)) then Raise AssertionError
      else
        Ok (with_headers self
              (fold_left (copy_payload_header (skip_auto_headers self))
                 (payload_headers p) (headers self)))
  end.

(** [update_expect_continue] *)
Definition update_expect_continue (self : t) (expect : bool) : t :=
  let self' :=
    if expect then
      with_headers self (CIMultiDict.setitem (headers self) hdrs.EXPECT "100-continue")
    else self in
  let expect :=
    if expect then true
    else String.eqb (lower (CIMultiDict.get_default (headers self) hdrs.EXPECT ""))
           "100-continue" in
  if expect then with_continue self' (Some PendingFuture) else self'.

(** [update_proxy]; the proxy headers arrive as pairs and are stored as
    a multidict. *)
Definition update_proxy (self : t) (p : option URL) (pa : option BasicAuth)
    (ph : option (list (string * string))) : t :=
  with_proxy self p pa ph.

(** [ClientRequest.__init__]. [url] is the URL after the [params] were
    merged into its query. *)
Definition init (method_ : string) (url_ : URL)
    (headers_ : option (list (string * string)))
    (skip_auto_headers_ : list string)
    (data : option Data)
    (cookies : option (list (string * string)))
    (auth_ : option BasicAuth)
    (version_ : HttpVersion)
    (compress_ : option Compress)
    (chunked_ : option bool)
    (expect100 : bool)
    (proxy_ : option URL) (proxy_auth_ : option BasicAuth)
    (proxy_headers_ : option (list (string * string)))
    (ssl_ : SslPolicy) (trust_env : bool) : result exn t :=
  match search_non_token method_ with
  | Some c =>
      Raise (ValueError
        ("Method cannot contain non-token characters " ++ repr method_
         ++ " (found at least " ++ repr (String c EmptyString) ++ ")")%string)
  | None =>
      let self :=
        mk (upper method_) url_ (with_fragment_none url_) version_ [] []
           (BodyBytes []) None chunked_ compress_ None None None ssl_ None in
      let self := update_version self version_ in
      self <- update_host self url_ ;;
      let self := update_headers self headers_ in
      let self := update_auto_headers self skip_auto_headers_ in
      let self := update_cookies self cookies in
      self <- update_content_encoding self data ;;
      let self := update_auth self auth_ trust_env in
      let self := update_proxy self proxy_ proxy_auth_ proxy_headers_ in
      self <- update_body_from_data self data ;;
      self <-
        (match data with
         | Some _ => update_transfer_encoding self
         | None =>
             if negb (method_in (method self) GET_METHODS)
             then update_transfer_encoding self
             else Ok self
         end) ;;
      Ok (update_expect_continue self expect100)
  end.

End Negotiation.

Section Key.
(** [hash(tuple((k, v) for k, v in proxy_headers.items()))] *)
Variable hash_items : list (string * string) -> Z.

(** The [connection_key] property. *)
Definition connection_key (self : t) : result exn ConnectionKey.t :=
  let h :=
    match proxy_headers self with
    | Some ph => if CIMultiDict.truthy ph then Some (hash_items ph) else None
    | None => None
    end in
  hst <- host self ;;
  Ok (ConnectionKey.mk hst (port self) (is_ssl self) (ssl self)
        (proxy self) (proxy_auth self) h).
End Key.

(** *** [send]: what it does to the headers and asks of the writer *)

(** The header part of [send]: the default content type, then the
    connection header. The request target, the status line and the task
    that writes the body are not part of it. *)
Definition send_headers (self : t) : t :=
  (* set default content-type *)
  let self :=
    if method_in (method self) POST_METHODS
       && negb (CIMultiDict.contains (skip_auto_headers self) hdrs.CONTENT_TYPE)
       && negb (CIMultiDict.contains (headers self) hdrs.CONTENT_TYPE)
    then with_headers self
           (CIMultiDict.setitem (headers self) hdrs.CONTENT_TYPE
              "application/octet-stream")
    else self in
  (* set the connection header *)
  let connection := CIMultiDict.get (headers self) hdrs.CONNECTION in
  let connection :=
    if negb (match connection with Some c => str_truthy c | None => false end) then
      if keep_alive self then
        if HttpVersion_eqb (version self) HttpVersion10 then Some "keep-alive"
        else connection
      else
        if HttpVersion_eqb (version self) HttpVersion11 then Some "close"
        else connection
    else connection in
  match connection with
  | Some c => with_headers self (CIMultiDict.setitem (headers self) hdrs.CONNECTION c)
  | None => self
  end.

(** What [send] asks of the stream writer: [enable_compression(compress)]
    when [compress] is truthy, [enable_chunking()] when [chunked] is not
    [None]. *)
Definition send_compression (self : t) : option Compress :=
  if compress_truthy (compress self) then compress self else None.

Definition send_chunking (self : t) : bool :=
  match chunked self with
  | Some _ => true
  | None => false
  end.

End ClientRequest.

(** ** [ClientRequest.write_bytes]: the body writer *)

(** How an [except] clause sees an exception. [ClientOSError] derives from
    [OSError]; [CancelledError] and the remaining base exceptions are not
    [Exception]s. *)
Inductive exn_class :=
| IsOSError (errno : option Z) (is_timeout : bool)
| IsCancelled
| IsException
| IsBaseException.

Definition classify (e : exn) : exn_class :=
  match e with
  | OSError errno tmo => IsOSError errno tmo
  | ClientOSError errno _ => IsOSError errno false
  | CancelledError => IsCancelled
  | OtherBaseException _ => IsBaseException
  | _ => IsException
  end.

Module BodyWriter.

(** Modelled from the spec: [http.StreamWriter], as the body writer
    drives it. *)
Record StreamWriter := mkWriter {
  written : list bytes;          (* chunks handed to write(), in order *)
  eof_written : bool;            (* write_eof() completed *)
  drains : nat                   (* completed drain() calls *)
}.

(** Modelled from the spec: the protocol object of the connection
    ([client_proto.ResponseHandler], not part of this module) with its
    deferred-exception slot, filled by [helpers.set_exception(protocol,
    exc, cause)], and its response timeout timer. *)
Record Protocol := mkProtocol {
  exception : option (exn * exn);    (* the stored error and its cause *)
  timeout_started : bool
}.

(** Modelled from the spec: [helpers.set_exception] stores the error, with
    its cause, in the slot. *)
Definition set_exception (p : Protocol) (exc cause : exn) : Protocol :=
  mkProtocol (Some (exc, cause)) (timeout_started p).

Definition start_timeout (p : Protocol) : Protocol :=
  mkProtocol (exception p) true.

(** What each suspension point of the writer meets: [None] when the
    awaited call returns, [Some e] when it raises [e] (a cancellation of
    the task is delivered as [CancelledError] at the suspension point it
    interrupts). [write_outcome n chunk] is for the [n]-th chunk written. *)
Record Env := mkEnv {
  drain_outcome : option exn;
  continue_outcome : option exn;
  write_outcome : nat -> bytes -> option exn;
  write_eof_outcome : option exn
}.

Record World := mkWorld {
  req : ClientRequest.t;
  writer : StreamWriter;
  protocol : Protocol
}.

Section Run.
Variable env : Env.
(** [str(conn)] *)
Variable conn_str : string.

(** [await writer.write(chunk)] for each chunk in turn. *)
Fixpoint write_chunks (chunks : list bytes) (w : StreamWriter)
  : option exn * StreamWriter :=
  match chunks with
  | [] => (None, w)
  | chunk :: rest =>
      match write_outcome env (length (written w)) chunk with
      | Some e => (Some e, w)
      | None =>
          write_chunks rest
            (mkWriter (written w ++ [chunk]) (eof_written w) (drains w))
      end
  end.

(** [await writer.write_eof()] *)
Definition write_eof (w : StreamWriter) : option exn * StreamWriter :=
  match write_eof_outcome env with
  | Some e => (Some e, w)
  | None => (None, mkWriter (written w) true (drains w))
  end.

(** The 100-continue prelude: [Some r] when the coroutine ends there
    (returning on cancellation, or raising), [None] when it goes on. *)
Definition await_continue (wd : World) : option (result exn unit) * World :=
  match ClientRequest._continue (req wd) with
  | None => (None, wd)
  | Some _ =>
      match drain_outcome env with
      | Some e =>
          match classify e with
          | IsCancelled => (Some (Ok tt), wd)
          | _ => (Some (Raise e), wd)
          end
      | None =>
          let w := writer wd in
          let wd := mkWorld (req wd)
                      (mkWriter (written w) (eof_written w) (S (drains w)))
                      (protocol wd) in
          match continue_outcome env with
          | Some e =>
              match classify e with
              | IsCancelled => (Some (Ok tt), wd)
              | _ => (Some (Raise e), wd)
              end
          | None => (None, wd)
          end
      end
  end.

(** The body of the [try]: the payload writes its own chunks, a bytes
    body is first stored back as a one-element tuple. *)
Definition stream_body (wd : World) : option exn * World :=
  match ClientRequest.body (req wd) with
  | BodyPayload p =>
      let (r, w) := write_chunks (payload_chunks p) (writer wd) in
      (r, mkWorld (req wd) w (protocol wd))
  | BodyBytes b =>
      let rq := ClientRequest.with_body (req wd) (BodyChunks [b]) in
      let (r, w) := write_chunks [b] (writer wd) in
      (r, mkWorld rq w (protocol wd))
  | BodyChunks chunks =>
      let (r, w) := write_chunks chunks (writer wd) in
      (r, mkWorld (req wd) w (protocol wd))
  end.

(** [write_bytes] *)
Definition write_bytes (wd : World) : result exn unit * World :=
  match await_continue wd with
  | (Some r, wd) => (r, wd)
  | (None, wd) =>
      match stream_body wd with
      | (Some underlying_exc, wd) =>
          match classify underlying_exc with
          | IsOSError errno is_timeout =>
              let exc_is_not_timeout :=
                match errno with Some _ => true | None => false end
                || negb is_timeout in
              let reraised_exc :=
                if exc_is_not_timeout then
                  ClientOSError errno
                    ("Can not write request body for "
                     ++ url_str (ClientRequest.url (req wd)))%string
                else underlying_exc in
              (Ok tt,
               mkWorld (req wd) (writer wd)
                 (set_exception (protocol wd) reraised_exc underlying_exc))
          | IsCancelled =>
              match write_eof (writer wd) with
              | (Some e, w) => (Raise e, mkWorld (req wd) w (protocol wd))
              | (None, w) => (Ok tt, mkWorld (req wd) w (protocol wd))
              end
          | IsException =>
              (Ok tt,
               mkWorld (req wd) (writer wd)
                 (set_exception (protocol wd)
                    (ClientConnectionError
                       ("Failed to send bytes into the underlying connection "
                        ++ conn_str)%string)
                    underlying_exc))
          | IsBaseException => (Raise underlying_exc, wd)
          end
      | (None, wd) =>
          match write_eof (writer wd) with
          | (Some e, w) => (Raise e, mkWorld (req wd) w (protocol wd))
          | (None, w) =>
              (Ok tt, mkWorld (req wd) w (start_timeout (protocol wd)))
          end
      end
  end.
End Run.

End BodyWriter.

(** ** [ClientResponse]: the release state machine *)

(** Modelled from the spec: [streams.StreamReader], the payload stream of
    a response. The stream has a failure slot
    ([exception()] reads it, [helpers.set_exception(content, exc)] fills it)
    and a [read()] that fails with the stored failure when there is one
    (section 7: closed-connection reads and write-phase failures are
    surfaced by failing the content stream). The payload of a response
    without a body is a [streams.EmptyStreamReader] ([sr_empty]): it is at
    its end from the start, [exception()] is always [None],
    [set_exception] does nothing, and [read()] returns the empty bytes. *)
Record StreamReader := mkStream {
  sr_exception : option exn;
  sr_eof : bool;                 (* end of payload was fed, on_eof has fired *)
  sr_buffer : bytes;             (* received, not yet read *)
  sr_reads : nat;                (* calls of read() so far *)
  sr_empty : bool                (* an EmptyStreamReader *)
}.

(** [stream.exception()] *)
Definition stream_exception (s : StreamReader) : option exn :=
  if sr_empty s then None else sr_exception s.

(** [helpers.set_exception(stream, exc)] *)
Definition stream_set_exception (s : StreamReader) (e : exn) : StreamReader :=
  if sr_empty s then s
  else mkStream (Some e) (sr_eof s) (sr_buffer s) (sr_reads s) false.

(** [payload.on_eof(callback)] calls the callback at once. *)
Definition stream_at_eof (s : StreamReader) : bool := sr_empty s || sr_eof s.

(** Modelled from the spec: [connector.Connection], a connection handed
    out by the pool. Its [protocol] is [None] once the connection is
    detached, otherwise it tells whether it was upgraded. *)
Record Connection := mkConnection {
  conn_id : nat;
  conn_protocol : option bool    (* protocol.upgraded *)
}.

(** Modelled from the spec: [http_parser.RawResponseMessage], the parsed
    head of a response. *)
Record RawResponseMessage := mkMessage {
  msg_version : HttpVersion;
  msg_code : Z;
  msg_reason : string;
  msg_headers : CIMultiDict.t
}.

(** The one writer task a response can hold a handle on. *)
Inductive TaskHandle := WriterTask.

(** Where [_resolve_charset] comes from: the session, or the constant
    ["utf-8"] fallback when there is no session. *)
Inductive CharsetResolver := ResolveUtf8 | ResolveBySession.

Module ClientResponse.

Record t := mk {
  method : string;
  version : option HttpVersion;
  status : option Z;
  reason : option string;
  content : option StreamReader;
  _headers : option CIMultiDict.t;
  _connection : option Connection;
  _closed : bool;
  _released : bool;
  _writer : option TaskHandle;         (* the name-mangled __writer *)
  _body : option bytes;
  _continue : option Future;
  _history : list nat;
  _request_info : RequestInfo;
  _session : option nat;
  _resolve_charset : CharsetResolver
}.

Definition with_head (self : t) (m : RawResponseMessage) : t :=
  mk (method self) (Some (msg_version m)) (Some (msg_code m)) (Some (msg_reason m))
     (content self) (Some (msg_headers m)) (_connection self) (_closed self)
     (_released self) (_writer self) (_body self) (_continue self)
     (_history self) (_request_info self) (_session self) (_resolve_charset self).

Definition with_content (self : t) (c : option StreamReader) : t :=
  mk (method self) (version self) (status self) (reason self)
     c (_headers self) (_connection self) (_closed self)
     (_released self) (_writer self) (_body self) (_continue self)
     (_history self) (_request_info self) (_session self) (_resolve_charset self).

Definition with_connection (self : t) (c : option Connection) : t :=
  mk (method self) (version self) (status self) (reason self)
     (content self) (_headers self) c (_closed self)
     (_released self) (_writer self) (_body self) (_continue self)
     (_history self) (_request_info self) (_session self) (_resolve_charset self).

Definition with_closed (self : t) (b : bool) : t :=
  mk (method self) (version self) (status self) (reason self)
     (content self) (_headers self) (_connection self) b
     (_released self) (_writer self) (_body self) (_continue self)
     (_history self) (_request_info self) (_session self) (_resolve_charset self).

Definition with_released (self : t) (b : bool) : t :=
  mk (method self) (version self) (status self) (reason self)
     (content self) (_headers self) (_connection self) (_closed self)
     b (_writer self) (_body self) (_continue self)
     (_history self) (_request_info self) (_session self) (_resolve_charset self).

Definition with_writer (self : t) (h : option TaskHandle) : t :=
  mk (method self) (version self) (status self) (reason self)
     (content self) (_headers self) (_connection self) (_closed self)
     (_released self) h (_body self) (_continue self)
     (_history self) (_request_info self) (_session self) (_resolve_charset self).

Definition with_body (self : t) (b : option bytes) : t :=
  mk (method self) (version self) (status self) (reason self)
     (content self) (_headers self) (_connection self) (_closed self)
     (_released self) (_writer self) b (_continue self)
     (_history self) (_request_info self) (_session self) (_resolve_charset self).

Definition with_continue (self : t) (f : option Future) : t :=
  mk (method self) (version self) (status self) (reason self)
     (content self) (_headers self) (_connection self) (_closed self)
     (_released self) (_writer self) (_body self) f
     (_history self) (_request_info self) (_session self) (_resolve_charset self).

Definition with_session (self : t) (s : option nat) : t :=
  mk (method self) (version self) (status self) (reason self)
     (content self) (_headers self) (_connection self) (_closed self)
     (_released self) (_writer self) (_body self) (_continue self)
     (_history self) (_request_info self) s (_resolve_charset self).

(** Completion observers this response registers on the writer task:
    the bound method [__reset_writer] and the closure
    [lambda f: self._release_connection()]. *)
Inductive callback := CbResetWriter | CbReleaseConnection.

Definition callback_eqb (a b : callback) : bool :=
  match a, b with
  | CbResetWriter, CbResetWriter | CbReleaseConnection, CbReleaseConnection => true
  | _, _ => false
  end.

(** The writer [asyncio.Task]: [cancel()] only requests a cancellation,
    the task reaches a terminal state later; its done callbacks are kept
    in registration order. *)
Record Task := mkTask {
  done : bool;
  cancel_requested : bool;
  callbacks : list callback
}.

(** What the connection pool sees. [PoolRelease c d]: [c.release()] was
    called, and [d] tells whether the writer task was in a terminal state
    at that moment. *)
Inductive PoolEvent :=
| PoolRelease (c : Connection) (writer_done : bool)
| PoolClose (c : Connection).

(** The response together with the objects it shares with the loop. *)
Record World := mkWorld {
  resp : t;
  task : Task;
  ready : list callback;        (* callbacks the loop has scheduled (call_soon) *)
  pool : list PoolEvent;        (* newest first *)
  loop_closed : bool;
  loop_debug : bool;
  warnings : nat                (* ResourceWarnings issued *)
}.

Definition with_resp (w : World) (r : t) : World :=
  mkWorld r (task w) (ready w) (pool w) (loop_closed w) (loop_debug w) (warnings w).

Definition with_task (w : World) (k : Task) : World :=
  mkWorld (resp w) k (ready w) (pool w) (loop_closed w) (loop_debug w) (warnings w).

Definition with_ready (w : World) (q : list callback) : World :=
  mkWorld (resp w) (task w) q (pool w) (loop_closed w) (loop_debug w) (warnings w).

Definition with_pool (w : World) (p : list PoolEvent) : World :=
  mkWorld (resp w) (task w) (ready w) p (loop_closed w) (loop_debug w) (warnings w).

Definition with_warnings (w : World) (n : nat) : World :=
  mkWorld (resp w) (task w) (ready w) (pool w) (loop_closed w) (loop_debug w) n.

(** *** [asyncio] primitives on the writer task *)

(** [task.add_done_callback(cb)]: on a finished task the callback is
    scheduled at once, otherwise it is queued on the task. *)
Definition add_done_callback (cb : callback) (w : World) : World :=
  if done (task w) then with_ready w (ready w ++ [cb])
  else with_task w (mkTask false (cancel_requested (task w)) (callbacks (task w) ++ [cb])).

(** [task.remove_done_callback(cb)] *)
Definition remove_done_callback (cb : callback) (w : World) : World :=
  with_task w
    (mkTask (done (task w)) (cancel_requested (task w))
       (filter (fun c => negb (callback_eqb c cb)) (callbacks (task w)))).

(** [task.cancel()] *)
Definition task_cancel (w : World) : World :=
  if done (task w) then w
  else with_task w (mkTask false true (callbacks (task w))).

(** The task reaches a terminal state: its callbacks are handed to the
    loop in registration order. *)
Definition task_finish (w : World) : World :=
  if done (task w) then w
  else with_ready (with_task w (mkTask true (cancel_requested (task w)) []))
         (ready w ++ callbacks (task w)).

(** *** Methods *)

(** [__reset_writer] *)
Definition __reset_writer (w : World) : World :=
  with_resp w (with_writer (resp w) None).

(** The [_writer] setter. *)
Definition set_writer (writer : option TaskHandle) (w : World) : World :=
  let w := match _writer (resp w) with
           | Some _ => remove_done_callback CbResetWriter w
           | None => w
           end in
  let w := with_resp w (with_writer (resp w) writer) in
  match writer with
  | None => w
  | Some _ =>
      if done (task w) then __reset_writer w
      else add_done_callback CbResetWriter w
  end.

(** [connection.release()] *)
Definition connection_release (c : Connection) (w : World) : World :=
  with_pool w (PoolRelease c (done (task w)) :: pool w).

(** [connection.close()] *)
Definition connection_close (c : Connection) (w : World) : World :=
  with_pool w (PoolClose c :: pool w).

(** [_release_connection] *)
Definition _release_connection (w : World) : World :=
  match _connection (resp w) with
  | Some c =>
      match _writer (resp w) with
      | None =>
          let w := connection_release c w in
          with_resp w (with_connection (resp w) None)
      | Some _ => add_done_callback CbReleaseConnection w
      end
  | None => w
  end.

(** [_cleanup_writer] *)
Definition _cleanup_writer (w : World) : World :=
  let w := match _writer (resp w) with
           | Some _ => task_cancel w
           | None => w
           end in
  with_resp w (with_session (resp w) None).

(** [_notify_content] *)
Definition _notify_content (w : World) : World :=
  let w :=
    match content (resp w) with
    | Some c =>
        match stream_exception c with
        | None =>
            with_resp w
              (with_content (resp w)
                 (Some (stream_set_exception c
                          (ClientConnectionError "Connection closed"))))
        | Some _ => w
        end
    | None => w
    end in
  with_resp w (with_released (resp w) true).

(** [_response_eof], the end-of-payload observer. *)
Definition _response_eof (w : World) : World :=
  if _closed (resp w) then w
  else
    let protocol := match _connection (resp w) with
                    | Some c => conn_protocol c
                    | None => None
                    end in
    match protocol with
    | Some true => w
    | _ =>
        let w := with_resp w (with_closed (resp w) true) in
        let w := _cleanup_writer w in
        _release_connection w
    end.

(** [close] *)
Definition close (w : World) : World :=
  let w := if negb (_released (resp w)) then _notify_content w else w in
  let w := with_resp w (with_closed (resp w) true) in
  if loop_closed w then w
  else
    let w := _cleanup_writer w in
    match _connection (resp w) with
    | Some c =>
        let w := connection_close c w in
        with_resp w (with_connection (resp w) None)
    | None => w
    end.

(** [release] *)
Definition release (w : World) : World :=
  let w := if negb (_released (resp w)) then _notify_content w else w in
  let w := with_resp w (with_closed (resp w) true) in
  let w := _cleanup_writer w in
  _release_connection w.

(** [__del__] *)
Definition __del__ (w : World) : World :=
  if _closed (resp w) then w
  else
    match _connection (resp w) with
    | Some c =>
        let w := connection_release c w in
        let w := _cleanup_writer w in
        if loop_debug w then with_warnings w (S (warnings w)) else w
    | None => w
    end.

(** The [closed] property. *)
Definition closed (self : t) : bool := _closed self.

(** The [ok] property; [status] is [None] before [start]. *)
Definition ok (self : t) : result exn bool :=
  match status self with
  | Some s => Ok (s <? 400)%Z
  | None => Raise (TypeError "'>' not supported between 'int' and 'NoneType'")
  end.

(** [raise_for_status]; the error is built after [release()] ran. *)
Definition raise_for_status (w : World) : result exn unit * World :=
  match ok (resp w) with
  | Raise e => (Raise e, w)
  | Ok true => (Ok tt, w)
  | Ok false =>
      match reason (resp w) with
      | None => (Raise AssertionError, w)
      | Some msg =>
          let w := release w in
          (Raise (ClientResponseError (_request_info (resp w)) (_history (resp w))
                    (status (resp w)) msg (_headers (resp w))), w)
      end
  end.

(** *** The loop runs scheduled callbacks *)

Definition run_callback (cb : callback) (w : World) : World :=
  match cb with
  | CbResetWriter => __reset_writer w
  | CbReleaseConnection => _release_connection w
  end.

(** One turn of the loop: the callbacks scheduled so far run in order;
    what they schedule in turn waits for a later turn. *)
Definition run_ready (w : World) : World :=
  fold_left (fun w cb => run_callback cb w) (ready w) (with_ready w []).

(** [await self._writer]. A finished task is not waited for. Otherwise the
    coroutine is suspended until the task has reached a terminal state and
    the loop has run the observers registered before the wait. [outcome]
    is what the task ended with: [Some e] if it raised [e] or was
    cancelled ([CancelledError]). *)
Definition await_writer (outcome : option exn) (w : World)
  : result exn unit * World :=
  let w := if done (task w) then w else run_ready (task_finish w) in
  match outcome with
  | None => (Ok tt, w)
  | Some e => (Raise e, w)
  end.

(** [_wait_released] *)
Definition _wait_released (outcome : option exn) (w : World)
  : result exn unit * World :=
  match _writer (resp w) with
  | Some _ =>
      match await_writer outcome w with
      | (Raise e, w) => (Raise e, w)
      | (Ok _, w) => (Ok tt, _release_connection w)
      end
  | None => (Ok tt, _release_connection w)
  end.

(** [wait_for_close] *)
Definition wait_for_close (outcome : option exn) (w : World)
  : result exn unit * World :=
  match _writer (resp w) with
  | Some _ =>
      match await_writer outcome w with
      | (Raise e, w) => (Raise e, w)
      | (Ok _, w) => (Ok tt, release w)
      end
  | None => (Ok tt, release w)
  end.

(** *** [__init__] and [start] *)

(** The handle [send] passes on: the request's own [_writer] setter has
    already cleared it if the task finished at once (eager start). *)
Definition request_writer_handle (k : Task) : option TaskHandle :=
  if done k then None else Some WriterTask.

(** [__init__]; [k] is the writer task as [send] created it. *)
Definition init (method_ : string) (writer : option TaskHandle)
    (continue100 : option Future) (request_info : RequestInfo)
    (session : option nat) (k : Task) (loop_closed_ loop_debug_ : bool) : World :=
  let self :=
    mk method_ None None None None None None true false None None continue100 []
       request_info session
       (match session with None => ResolveUtf8 | Some _ => ResolveBySession end) in
  set_writer writer (mkWorld self k [] [] loop_closed_ loop_debug_ 0).

(** Modelled from the spec: [http.HttpProcessingError], with the code,
    message and headers that [start] passes on. *)
Record HttpProcessingError := mkHttpError {
  hpe_code : Z;
  hpe_message : string;
  hpe_headers : option CIMultiDict.t
}.

(** The [while True] loop of [start] over what [protocol.read()] returns,
    call after call. [None]: the protocol has not delivered a final head
    yet and the coroutine is still suspended. *)
Fixpoint start_loop
    (reads : list (result HttpProcessingError (RawResponseMessage * StreamReader)))
    (self : t) : option (result exn (RawResponseMessage * StreamReader)) * t :=
  match reads with
  | [] => (None, self)
  | Raise exc :: _ =>
      (Some (Raise (ClientResponseError (_request_info self) (_history self)
                      (Some (hpe_code exc)) (hpe_message exc) (hpe_headers exc))),
       self)
  | Ok (message, payload) :: rest =>
      if ((msg_code message <? 100) || (msg_code message >? 199)
          || (msg_code message =? 101))%Z
      then (Some (Ok (message, payload)), self)
      else
        let self := match _continue self with
                    | Some _ => with_continue self None
                    | None => self
                    end in
        start_loop rest self
  end.

(** [start]. [payload.on_eof(cb)] calls [cb] at once when the payload is
    already at its end. The cookie jar is not modelled. *)
Definition start
    (reads : list (result HttpProcessingError (RawResponseMessage * StreamReader)))
    (connection : Connection) (w : World) : option (result exn unit) * World :=
  let self := with_connection (with_closed (resp w) false) (Some connection) in
  match start_loop reads self with
  | (None, self) => (None, with_resp w self)
  | (Some (Raise e), self) => (Some (Raise e), with_resp w self)
  | (Some (Ok (message, payload)), self) =>
      let w := with_resp w self in
      let w := if stream_at_eof payload then _response_eof w else w in
      let w := with_resp w (with_head (resp w) message) in
      (Some (Ok tt), with_resp w (with_content (resp w) (Some payload)))
  end.

(** *** [read] *)

(** What [read] meets at its suspension points: what the connection still
    delivers up to the end of the payload (or the failure that arrives
    instead), what the trace hooks raise, what the writer task ended with. *)
Record ReadEnv := mkReadEnv {
  incoming : result exn bytes;
  trace_outcome : option exn;
  writer_outcome : option exn
}.

(** Modelled from the spec: [StreamReader.read()] of a stream with a
    stored failure raises it; otherwise it returns everything up to the
    end of the payload; an [EmptyStreamReader] returns the empty bytes.
    The last component tells whether the end of the payload was reached
    during this call. *)
Definition stream_read (inc : result exn bytes) (s : StreamReader)
  : result exn bytes * StreamReader * bool :=
  if sr_empty s then
    (Ok [], mkStream (sr_exception s) (sr_eof s) (sr_buffer s) (S (sr_reads s)) true,
     false)
  else
  match sr_exception s with
  | Some e =>
      (Raise e, mkStream (Some e) (sr_eof s) (sr_buffer s) (S (sr_reads s)) false, false)
  | None =>
      if sr_eof s then
        (Ok (sr_buffer s), mkStream None true [] (S (sr_reads s)) false, false)
      else
        match inc with
        | Ok more =>
            (Ok (sr_buffer s ++ more), mkStream None true [] (S (sr_reads s)) false, true)
        | Raise e =>
            (Raise e,
             mkStream (match classify e with IsCancelled => None | _ => Some e end)
               false (sr_buffer s) (S (sr_reads s)) false,
             false)
        end
  end.

(** [read] *)
Definition read (env : ReadEnv) (w : World) : result exn (option bytes) * World :=
  let filled : result exn unit * World :=
    match _body (resp w) with
    | None =>
        match content (resp w) with
        | None => (Raise (AttributeError "'NoneType' object has no attribute 'read'"),
                   close w)
        | Some s =>
            match stream_read (incoming env) s with
            | (Raise e, s', _) =>
                (Raise e, close (with_resp w (with_content (resp w) (Some s'))))
            | (Ok data, s', eof_now) =>
                let w := with_resp w (with_content (resp w) (Some s')) in
                let w := if eof_now then _response_eof w else w in
                let w := with_resp w (with_body (resp w) (Some data)) in
                match trace_outcome env with
                | Some e => (Raise e, close w)
                | None => (Ok tt, w)
                end
            end
        end
    | Some _ =>
        if _released (resp w) then
          (Raise (ClientConnectionError "Connection closed"), w)
        else (Ok tt, w)
    end in
  match filled with
  | (Raise e, w) => (Raise e, w)
  | (Ok _, w) =>
      let protocol := match _connection (resp w) with
                      | Some c => conn_protocol c
                      | None => None
                      end in
      let waited :=
        match protocol with
        | Some true => (Ok tt, w)
        | _ => _wait_released (writer_outcome env) w
        end in
      match waited with
      | (Raise e, w) => (Raise e, w)
      | (Ok _, w) => (Ok (_body (resp w)), w)
      end
  end.

(** *** [get_encoding] *)

Section Encoding.
Variable parse_mimetype : string -> MimeType.         (* helpers *)
(** [codecs.lookup(name).name]; [None] on [LookupError]. *)
Variable codecs_lookup : string -> option string.
(** The session's charset-sniffing callback. *)
Variable session_resolve_charset : t -> bytes -> string.

Definition get_encoding (self : t) : result exn string :=
  match _headers self with
  | None => Raise (AttributeError "'NoneType' object has no attribute 'get'")
  | Some h =>
      let ctype := lower (CIMultiDict.get_default h hdrs.CONTENT_TYPE "") in
      let mimetype := parse_mimetype ctype in
      let enc := params_get (mt_parameters mimetype) "charset" in
      let found :=
        match enc with
        | Some e => if str_truthy e then codecs_lookup e else None
        | None => None
        end in
      match found with
      | Some name => Ok name
      | None =>
          if String.eqb (mt_type mimetype) "application"
             && (String.eqb (mt_subtype mimetype) "json"
                 || String.eqb (mt_subtype mimetype) "rdap")
          then Ok "utf-8"
          else
            match _body self with
            | None =>
                Raise (RuntimeError
                  "Cannot compute fallback encoding of a not yet read body")
            | Some b =>
                match _resolve_charset self with
                | ResolveUtf8 => Ok "utf-8"
                | ResolveBySession => Ok (session_resolve_charset self b)
                end
            end
      end
  end.
End Encoding.

(** *** What can happen to a response, one event at a time *)

Inductive event :=
| EvStart (reads : list (result HttpProcessingError (RawResponseMessage * StreamReader)))
    (connection : Connection)
| EvRelease                       (* release() *)
| EvResponseEof                   (* the payload reached its end *)
| EvClose                         (* close() *)
| EvRaiseForStatus                (* raise_for_status() *)
| EvRead (env : ReadEnv)          (* read(), run to its end *)
| EvWaitForClose (outcome : option exn)
| EvReleaseConnection             (* _release_connection() on its own *)
| EvTaskFinish                    (* the writer task reaches a terminal state *)
| EvLoopTurn                      (* the loop runs what it has scheduled *)
| EvDel.                          (* the finalizer *)

Definition step (e : event) (w : World) : World :=
  match e with
  | EvStart reads connection => snd (start reads connection w)
  | EvRelease => release w
  | EvResponseEof => _response_eof w
  | EvClose => close w
  | EvRaiseForStatus => snd (raise_for_status w)
  | EvRead env => snd (read env w)
  | EvWaitForClose outcome => snd (wait_for_close outcome w)
  | EvReleaseConnection => _release_connection w
  | EvTaskFinish => task_finish w
  | EvLoopTurn => run_ready w
  | EvDel => __del__ w
  end.

Definition run (evs : list event) (w : World) : World :=
  fold_left (fun w e => step e w) evs w.

(** Every [connection.release()] so far found the writer task finished. *)
Definition released_after_writer (w : World) : Prop :=
  forall c d, In (PoolRelease c d) (pool w) -> d = true.

End ClientResponse.

(** ** The request's handle on its writer task *)

Module RequestWriter.

(** Observers on the writer task: the request's own bound method
    [__reset_writer], and those other objects put there (the response
    registers its own). *)
Inductive observer :=
| ReqResetWriter
| Foreign (id : nat).

Definition observer_eqb (a b : observer) : bool :=
  match a, b with
  | ReqResetWriter, ReqResetWriter => true
  | Foreign x, Foreign y => Nat.eqb x y
  | _, _ => false
  end.

Record Task := mkTask {
  done : bool;
  cancel_requested : bool;
  callbacks : list observer
}.

(** The request's [__writer], the task and the loop. *)
Record World := mkWorld {
  _writer : option TaskHandle;
  task : Task;
  scheduled : list observer;     (* callbacks handed to the loop (call_soon) *)
  loop_closed : bool
}.

Definition with_writer (w : World) (h : option TaskHandle) : World :=
  mkWorld h (task w) (scheduled w) (loop_closed w).

Definition with_task (w : World) (k : Task) : World :=
  mkWorld (_writer w) k (scheduled w) (loop_closed w).

Definition with_scheduled (w : World) (q : list observer) : World :=
  mkWorld (_writer w) (task w) q (loop_closed w).

(** [task.add_done_callback(cb)] *)
Definition add_done_callback (cb : observer) (w : World) : World :=
  if done (task w) then with_scheduled w (scheduled w ++ [cb])
  else with_task w (mkTask false (cancel_requested (task w)) (callbacks (task w) ++ [cb])).

(** [task.remove_done_callback(cb)]: every registration of [cb] goes. *)
Definition remove_done_callback (cb : observer) (w : World) : World :=
  with_task w
    (mkTask (done (task w)) (cancel_requested (task w))
       (filter (fun c => negb (observer_eqb c cb)) (callbacks (task w)))).

(** [task.cancel()] *)
Definition task_cancel (w : World) : World :=
  if done (task w) then w
  else with_task w (mkTask false true (callbacks (task w))).

(** The task reaches a terminal state. *)
Definition task_finish (w : World) : World :=
  if done (task w) then w
  else with_scheduled (with_task w (mkTask true (cancel_requested (task w)) []))
         (scheduled w ++ callbacks (task w)).

(** [__reset_writer] *)
Definition __reset_writer (w : World) : World := with_writer w None.

(** The [_writer] setter. *)
Definition set_writer (writer : option TaskHandle) (w : World) : World :=
  let w := match _writer w with
           | Some _ => remove_done_callback ReqResetWriter w
           | None => w
           end in
  let w := with_writer w writer in
  match writer with
  | None => w
  | Some _ =>
      if done (task w) then __reset_writer w
      else add_done_callback ReqResetWriter w
  end.

(** [terminate] *)
Definition terminate (w : World) : World :=
  match _writer w with
  | Some _ =>
      let w := if negb (loop_closed w) then task_cancel w else w in
      let w := remove_done_callback ReqResetWriter w in
      set_writer None w
  | None => w
  end.

(** The loop runs one observer; what the others' observers do is not the
    request's business. *)
Definition run_observer (cb : observer) (w : World) : World :=
  match cb with
  | ReqResetWriter => __reset_writer w
  | Foreign _ => w
  end.

(** One turn of the loop. *)
Definition run_scheduled (w : World) : World :=
  fold_left (fun w cb => run_observer cb w) (scheduled w) (with_scheduled w []).

(** [close]: wait for the writer, with [CancelledError] suppressed.
    [outcome] is what the task ended with. *)
Definition close (outcome : option exn) (w : World) : result exn unit * World :=
  match _writer w with
  | Some _ =>
      let w := if done (task w) then w else run_scheduled (task_finish w) in
      match outcome with
      | None => (Ok tt, w)
      | Some e =>
          match classify e with
          | IsCancelled => (Ok tt, w)
          | _ => (Raise e, w)
          end
      end
  | None => (Ok tt, w)
  end.

End RequestWriter.

(** * Properties *)

(** ** Equality tests decide equality *)

Lemma option_eqb_spec {A : Type} (eqb : A -> A -> bool) :
  (forall a b, eqb a b = true <-> a = b) ->
  forall x y, option_eqb eqb x y = true <-> x = y.
Proof.
  intros Heq [a|] [b|]; simpl; split; intro H; try discriminate; auto.
  - apply Heq in H. now subst.
  - injection H as ->. now apply Heq.
Qed.

Lemma URL_eqb_spec (a b : URL) : URL_eqb a b = true <-> a = b.
Proof.
  unfold URL_eqb. destruct a, b; simpl.
  repeat rewrite andb_true_iff.
  repeat rewrite (option_eqb_spec String.eqb String.eqb_eq).
  rewrite (option_eqb_spec Z.eqb Z.eqb_eq).
  repeat rewrite String.eqb_eq. rewrite Bool.eqb_true_iff.
  split.
  - intros (((((((((-> & ->) & ->) & ->) & ->) & ->) & ->) & ->) & ->) & ->).
    reflexivity.
  - intros H; injection H; intros; subst; repeat split.
Qed.

Lemma BasicAuth_eqb_spec (a b : BasicAuth) : BasicAuth_eqb a b = true <-> a = b.
Proof.
  unfold BasicAuth_eqb. destruct a, b; simpl.
  repeat rewrite andb_true_iff. repeat rewrite String.eqb_eq.
  split.
  - intros ((-> & ->) & ->). reflexivity.
  - intros H; injection H; intros; subst; repeat split.
Qed.

Lemma SslPolicy_eqb_spec (a b : SslPolicy) : SslPolicy_eqb a b = true <-> a = b.
Proof.
  destruct a, b; simpl; try (split; intro; discriminate).
  - rewrite Bool.eqb_true_iff. split; [intros -> | intros [= ->]]; reflexivity.
  - rewrite Nat.eqb_eq. split; [intros -> | intros [= ->]]; reflexivity.
  - rewrite Nat.eqb_eq. split; [intros -> | intros [= ->]]; reflexivity.
Qed.

Lemma ConnectionKey_eqb_spec (a b : ConnectionKey.t) :
  ConnectionKey.eqb a b = true <-> a = b.
Proof.
  unfold ConnectionKey.eqb. destruct a, b; simpl.
  repeat rewrite andb_true_iff.
  rewrite String.eqb_eq, Bool.eqb_true_iff, SslPolicy_eqb_spec.
  repeat rewrite (option_eqb_spec Z.eqb Z.eqb_eq).
  rewrite (option_eqb_spec URL_eqb URL_eqb_spec).
  rewrite (option_eqb_spec BasicAuth_eqb BasicAuth_eqb_spec).
  split.
  - intros ((((((-> & ->) & ->) & ->) & ->) & ->) & ->). reflexivity.
  - intros H; injection H; intros; subst; repeat split.
Qed.

Lemma ConnectionKey_eqb_false (a b : ConnectionKey.t) :
  a <> b -> ConnectionKey.eqb a b = false.
Proof.
  intro Hne. destruct (ConnectionKey.eqb a b) eqn:E; [|reflexivity].
  apply ConnectionKey_eqb_spec in E. contradiction.
Qed.

(** ** C9: connection keys *)

(** C9. [ConnectionKey] equality is reflexive, symmetric and transitive;
    two keys are unequal as soon as one of host, port, TLS-ness, TLS policy,
    proxy, proxy auth or proxy-headers hash differs (so the same host and
    port with [ssl] true and [ssl] false give unequal keys); and the keys
    of two requests whose TLS-ness, TLS policy, proxy, proxy auth or
    proxy-header hash differ are unequal. *)
Theorem ConnectionKey_equality_separates :
  (forall k, ConnectionKey.eqb k k = true)
  /\ (forall a b, ConnectionKey.eqb a b = ConnectionKey.eqb b a)
  /\ (forall a b c,
        ConnectionKey.eqb a b = true -> ConnectionKey.eqb b c = true ->
        ConnectionKey.eqb a c = true)
  /\ (forall a b,
        ConnectionKey.host a <> ConnectionKey.host b
        \/ ConnectionKey.port a <> ConnectionKey.port b
        \/ ConnectionKey.is_ssl a <> ConnectionKey.is_ssl b
        \/ ConnectionKey.ssl a <> ConnectionKey.ssl b
        \/ ConnectionKey.proxy a <> ConnectionKey.proxy b
        \/ ConnectionKey.proxy_auth a <> ConnectionKey.proxy_auth b
        \/ ConnectionKey.proxy_headers_hash a <> ConnectionKey.proxy_headers_hash b ->
        ConnectionKey.eqb a b = false)
  /\ (forall h p tls px pa ph,
        ConnectionKey.eqb
          (ConnectionKey.mk h p tls (SslBool true) px pa ph)
          (ConnectionKey.mk h p tls (SslBool false) px pa ph) = false)
  /\ (forall h p pol px pa ph,
        ConnectionKey.eqb
          (ConnectionKey.mk h p true pol px pa ph)
          (ConnectionKey.mk h p false pol px pa ph) = false)
  /\ (forall hash_items r1 r2 k1 k2,
        ClientRequest.connection_key hash_items r1 = Ok k1 ->
        ClientRequest.connection_key hash_items r2 = Ok k2 ->
        ClientRequest.is_ssl r1 <> ClientRequest.is_ssl r2
        \/ ClientRequest.ssl r1 <> ClientRequest.ssl r2
        \/ ClientRequest.proxy r1 <> ClientRequest.proxy r2
        \/ ClientRequest.proxy_auth r1 <> ClientRequest.proxy_auth r2
        \/ ConnectionKey.proxy_headers_hash k1 <> ConnectionKey.proxy_headers_hash k2 ->
        ConnectionKey.eqb k1 k2 = false).
Proof.
  repeat split.
  - intro k. now apply ConnectionKey_eqb_spec.
  - intros a b.
    destruct (ConnectionKey.eqb a b) eqn:Eab, (ConnectionKey.eqb b a) eqn:Eba;
      try reflexivity.
    + apply ConnectionKey_eqb_spec in Eab. subst.
      rewrite (proj2 (ConnectionKey_eqb_spec b b) eq_refl) in Eba. discriminate.
    + apply ConnectionKey_eqb_spec in Eba. subst.
      rewrite (proj2 (ConnectionKey_eqb_spec a a) eq_refl) in Eab. discriminate.
  - intros a b c Hab Hbc.
    apply ConnectionKey_eqb_spec in Hab, Hbc. subst.
    now apply ConnectionKey_eqb_spec.
  - intros a b H. apply ConnectionKey_eqb_false. intros ->.
    repeat (destruct H as [H|H]; [now apply H|]). now apply H.
  - intros. apply ConnectionKey_eqb_false. discriminate.
  - intros. apply ConnectionKey_eqb_false. discriminate.
  - intros hash_items r1 r2 k1 k2 H1 H2 H.
    unfold ClientRequest.connection_key in H1, H2.
    destruct (ClientRequest.host r1) as [h1|] eqn:E1; simpl in H1; [|discriminate].
    destruct (ClientRequest.host r2) as [h2|] eqn:E2; simpl in H2; [|discriminate].
    injection H1 as <-. injection H2 as <-.
    apply ConnectionKey_eqb_false. intros Heq.
    injection Heq as _ _ Hs Hp Hx Ha Hh.
    simpl in H.
    destruct H as [H|[H|[H|[H|H]]]]; now apply H.
Qed.

Definition example_url : URL :=
  mkURL "http" (Some "example.com") (Some "example.com") (Some 80%Z) true
        None None "/" "" "http://example.com/".

Definition example_key (tls : bool) (pol : SslPolicy) : ConnectionKey.t :=
  ConnectionKey.mk "example.com" (Some 443%Z) tls pol None None None.

Lemma ConnectionKey_equality_separates_witness :
  ConnectionKey.eqb (example_key true (SslBool true)) (example_key true (SslBool false))
  = false.
Proof.
  destruct ConnectionKey_equality_separates as (_ & _ & _ & H & _).
  apply H. right; right; right; left. simpl. discriminate.
Defined.

(** ** C2: keep-alive *)

Lemma HttpVersion_eqb_spec (a b : HttpVersion) : HttpVersion_eqb a b = true <-> a = b.
Proof.
  unfold HttpVersion_eqb. destruct a, b; simpl.
  rewrite andb_true_iff, !Z.eqb_eq.
  split; [intros [-> ->] | intros [= -> ->]]; auto.
Qed.

Lemma opt_string_eqb_spec (x y : option string) :
  option_eqb String.eqb x y = true <-> x = y.
Proof. apply option_eqb_spec, String.eqb_eq. Qed.

(** C2, as amended. [keep_alive()] is false below HTTP/1.0; for HTTP/1.0
    it is true exactly when the first Connection value is the string
    [keep-alive]; for HTTP/1.1 it is true unless the first Connection value
    is the string [close]. The Connection header is read the way the header
    map answers [get]: the first value stored under the case-insensitive
    name, compared as it is spelled. *)
Theorem keep_alive_by_version (r : ClientRequest.t) :
  (HttpVersion_ltb (ClientRequest.version r) HttpVersion10 = true ->
     ClientRequest.keep_alive r = false)
  /\ (ClientRequest.version r = HttpVersion10 ->
        (ClientRequest.keep_alive r = true <->
         CIMultiDict.get (ClientRequest.headers r) hdrs.CONNECTION = Some "keep-alive"))
  /\ (ClientRequest.version r = HttpVersion11 ->
        (ClientRequest.keep_alive r = false <->
         CIMultiDict.get (ClientRequest.headers r) hdrs.CONNECTION = Some "close")).
Proof.
  unfold ClientRequest.keep_alive. repeat split.
  - intros ->. reflexivity.
  - rewrite H. simpl.
    destruct (option_eqb String.eqb _ _) eqn:E; [|discriminate].
    intros _. now apply opt_string_eqb_spec.
  - rewrite H. simpl. intros Hg. rewrite Hg. reflexivity.
  - rewrite H. simpl.
    destruct (option_eqb String.eqb _ _) eqn:E; [|discriminate].
    intros _. now apply opt_string_eqb_spec.
  - rewrite H. simpl. intros Hg. rewrite Hg. reflexivity.
Qed.

Definition example_request (v : HttpVersion) (h : CIMultiDict.t) : ClientRequest.t :=
  ClientRequest.mk "GET" example_url example_url v h [] (BodyBytes []) None None None
    None None None (SslBool true) None.

(** C2 as it is stated fails when the header that is explicitly present is
    not the first Connection value, or is spelled in another case: on
    HTTP/1.1 a request with [Connection: Upgrade] followed by
    [Connection: close], or with [Connection: Close], is kept alive; on
    HTTP/1.0 a request with [Connection: Upgrade] followed by
    [Connection: keep-alive] is not. *)
Lemma keep_alive_counterexample :
  let r1 := example_request HttpVersion11
              [("Connection", "Upgrade"); ("Connection", "close")] in
  let r2 := example_request HttpVersion11 [("Connection", "Close")] in
  let r3 := example_request HttpVersion10
              [("Connection", "Upgrade"); ("Connection", "keep-alive")] in
  (CIMultiDict.getall (ClientRequest.headers r1) hdrs.CONNECTION = ["Upgrade"; "close"]
   /\ ClientRequest.keep_alive r1 = true)
  /\ (CIMultiDict.getall (ClientRequest.headers r2) hdrs.CONNECTION = ["Close"]
      /\ ClientRequest.keep_alive r2 = true)
  /\ (CIMultiDict.getall (ClientRequest.headers r3) hdrs.CONNECTION
      = ["Upgrade"; "keep-alive"]
      /\ ClientRequest.keep_alive r3 = false).
Proof. repeat split. Qed.

Lemma keep_alive_by_version_witness :
  ClientRequest.keep_alive
    (example_request HttpVersion10 [("Host", "example.com"); ("connection", "keep-alive")])
  = true.
Proof.
  destruct (keep_alive_by_version
              (example_request HttpVersion10
                 [("Host", "example.com"); ("connection", "keep-alive")]))
    as (_ & H & _).
  apply H; reflexivity.
Defined.

(** The keep-alive matrix of the specification, run on the code. *)
Example keep_alive_matrix :
  ClientRequest.keep_alive (example_request HttpVersion10 [("Host", "h")]) = false
  /\ ClientRequest.keep_alive
       (example_request HttpVersion10 [("Host", "h"); ("Connection", "keep-alive")]) = true
  /\ ClientRequest.keep_alive (example_request HttpVersion11 [("Host", "h")]) = true
  /\ ClientRequest.keep_alive
       (example_request HttpVersion11 [("Host", "h"); ("Connection", "close")]) = false
  /\ ClientRequest.keep_alive
       (example_request (mkHttpVersion 0 9) [("Connection", "keep-alive")]) = false.
Proof. repeat split. Qed.

(** ** C5: certificate pinning *)

Lemma Fingerprint_init_cases (b : bytes) :
  (length b = 32%nat /\
   Fingerprint.init b = Ok (Fingerprint.mk sha256 b))
  \/ ((length b = 16%nat \/ length b = 20%nat) /\
      Fingerprint.init b =
      Raise (ValueError "md5 and sha1 are insecure and not supported. Use sha256."))
  \/ (Fingerprint.dict_get Fingerprint.HASHFUNC_BY_DIGESTLEN (length b) = None /\
      Fingerprint.init b = Raise (ValueError "fingerprint has invalid length")).
Proof.
  unfold Fingerprint.init, Fingerprint.HASHFUNC_BY_DIGESTLEN, Fingerprint.dict_get.
  destruct (Nat.eqb 16 (length b)) eqn:E16.
  { apply Nat.eqb_eq in E16. right; left. split; [now left; symmetry|reflexivity]. }
  destruct (Nat.eqb 20 (length b)) eqn:E20.
  { apply Nat.eqb_eq in E20. right; left. split; [now right; symmetry|reflexivity]. }
  destruct (Nat.eqb 32 (length b)) eqn:E32.
  { apply Nat.eqb_eq in E32. left. split; [now symmetry|reflexivity]. }
  right; right. split; reflexivity.
Qed.

Section FingerprintFacts.
Variable digest : HashFunc -> bytes -> bytes.

  (** C5. Construction raises for a digest whose length maps to no known
      algorithm, raises for 16- and 20-byte digests, and succeeds exactly
      for 32-byte digests. [check] does nothing on a transport that reports
      no TLS; on a TLS transport it raises the fingerprint-mismatch error
      with the pinned digest, the digest found and the peer host and port
      exactly when the SHA-256 digest of the peer certificate differs from
      the pinned one, and returns otherwise. *)
Theorem Fingerprint_pinning :
    (forall b,
        Fingerprint.dict_get Fingerprint.HASHFUNC_BY_DIGESTLEN (length b) = None ->
        exists msg, Fingerprint.init b = Raise (ValueError msg))
    /\ (forall b,
          length b = 16%nat \/ length b = 20%nat ->
          exists msg, Fingerprint.init b = Raise (ValueError msg))
    /\ (forall b, (exists f, Fingerprint.init b = Ok f) <-> length b = 32%nat)
    /\ (forall b f t,
          Fingerprint.init b = Ok f ->
          Fingerprint.sslcontext t = None ->
          Fingerprint.check digest f t = Ok tt)
    /\ (forall b f ctx cert host port,
          Fingerprint.init b = Ok f ->
          let t := Fingerprint.mkTransport (Some ctx) (Some cert) (Some (host, port)) in
          Fingerprint.fingerprint f = b
          /\ (Fingerprint.check digest f t =
              Raise (ServerFingerprintMismatch b (digest sha256 cert) host port)
              <-> digest sha256 cert <> b)
          /\ (digest sha256 cert = b -> Fingerprint.check digest f t = Ok tt)).
  Proof.
    repeat split.
    - intros b Hnone.
      destruct (Fingerprint_init_cases b) as [[Hl _]|[[Hl _]|[_ ->]]]; eauto.
      + rewrite Hl in Hnone. discriminate.
      + destruct Hl as [Hl|Hl]; rewrite Hl in Hnone; discriminate.
    - intros b Hl.
      destruct (Fingerprint_init_cases b) as [[Hl' _]|[[_ ->]|[Hn _]]]; eauto.
      + destruct Hl; lia.
      + destruct Hl as [Hl|Hl]; rewrite Hl in Hn; discriminate.
    - intros [f Hf].
      destruct (Fingerprint_init_cases b) as [[Hl _]|[[_ H]|[_ H]]]; auto;
        rewrite H in Hf; discriminate.
    - intros Hl.
      destruct (Fingerprint_init_cases b) as [[_ H]|[[Hl' _]|[Hn _]]]; eauto.
      + destruct Hl'; lia.
      + rewrite Hl in Hn. discriminate.
    - intros b f t Hf Hctx. unfold Fingerprint.check. now rewrite Hctx.
    - destruct (Fingerprint_init_cases b) as [[_ H']|[[_ H']|[_ H']]];
        rewrite H' in H; try discriminate.
      injection H as <-. reflexivity.
    - destruct (Fingerprint_init_cases b) as [[_ H']|[[_ H']|[_ H']]];
        rewrite H' in H; try discriminate.
      injection H as <-. unfold Fingerprint.check; simpl.
      destruct (bytes_eq_dec (digest sha256 cert) b) as [He|Hne]; [discriminate|auto].
    - destruct (Fingerprint_init_cases b) as [[_ H']|[[_ H']|[_ H']]];
        rewrite H' in H; try discriminate.
      injection H as <-. unfold Fingerprint.check; simpl.
      intro Hne.
      destruct (bytes_eq_dec (digest sha256 cert) b) as [He|_]; [contradiction|reflexivity].
    - destruct (Fingerprint_init_cases b) as [[_ H']|[[_ H']|[_ H']]];
        rewrite H' in H; try discriminate.
      injection H as <-. unfold Fingerprint.check; simpl.
      intro He.
      destruct (bytes_eq_dec (digest sha256 cert) b) as [_|Hne]; [reflexivity|contradiction].
  Qed.
End FingerprintFacts.

(** A stand-in digest for running [check]: the certificate padded or cut to
    32 bytes. *)
Definition toy_digest (_ : HashFunc) (data : bytes) : bytes :=
  firstn 32 (data ++ repeat Byte.x00 32).

Definition pinned : bytes := repeat Byte.x2a 32.

Lemma Fingerprint_pinning_witness :
  Fingerprint.check toy_digest (Fingerprint.mk sha256 pinned)
    (Fingerprint.mkTransport (Some 0%nat) (Some [Byte.x01]) (Some ("peer", 443%Z)))
  = Raise (ServerFingerprintMismatch pinned (toy_digest sha256 [Byte.x01]) "peer" 443%Z).
Proof.
  destruct (Fingerprint_pinning toy_digest) as (_ & _ & _ & _ & H).
  destruct (H pinned (Fingerprint.mk sha256 pinned) 0%nat [Byte.x01] "peer" 443%Z
              eq_refl) as (_ & Hiff & _).
  apply Hiff. vm_compute. discriminate.
Defined.

(** ** C8: the encoding of a response *)

Section EncodingFacts.
Variable parse_mimetype : string -> MimeType.
Variable codecs_lookup : string -> option string.
Variable session_resolve_charset : ClientResponse.t -> bytes -> string.

(** The media type [get_encoding] parses out of the Content-Type header. *)
Definition response_mimetype (h : CIMultiDict.t) : MimeType :=
  parse_mimetype (lower (CIMultiDict.get_default h hdrs.CONTENT_TYPE "")).

(** The Content-Type header carries a charset parameter that
    [codecs.lookup] resolves to [name]. *)
Definition resolvable_charset (h : CIMultiDict.t) (name : string) : Prop :=
  exists e,
    params_get (mt_parameters (response_mimetype h)) "charset" = Some e
    /\ e <> "" /\ codecs_lookup e = Some name.

(** The media types the code answers UTF-8 for: type [application] with
    subtype [json] or [rdap], whatever the suffix ([application/json],
    [application/rdap+json]). *)
Definition application_json_or_rdap (m : MimeType) : Prop :=
  mt_type m = "application" /\ (mt_subtype m = "json" \/ mt_subtype m = "rdap").

(** What the charset-sniffing collaborator of the response answers. *)
Definition sniffed_charset (self : ClientResponse.t) (b : bytes) : string :=
  match ClientResponse._resolve_charset self with
  | ResolveUtf8 => "utf-8"
  | ResolveBySession => session_resolve_charset self b
  end.

Lemma application_json_or_rdap_dec (m : MimeType) :
  (String.eqb (mt_type m) "application"
   && (String.eqb (mt_subtype m) "json" || String.eqb (mt_subtype m) "rdap")) = true
  <-> application_json_or_rdap m.
Proof.
  unfold application_json_or_rdap.
  rewrite andb_true_iff, orb_true_iff, !String.eqb_eq. reflexivity.
Qed.

Lemma str_truthy_spec (s : string) : str_truthy s = true <-> s <> "".
Proof.
  destruct s; simpl; split; intro H; try discriminate; auto.
Qed.

(** C8, as amended. With the headers of a started response: a resolvable
    charset parameter of Content-Type is returned; failing that, UTF-8 for
    a media type of type [application] and subtype [json] or [rdap],
    whatever its suffix; failing that, the answer of the charset-sniffing
    collaborator when the body was read; and the call fails when the body
    was not read and neither the header nor the media type decide. *)
Theorem get_encoding_resolution_order (self : ClientResponse.t) (h : CIMultiDict.t) :
  ClientResponse._headers self = Some h ->
  let get_encoding :=
    ClientResponse.get_encoding parse_mimetype codecs_lookup session_resolve_charset in
  (forall name, resolvable_charset h name -> get_encoding self = Ok name)
  /\ ((forall name, ~ resolvable_charset h name) ->
      (application_json_or_rdap (response_mimetype h) -> get_encoding self = Ok "utf-8")
      /\ (~ application_json_or_rdap (response_mimetype h) ->
          (forall b, ClientResponse._body self = Some b ->
                     get_encoding self = Ok (sniffed_charset self b))
          /\ (ClientResponse._body self = None ->
              exists msg, get_encoding self = Raise (RuntimeError msg)))).
Proof.
  intros Hh get_encoding. subst get_encoding.
  unfold ClientResponse.get_encoding. rewrite Hh.
  fold (response_mimetype h).
  split.
  - intros name (e & He & Hne & Hl). rewrite He.
    apply str_truthy_spec in Hne. rewrite Hne, Hl. reflexivity.
  - intros Hnone.
    assert (Hfound :
      match params_get (mt_parameters (response_mimetype h)) "charset" with
      | Some e => if str_truthy e then codecs_lookup e else None
      | None => None
      end = None).
    { destruct (params_get _ "charset") as [e|] eqn:He; [|reflexivity].
      destruct (str_truthy e) eqn:Ht; [|reflexivity].
      destruct (codecs_lookup e) as [name|] eqn:Hl; [|reflexivity].
      exfalso. apply (Hnone name). exists e. repeat split; auto.
      now apply str_truthy_spec. }
    rewrite Hfound. split.
    + intros Hj. apply application_json_or_rdap_dec in Hj. rewrite Hj. reflexivity.
    + intros Hnj.
      destruct (String.eqb (mt_type (response_mimetype h)) "application"
                && (String.eqb (mt_subtype (response_mimetype h)) "json"
                    || String.eqb (mt_subtype (response_mimetype h)) "rdap")) eqn:Ej.
      { apply application_json_or_rdap_dec in Ej. contradiction. }
      split.
      * intros b Hb. rewrite Hb. unfold sniffed_charset.
        destruct (ClientResponse._resolve_charset self); reflexivity.
      * intros Hb. rewrite Hb. eauto.
Qed.

End EncodingFacts.

(** A stand-in for [helpers.parse_mimetype], enough to run [get_encoding]:
    it knows two Content-Type values. *)
Definition toy_parse_mimetype (s : string) : MimeType :=
  if String.eqb s "text/html; charset=latin1" then
    mkMimeType "text" "html" "" [("charset", "latin1")]
  else if String.eqb s "application/json" then
    mkMimeType "application" "json" "" []
  else mkMimeType "" "" "" [].

Definition toy_codecs_lookup (s : string) : option string :=
  if String.eqb s "latin1" then Some "iso8859-1"
  else if String.eqb s "utf8" then Some "utf-8" else None.

Definition example_request_info : RequestInfo :=
  mkRequestInfo example_url "GET" [("Host", "example.com")] example_url.

Definition example_response (st : Z) (h : CIMultiDict.t) (b : option bytes)
  : ClientResponse.t :=
  ClientResponse.mk "GET" (Some HttpVersion11) (Some st) (Some "reason")
    (Some (mkStream None false [] 0 false)) (Some h) (Some (mkConnection 1 (Some false)))
    false false None b None [] example_request_info None ResolveUtf8.

Lemma get_encoding_resolution_order_witness :
  ClientResponse.get_encoding toy_parse_mimetype toy_codecs_lookup (fun _ _ => "ascii")
    (example_response 200 [("Content-Type", "Text/HTML; charset=latin1")] None)
  = Ok "iso8859-1".
Proof.
  destruct (get_encoding_resolution_order toy_parse_mimetype toy_codecs_lookup
              (fun _ _ => "ascii")
              (example_response 200 [("Content-Type", "Text/HTML; charset=latin1")] None)
              [("Content-Type", "Text/HTML; charset=latin1")] eq_refl) as [H _].
  apply H. exists "latin1". repeat split. discriminate.
Defined.

(** [helpers.parse_mimetype] on two media types with a structured-syntax
    suffix. *)
Definition suffix_parse_mimetype (s : string) : MimeType :=
  if String.eqb s "application/problem+json" then
    mkMimeType "application" "problem" "json" []
  else if String.eqb s "application/rdap+xml" then
    mkMimeType "application" "rdap" "xml" []
  else toy_parse_mimetype s.

(** C8 as it is stated fails on the JSON media types that carry JSON as
    their suffix: for [application/problem+json] (type [application],
    subtype [problem], suffix [json]) no UTF-8 is answered, and with the
    body not read the call fails; while [application/rdap+xml], which is
    no JSON, is answered with UTF-8. *)
Lemma json_suffix_counterexample :
  let ge := ClientResponse.get_encoding suffix_parse_mimetype toy_codecs_lookup
              (fun _ _ => "ascii") in
  ge (example_response 200 [("Content-Type", "application/problem+json")] None)
  = Raise (RuntimeError "Cannot compute fallback encoding of a not yet read body")
  /\ ge (example_response 200 [("Content-Type", "application/problem+json")] None)
     <> Ok "utf-8"
  /\ ge (example_response 200 [("Content-Type", "application/rdap+xml")] None)
     = Ok "utf-8".
Proof. repeat split. discriminate. Qed.

(** The four outcomes of the resolution, run on the code. *)
Example get_encoding_runs :
  let ge := ClientResponse.get_encoding toy_parse_mimetype toy_codecs_lookup
              (fun _ _ => "ascii") in
  ge (example_response 200 [("Content-Type", "application/json")] None) = Ok "utf-8"
  /\ ge (example_response 200 [("Content-Type", "text/plain")] (Some [])) = Ok "utf-8"
  /\ ge (example_response 200 [("Content-Type", "text/plain")] None)
     = Raise (RuntimeError "Cannot compute fallback encoding of a not yet read body").
Proof. repeat split. Qed.

(** ** C10: [raise_for_status] and [ok] *)

Ltac break_match :=
  match goal with
  | |- context [match ?x with _ => _ end] => destruct x eqn:?
  end.

Ltac break_match_hyp H :=
  match type of H with
  | context [match ?x with _ => _ end] => destruct x eqn:?
  end.






(** ** C6: failures of the body writer *)

Section BodyWriterFacts.
Variable env : BodyWriter.Env.
Variable conn_str : string.

Lemma await_continue_frame (wd wd1 : BodyWriter.World) r :
  BodyWriter.await_continue env wd = (r, wd1) ->
  BodyWriter.req wd1 = BodyWriter.req wd
  /\ BodyWriter.protocol wd1 = BodyWriter.protocol wd
  /\ BodyWriter.written (BodyWriter.writer wd1) = BodyWriter.written (BodyWriter.writer wd)
  /\ BodyWriter.eof_written (BodyWriter.writer wd1)
     = BodyWriter.eof_written (BodyWriter.writer wd).
Proof.
  unfold BodyWriter.await_continue. intro H.
  repeat break_match_hyp H; injection H as <- <-; simpl; auto.
Qed.

Lemma write_chunks_eof (chunks : list bytes) :
  forall w r w',
    BodyWriter.write_chunks env chunks w = (r, w') ->
    BodyWriter.eof_written w' = BodyWriter.eof_written w.
Proof.
  induction chunks as [|c rest IH]; simpl; intros w r w' H.
  - now injection H as <- <-.
  - destruct (BodyWriter.write_outcome env (length (BodyWriter.written w)) c).
    + now injection H as <- <-.
    + apply IH in H. exact H.
Qed.

Lemma stream_body_frame (wd1 wd2 : BodyWriter.World) r :
  BodyWriter.stream_body env wd1 = (r, wd2) ->
  ClientRequest.url (BodyWriter.req wd2) = ClientRequest.url (BodyWriter.req wd1)
  /\ BodyWriter.protocol wd2 = BodyWriter.protocol wd1
  /\ BodyWriter.eof_written (BodyWriter.writer wd2)
     = BodyWriter.eof_written (BodyWriter.writer wd1).
Proof.
  unfold BodyWriter.stream_body. intro H.
  destruct (ClientRequest.body (BodyWriter.req wd1)) as [b|p|chunks].
  - destruct (BodyWriter.write_chunks env [b] (BodyWriter.writer wd1)) as [r' w'] eqn:E.
    injection H as <- <-. apply write_chunks_eof in E. simpl. auto.
  - destruct (BodyWriter.write_chunks env (payload_chunks p) (BodyWriter.writer wd1))
      as [r' w'] eqn:E.
    injection H as <- <-. apply write_chunks_eof in E. simpl. auto.
  - destruct (BodyWriter.write_chunks env chunks (BodyWriter.writer wd1))
      as [r' w'] eqn:E.
    injection H as <- <-. apply write_chunks_eof in E. simpl. auto.
Qed.

(** C6. Once the writer streams the body ([wd1] is the state it starts
    from): a failure [e] of the streaming never leaves the coroutine as an
    exception but ends in the deferred-exception slot of the protocol: an
    [OSError] that is a timeout (no errno, an [asyncio.TimeoutError]) is
    stored as it is; any other [OSError] is stored wrapped in a
    [ClientOSError] whose message names the target URL; any other
    [Exception] is stored wrapped in a [ClientConnectionError]. In these
    cases no end-of-body marker is written and no timer is started. When
    the streaming succeeds, the end-of-body marker is written and, once
    that call returns, the response timeout timer is started; the slot is
    left alone. *)
Theorem write_bytes_defers_failures (wd wd1 wd2 : BodyWriter.World) :
  BodyWriter.await_continue env wd = (None, wd1) ->
  (forall e,
      BodyWriter.stream_body env wd1 = (Some e, wd2) ->
      (classify e = IsOSError None true ->
       BodyWriter.write_bytes env conn_str wd =
       (Ok tt, BodyWriter.mkWorld (BodyWriter.req wd2) (BodyWriter.writer wd2)
                 (BodyWriter.mkProtocol (Some (e, e))
                    (BodyWriter.timeout_started (BodyWriter.protocol wd)))))
      /\ (forall errno tmo,
             classify e = IsOSError errno tmo ->
             errno <> None \/ tmo = false ->
             BodyWriter.write_bytes env conn_str wd =
             (Ok tt, BodyWriter.mkWorld (BodyWriter.req wd2) (BodyWriter.writer wd2)
                       (BodyWriter.mkProtocol
                          (Some (ClientOSError errno
                                   ("Can not write request body for "
                                    ++ url_str (ClientRequest.url (BodyWriter.req wd)))%string,
                                 e))
                          (BodyWriter.timeout_started (BodyWriter.protocol wd)))))
      /\ (classify e = IsException ->
          BodyWriter.write_bytes env conn_str wd =
          (Ok tt, BodyWriter.mkWorld (BodyWriter.req wd2) (BodyWriter.writer wd2)
                    (BodyWriter.mkProtocol
                       (Some (ClientConnectionError
                                ("Failed to send bytes into the underlying connection "
                                 ++ conn_str)%string,
                              e))
                       (BodyWriter.timeout_started (BodyWriter.protocol wd)))))
      /\ BodyWriter.eof_written (BodyWriter.writer wd2)
         = BodyWriter.eof_written (BodyWriter.writer wd))
  /\ (BodyWriter.stream_body env wd1 = (None, wd2) ->
      (BodyWriter.write_eof_outcome env = None ->
       BodyWriter.write_bytes env conn_str wd =
       (Ok tt,
        BodyWriter.mkWorld (BodyWriter.req wd2)
          (BodyWriter.mkWriter (BodyWriter.written (BodyWriter.writer wd2)) true
             (BodyWriter.drains (BodyWriter.writer wd2)))
          (BodyWriter.mkProtocol (BodyWriter.exception (BodyWriter.protocol wd)) true)))
      /\ (forall x, BodyWriter.write_eof_outcome env = Some x ->
                    fst (BodyWriter.write_bytes env conn_str wd) = Raise x)).
Proof.
  intro Hc.
  destruct (await_continue_frame _ _ _ Hc) as (Hreq & Hprot & _ & Heof1).
  split.
  - intros e Hs.
    destruct (stream_body_frame _ _ _ Hs) as (Hurl & Hprot2 & Heof2).
    unfold BodyWriter.write_bytes. rewrite Hc, Hs.
    unfold BodyWriter.set_exception. rewrite Hprot2, Hprot, Hurl, Hreq.
    repeat split.
    + intros ->. reflexivity.
    + intros errno tmo -> Hnt.
      destruct errno as [n|]; simpl; [reflexivity|].
      destruct Hnt as [Hnt| ->]; [now elim Hnt|reflexivity].
    + intros ->. reflexivity.
    + congruence.
  - intros Hs.
    destruct (stream_body_frame _ _ _ Hs) as (Hurl & Hprot2 & Heof2).
    unfold BodyWriter.write_bytes. rewrite Hc, Hs.
    unfold BodyWriter.write_eof, BodyWriter.start_timeout.
    rewrite Hprot2, Hprot. split.
    + intros ->. reflexivity.
    + intros x ->. reflexivity.
Qed.

End BodyWriterFacts.

(** A writer whose every [write] fails with [EPIPE]. *)
Definition broken_pipe_env : BodyWriter.Env :=
  BodyWriter.mkEnv None None (fun _ _ => Some (OSError (Some 32%Z) false)) None.

Definition example_write_world (b : Body) : BodyWriter.World :=
  BodyWriter.mkWorld
    (ClientRequest.with_body (example_request HttpVersion11 [("Host", "example.com")]) b)
    (BodyWriter.mkWriter [] false 0)
    (BodyWriter.mkProtocol None false).

Lemma write_bytes_defers_failures_witness :
  BodyWriter.write_bytes broken_pipe_env "Connection<key>"
    (example_write_world (BodyChunks [[Byte.x61]; [Byte.x62]]))
  = (Ok tt,
     BodyWriter.mkWorld
       (ClientRequest.with_body (example_request HttpVersion11 [("Host", "example.com")])
          (BodyChunks [[Byte.x61]; [Byte.x62]]))
       (BodyWriter.mkWriter [] false 0)
       (BodyWriter.mkProtocol
          (Some (ClientOSError (Some 32%Z)
                   "Can not write request body for http://example.com/",
                 OSError (Some 32%Z) false))
          false)).
Proof.
  destruct (write_bytes_defers_failures broken_pipe_env "Connection<key>"
              (example_write_world (BodyChunks [[Byte.x61]; [Byte.x62]]))
              (example_write_world (BodyChunks [[Byte.x61]; [Byte.x62]]))
              (example_write_world (BodyChunks [[Byte.x61]; [Byte.x62]]))
              eq_refl) as [H _].
  destruct (H (OSError (Some 32%Z) false) eq_refl) as (_ & Hos & _).
  rewrite (Hos (Some 32%Z) false eq_refl); [reflexivity|].
  left. discriminate.
Defined.

(** The remaining outcomes, run on the code: a timeout is stored as it is,
    an unexpected exception is wrapped, a successful write ends with the
    end-of-body marker and the timer, and a cancellation still writes the
    end-of-body marker. *)
Example write_bytes_runs :
  let wd := example_write_world (BodyBytes [Byte.x61]) in
  let run env := BodyWriter.write_bytes env "c" wd in
  BodyWriter.exception
    (BodyWriter.protocol
       (snd (run (BodyWriter.mkEnv None None (fun _ _ => Some (OSError None true)) None))))
  = Some (OSError None true, OSError None true)
  /\ BodyWriter.exception
       (BodyWriter.protocol
          (snd (run (BodyWriter.mkEnv None None
                       (fun _ _ => Some (OtherException "RuntimeError")) None))))
     = Some (ClientConnectionError "Failed to send bytes into the underlying connection c",
             OtherException "RuntimeError")
  /\ (let w := snd (run (BodyWriter.mkEnv None None (fun _ _ => None) None)) in
      BodyWriter.written (BodyWriter.writer w) = [[Byte.x61]]
      /\ BodyWriter.eof_written (BodyWriter.writer w) = true
      /\ BodyWriter.timeout_started (BodyWriter.protocol w) = true
      /\ BodyWriter.exception (BodyWriter.protocol w) = None)
  /\ (let w := snd (run (BodyWriter.mkEnv None None
                           (fun _ _ => Some CancelledError) None)) in
      BodyWriter.eof_written (BodyWriter.writer w) = true
      /\ BodyWriter.timeout_started (BodyWriter.protocol w) = false
      /\ BodyWriter.exception (BodyWriter.protocol w) = None).
Proof. repeat split. Qed.

(** ** C1: the connection is released only after the writer task *)

Module ReleaseOrder.
Import ClientResponse.

(** What holds of a response and its writer task at every moment:
    a cleared handle means a finished task; the loop has callbacks of the
    task only once it finished; a finished task keeps no callbacks; a task
    in flight has [__reset_writer] as its first observer; and every release
    so far came after the writer. *)
Record Inv (w : World) : Prop := mkInv {
  inv_handle : _writer (resp w) = None -> done (task w) = true;
  inv_ready : done (task w) = false -> ready w = [];
  inv_callbacks : done (task w) = true -> callbacks (task w) = [];
  inv_first : done (task w) = false ->
              exists rest, callbacks (task w) = CbResetWriter :: rest;
  inv_pool : released_after_writer w
}.

(** The invariant only looks at the handle, the task, the loop's queue and
    the pool. *)
Lemma Inv_frame (w w' : World) :
  _writer (resp w') = _writer (resp w) ->
  task w' = task w -> ready w' = ready w -> pool w' = pool w ->
  Inv w -> Inv w'.
Proof.
  intros Hw Ht Hr Hp [I1 I2 I3 I4 I5].
  constructor; unfold released_after_writer in *; rewrite ?Hw, ?Ht, ?Hr, ?Hp; auto.
Qed.

Create HintDb inv.

Lemma Inv_add_done_callback cb w : Inv w -> Inv (add_done_callback cb w).
Proof.
  intros [I1 I2 I3 I4 I5]. unfold add_done_callback.
  destruct (done (task w)) eqn:Hd.
  - constructor; simpl; rewrite ?Hd; auto; discriminate.
  - destruct (I4 eq_refl) as [rest Hrest].
    constructor; simpl; auto; try discriminate.
    intros _. rewrite Hrest. simpl. eauto.
Qed.

Lemma Inv_task_cancel w : Inv w -> Inv (task_cancel w).
Proof.
  intros [I1 I2 I3 I4 I5]. unfold task_cancel.
  destruct (done (task w)) eqn:Hd; [constructor; rewrite ?Hd; auto|].
  constructor; simpl; auto; try discriminate.
Qed.

Lemma Inv_task_finish w : Inv w -> Inv (task_finish w).
Proof.
  intros [I1 I2 I3 I4 I5]. unfold task_finish.
  destruct (done (task w)) eqn:Hd; [constructor; rewrite ?Hd; auto|].
  constructor; simpl; auto; discriminate.
Qed.

Lemma done_task_finish w : done (task (task_finish w)) = true.
Proof. unfold task_finish. destruct (done (task w)) eqn:Hd; simpl; auto. Qed.

Lemma Inv_reset_writer w : done (task w) = true -> Inv w -> Inv (__reset_writer w).
Proof.
  intros Hd [I1 I2 I3 I4 I5]. unfold __reset_writer.
  constructor; simpl; auto.
Qed.

Lemma Inv_connection_close c w : Inv w -> Inv (connection_close c w).
Proof.
  intros [I1 I2 I3 I4 I5]. unfold connection_close.
  constructor; simpl; auto.
  intros c' d [H|H]; [discriminate|]. eapply I5; eauto.
Qed.

Lemma Inv_connection_release c w :
  done (task w) = true -> Inv w -> Inv (connection_release c w).
Proof.
  intros Hd [I1 I2 I3 I4 I5]. unfold connection_release.
  constructor; simpl; auto.
  intros c' d [H|H]; [injection H as _ <-; exact Hd|]. eapply I5; eauto.
Qed.

Lemma Inv_release_connection w : Inv w -> Inv (_release_connection w).
Proof.
  intros HI. unfold _release_connection.
  destruct (_connection (resp w)) as [c|]; [|assumption].
  destruct (_writer (resp w)) as [h|] eqn:Hw.
  - now apply Inv_add_done_callback.
  - apply Inv_frame with (connection_release c w); try reflexivity.
    apply Inv_connection_release; [|assumption].
    now apply (inv_handle _ HI).
Qed.

Lemma Inv_cleanup_writer w : Inv w -> Inv (_cleanup_writer w).
Proof.
  intros HI. unfold _cleanup_writer.
  destruct (_writer (resp w)) as [h|] eqn:Hw.
  - apply Inv_frame with (task_cancel w); try reflexivity.
    now apply Inv_task_cancel.
  - apply Inv_frame with w; try reflexivity; assumption.
Qed.

Lemma Inv_notify_content w : Inv w -> Inv (_notify_content w).
Proof.
  intros HI. unfold _notify_content.
  apply Inv_frame with w; try assumption;
    destruct (content (resp w)) as [s|]; try destruct (stream_exception s); reflexivity.
Qed.

Lemma Inv_response_eof w : Inv w -> Inv (_response_eof w).
Proof.
  intros HI. unfold _response_eof.
  destruct (_closed (resp w)); [assumption|].
  assert (Hgo : Inv (_release_connection
                       (_cleanup_writer (with_resp w (with_closed (resp w) true))))).
  { apply Inv_release_connection, Inv_cleanup_writer.
    apply Inv_frame with w; try reflexivity; assumption. }
  destruct (_connection (resp w)) as [c|]; [|exact Hgo].
  destruct (conn_protocol c) as [[|]|]; [assumption|exact Hgo|exact Hgo].
Qed.

Lemma Inv_closed_flag w b : Inv w -> Inv (with_resp w (with_closed (resp w) b)).
Proof. intro HI. apply Inv_frame with w; try reflexivity; assumption. Qed.

Lemma Inv_close w : Inv w -> Inv (close w).
Proof.
  intros HI. unfold close.
  set (w1 := if negb (_released (resp w)) then _notify_content w else w).
  assert (H1 : Inv w1).
  { subst w1. destruct (negb (_released (resp w))); [now apply Inv_notify_content|assumption]. }
  set (w2 := with_resp w1 (with_closed (resp w1) true)).
  assert (H2 : Inv w2) by now apply Inv_closed_flag.
  destruct (loop_closed w2); [assumption|].
  pose proof (Inv_cleanup_writer _ H2) as H3.
  destruct (_connection (resp (_cleanup_writer w2))) as [c|]; [|assumption].
  apply Inv_frame with (connection_close c (_cleanup_writer w2)); try reflexivity.
  now apply Inv_connection_close.
Qed.

Lemma Inv_release w : Inv w -> Inv (release w).
Proof.
  intros HI. unfold release.
  set (w1 := if negb (_released (resp w)) then _notify_content w else w).
  assert (H1 : Inv w1).
  { subst w1. destruct (negb (_released (resp w))); [now apply Inv_notify_content|assumption]. }
  apply Inv_release_connection, Inv_cleanup_writer, Inv_closed_flag, H1.
Qed.

#[export] Hint Resolve Inv_add_done_callback Inv_task_cancel Inv_task_finish
  Inv_release_connection Inv_cleanup_writer Inv_notify_content Inv_response_eof
  Inv_closed_flag Inv_close Inv_release : inv.

Lemma done_run_callback cb w :
  done (task w) = true -> done (task (run_callback cb w)) = true.
Proof.
  intros Hd. destruct cb; simpl; [exact Hd|].
  unfold _release_connection, add_done_callback.
  repeat break_match; simpl; auto.
Qed.

Lemma Inv_run_callback cb w :
  done (task w) = true -> Inv w -> Inv (run_callback cb w).
Proof.
  intros Hd HI. destruct cb; simpl.
  - now apply Inv_reset_writer.
  - now apply Inv_release_connection.
Qed.

Lemma Inv_run_callbacks (cbs : list callback) :
  forall w, done (task w) = true -> Inv w ->
            Inv (fold_left (fun w cb => run_callback cb w) cbs w)
            /\ done (task (fold_left (fun w cb => run_callback cb w) cbs w)) = true.
Proof.
  induction cbs as [|cb rest IH]; simpl; intros w Hd HI; [auto|].
  apply IH; [now apply done_run_callback|now apply Inv_run_callback].
Qed.

Lemma Inv_run_ready w : Inv w -> Inv (run_ready w).
Proof.
  intros HI. unfold run_ready.
  destruct (done (task w)) eqn:Hd.
  - apply Inv_run_callbacks; [exact Hd|].
    destruct HI as [I1 I2 I3 I4 I5]. constructor; simpl; auto.
  - rewrite (inv_ready _ HI Hd). simpl.
    destruct HI as [I1 I2 I3 I4 I5]. constructor; simpl; auto.
Qed.

Lemma Inv_await_writer outcome w : Inv w -> Inv (snd (await_writer outcome w)).
Proof.
  intros HI. unfold await_writer.
  assert (H : Inv (if done (task w) then w else run_ready (task_finish w))).
  { destruct (done (task w)); [assumption|]. now apply Inv_run_ready, Inv_task_finish. }
  destruct outcome; exact H.
Qed.

Lemma Inv_wait_released outcome w : Inv w -> Inv (snd (_wait_released outcome w)).
Proof.
  intros HI. unfold _wait_released.
  destruct (_writer (resp w)); [|simpl; auto with inv].
  pose proof (Inv_await_writer outcome w HI) as H.
  destruct (await_writer outcome w) as [[u|e] w']; simpl in *; auto with inv.
Qed.

Lemma Inv_wait_for_close outcome w : Inv w -> Inv (snd (wait_for_close outcome w)).
Proof.
  intros HI. unfold wait_for_close.
  destruct (_writer (resp w)); [|simpl; auto with inv].
  pose proof (Inv_await_writer outcome w HI) as H.
  destruct (await_writer outcome w) as [[u|e] w']; simpl in *; auto with inv.
Qed.

Lemma Inv_raise_for_status w : Inv w -> Inv (snd (raise_for_status w)).
Proof.
  intros HI. unfold raise_for_status.
  destruct (ok (resp w)) as [[|]|e]; simpl; auto.
  destruct (reason (resp w)); simpl; auto with inv.
Qed.

Lemma start_loop_writer reads :
  forall self r self',
    start_loop reads self = (r, self') -> _writer self' = _writer self.
Proof.
  induction reads as [|[[m p]|exc] rest IH]; simpl; intros self r self' H.
  - now injection H as _ <-.
  - destruct ((msg_code m <? 100)%Z || (msg_code m >? 199)%Z || (msg_code m =? 101)%Z).
    + now injection H as _ <-.
    + apply IH in H. rewrite H. destruct (_continue self); reflexivity.
  - now injection H as _ <-.
Qed.

Lemma Inv_start reads connection w : Inv w -> Inv (snd (start reads connection w)).
Proof.
  intros HI. unfold start.
  destruct (start_loop reads _) as [[[[m p]|e]|] self] eqn:E;
    apply start_loop_writer in E; simpl in E; simpl.
  - assert (H0 : Inv (with_resp w self))
      by (apply Inv_frame with w; try reflexivity; assumption).
    assert (H1 : Inv (if stream_at_eof p then _response_eof (with_resp w self)
                      else with_resp w self))
      by (destruct (stream_at_eof p); auto with inv).
    eapply Inv_frame; [| | | |exact H1]; reflexivity.
  - apply Inv_frame with w; try reflexivity; assumption.
  - apply Inv_frame with w; try reflexivity; assumption.
Qed.

Lemma Inv_read env w : Inv w -> Inv (snd (read env w)).
Proof.
  intros HI. unfold read.
  set (tail := fun (filled : result exn unit * World) =>
    match filled with
    | (Raise e, w) => (Raise e, w)
    | (Ok _, w) =>
        match
          match match _connection (resp w) with
                | Some c => conn_protocol c
                | None => None
                end with
          | Some true => (Ok tt, w)
          | _ => _wait_released (writer_outcome env) w
          end
        with
        | (Raise e, w) => (Raise e, w)
        | (Ok _, w) => (Ok (_body (resp w)), w)
        end
    end).
  assert (Htail : forall f, Inv (snd f) -> Inv (snd (tail f))).
  { intros [[u|e] w'] H'; simpl in *; [|assumption].
    assert (Hw : Inv (snd (_wait_released (writer_outcome env) w')))
      by now apply Inv_wait_released.
    destruct (_connection (resp w')) as [c|].
    - destruct (conn_protocol c) as [[|]|]; simpl; auto;
        destruct (_wait_released (writer_outcome env) w') as [[u'|e'] w'']; simpl in *; auto.
    - destruct (_wait_released (writer_outcome env) w') as [[u'|e'] w'']; simpl in *; auto. }
  apply (Htail _).
  destruct (_body (resp w)) as [b|].
  - destruct (_released (resp w)); simpl; assumption.
  - destruct (content (resp w)) as [s|]; [|simpl; auto with inv].
    destruct (stream_read (incoming env) s) as [[[data|e] s'] eof_now].
    + set (w1 := with_resp w (with_content (resp w) (Some s'))).
      assert (H1 : Inv w1) by (apply Inv_frame with w; try reflexivity; assumption).
      set (w2 := if eof_now then _response_eof w1 else w1).
      assert (H2 : Inv w2) by (subst w2; destruct eof_now; auto with inv).
      set (w3 := with_resp w2 (with_body (resp w2) (Some data))).
      assert (H3 : Inv w3) by (apply Inv_frame with w2; try reflexivity; assumption).
      destruct (trace_outcome env); simpl; auto with inv.
    + simpl. apply Inv_close.
      apply Inv_frame with w; try reflexivity; assumption.
Qed.

(** The events of a response that has not been finalized. *)
Definition before_finalizer (e : event) : bool :=
  match e with
  | EvDel => false
  | _ => true
  end.

Lemma Inv_step e w : before_finalizer e = true -> Inv w -> Inv (step e w).
Proof.
  intros He HI. destruct e; simpl; auto with inv.
  - now apply Inv_start.
  - now apply Inv_raise_for_status.
  - now apply Inv_read.
  - now apply Inv_wait_for_close.
  - now apply Inv_run_ready.
  - discriminate He.
Qed.

Lemma Inv_run evs :
  forall w, forallb before_finalizer evs = true -> Inv w -> Inv (run evs w).
Proof.
  unfold run. induction evs as [|e rest IH]; simpl; intros w He HI; [assumption|].
  apply andb_true_iff in He. destruct He as [He Hrest].
  apply IH; [exact Hrest|]. now apply Inv_step.
Qed.

(** The response as [send] creates it: the writer task [k] has just been
    made, and the handle passed on is the request's own. *)
Definition fresh (method_ : string) (continue100 : option Future)
    (request_info : RequestInfo) (session : option nat)
    (task_done loop_closed_ loop_debug_ : bool) : World :=
  let k := mkTask task_done false [] in
  init method_ (request_writer_handle k) continue100 request_info session k
    loop_closed_ loop_debug_.

(** The states a response can be in before it is finalized: any course of
    events after [send], the finalizer apart. *)
Definition reachable (w : World) : Prop :=
  exists method_ continue100 request_info session task_done lc ld evs,
    forallb before_finalizer evs = true
    /\ w = run evs (fresh method_ continue100 request_info session task_done lc ld).

Lemma Inv_fresh m cont ri sess d lc ld : Inv (fresh m cont ri sess d lc ld).
Proof.
  destruct d; constructor; simpl; auto; try discriminate.
  all: try (intros c0 d0 []).
  intros _. exists []. reflexivity.
Qed.

Lemma Inv_reachable w : reachable w -> Inv w.
Proof.
  intros (m & cont & ri & sess & d & lc & ld & evs & He & ->).
  apply Inv_run; [exact He|apply Inv_fresh].
Qed.

(** Once the handle is cleared, the remaining observers release the
    connection at the first [_release_connection] among them, and only
    once. *)
Lemma callbacks_after_reset (cbs : list callback) :
  forall w,
    _writer (resp w) = None -> done (task w) = true ->
    let w' := fold_left (fun w cb => run_callback cb w) cbs w in
    _writer (resp w') = None /\ done (task w') = true
    /\ match _connection (resp w) with
       | Some c =>
           if existsb (callback_eqb CbReleaseConnection) cbs
           then pool w' = PoolRelease c true :: pool w /\ _connection (resp w') = None
           else pool w' = pool w /\ _connection (resp w') = Some c
       | None => pool w' = pool w /\ _connection (resp w') = None
       end.
Proof.
  induction cbs as [|cb rest IH]; intros w Hw Hd; simpl.
  - repeat split; auto. destruct (_connection (resp w)); auto.
  - destruct cb; simpl.
    + specialize (IH (__reset_writer w) eq_refl Hd). simpl in IH. exact IH.
    + destruct (_connection (resp w)) as [c|] eqn:Hc.
      * set (w1 := with_resp (connection_release c w)
                     (with_connection (resp (connection_release c w)) None)).
        assert (E : _release_connection w = w1)
          by (unfold _release_connection; rewrite Hc, Hw; reflexivity).
        rewrite E.
        assert (Hw1 : _writer (resp w1) = None) by (subst w1; simpl; exact Hw).
        assert (Hd1 : done (task w1) = true) by (subst w1; simpl; exact Hd).
        specialize (IH w1 Hw1 Hd1). simpl in IH.
        destruct IH as (A & B & C). repeat split; auto.
        -- destruct C as [C1 C2]. rewrite C1. subst w1. simpl. rewrite Hd. reflexivity.
        -- apply C.
      * assert (E : _release_connection w = w)
          by (unfold _release_connection; rewrite Hc; reflexivity).
        rewrite E.
        specialize (IH w Hw Hd). simpl in IH. rewrite Hc in IH. exact IH.
Qed.

(** [w1] is [w] after a release was asked for while the writer was in
    flight: nothing reached the pool, the connection is still bound, an
    observer that releases it sits on the task; and when the task has
    finished and the loop has run its observers, the handle is cleared and
    the connection has been released, once, with the writer finished. *)
Definition deferred (c : Connection) (w w1 : World) : Prop :=
  pool w1 = pool w
  /\ _connection (resp w1) = Some c
  /\ done (task w1) = false
  /\ cancel_requested (task w1) = true
  /\ In CbReleaseConnection (callbacks (task w1))
  /\ (let w2 := run_ready (task_finish w1) in
      done (task w2) = true
      /\ _writer (resp w2) = None
      /\ _connection (resp w2) = None
      /\ pool w2 = PoolRelease c true :: pool w).

Lemma deferred_core (w : World) (c : Connection) :
  Inv w -> _connection (resp w) = Some c -> done (task w) = false ->
  deferred c w (_release_connection (_cleanup_writer w)).
Proof.
  intros HI Hc Hd.
  destruct (_writer (resp w)) as [h|] eqn:Hw;
    [|rewrite (inv_handle _ HI Hw) in Hd; discriminate].
  destruct (inv_first _ HI Hd) as [rest Hrest].
  pose proof (inv_ready _ HI Hd) as Hq.
  destruct w as [r k q p lc ld wn]. destruct k as [d cr cbs].
  simpl in *. subst d cbs q.
  unfold deferred, _release_connection, _cleanup_writer, task_cancel,
    add_done_callback; simpl.
  rewrite Hw; simpl. rewrite Hc, Hw; simpl.
  repeat split; auto.
  - right. apply in_or_app. right. now left.
  - unfold run_ready, task_finish; simpl.
    match goal with
    | |- context [fold_left ?f (rest ++ [CbReleaseConnection]) ?w0] =>
        pose proof (callbacks_after_reset (rest ++ [CbReleaseConnection]) w0
                      eq_refl eq_refl) as H
    end.
    simpl in H. apply H.
  - unfold run_ready, task_finish; simpl.
    match goal with
    | |- context [fold_left ?f (rest ++ [CbReleaseConnection]) ?w0] =>
        pose proof (callbacks_after_reset (rest ++ [CbReleaseConnection]) w0
                      eq_refl eq_refl) as H
    end.
    simpl in H. apply H.
  - unfold run_ready, task_finish; simpl.
    match goal with
    | |- context [fold_left ?f (rest ++ [CbReleaseConnection]) ?w0] =>
        pose proof (callbacks_after_reset (rest ++ [CbReleaseConnection]) w0
                      eq_refl eq_refl) as H
    end.
    simpl in H. rewrite Hc in H.
    rewrite existsb_app in H. simpl in H. rewrite orb_true_r in H. apply H.
  - unfold run_ready, task_finish; simpl.
    match goal with
    | |- context [fold_left ?f (rest ++ [CbReleaseConnection]) ?w0] =>
        pose proof (callbacks_after_reset (rest ++ [CbReleaseConnection]) w0
                      eq_refl eq_refl) as H
    end.
    simpl in H. rewrite Hc in H.
    rewrite existsb_app in H. simpl in H. rewrite orb_true_r in H. apply H.
Qed.

Lemma deferred_frame (c : Connection) (w w0 w1 : World) :
  pool w0 = pool w -> deferred c w0 w1 -> deferred c w w1.
Proof. unfold deferred. intros ->. auto. Qed.

Lemma notify_content_frame (w : World) :
  let w' := if negb (_released (resp w)) then _notify_content w else w in
  _writer (resp w') = _writer (resp w) /\ _connection (resp w') = _connection (resp w)
  /\ task w' = task w /\ ready w' = ready w /\ pool w' = pool w.
Proof.
  simpl. destruct (negb (_released (resp w))); [|auto].
  unfold _notify_content.
  destruct (content (resp w)) as [s|]; [destruct (stream_exception s)|]; simpl; auto.
Qed.

Lemma release_deferred (w : World) (c : Connection) :
  Inv w -> _connection (resp w) = Some c -> done (task w) = false ->
  deferred c w (release w).
Proof.
  intros HI Hc Hd. unfold release.
  destruct (notify_content_frame w) as (Hw & Hcn & Ht & Hr & Hp).
  set (w1 := if negb (_released (resp w)) then _notify_content w else w) in *.
  set (w0 := with_resp w1 (with_closed (resp w1) true)).
  apply deferred_frame with w0; [exact Hp|].
  apply deferred_core.
  - apply Inv_frame with w; auto.
  - subst w0. simpl. rewrite Hcn. exact Hc.
  - subst w0. simpl. rewrite Ht. exact Hd.
Qed.

Lemma response_eof_deferred (w : World) (c : Connection) :
  Inv w -> _connection (resp w) = Some c -> done (task w) = false ->
  _closed (resp w) = false -> conn_protocol c <> Some true ->
  deferred c w (_response_eof w).
Proof.
  intros HI Hc Hd Hcl Hup. unfold _response_eof. rewrite Hcl, Hc.
  assert (H : deferred c w
                (_release_connection
                   (_cleanup_writer (with_resp w (with_closed (resp w) true))))).
  { apply deferred_frame with (with_resp w (with_closed (resp w) true)); [reflexivity|].
    apply deferred_core; auto. apply Inv_frame with w; auto. }
  destruct (conn_protocol c) as [[|]|]; [now elim Hup|exact H|exact H].
Qed.

(** C1, as amended. In every state a response can reach after [send]
    before it is finalized, every [connection.release()] made so far found
    the writer task in a terminal state. And when [release()], or the end
    of the payload, comes on an open loop while the writer task is still in
    flight, nothing is released then: an observer is put on the task, and
    the release happens when the task has finished and its observers have
    run, the handle being cleared by then. *)
Theorem connection_release_waits_for_writer :
  (forall w, reachable w -> released_after_writer w)
  /\ (forall w c,
        reachable w -> loop_closed w = false ->
        _connection (resp w) = Some c -> done (task w) = false ->
        deferred c w (release w))
  /\ (forall w c,
        reachable w -> loop_closed w = false ->
        _connection (resp w) = Some c -> done (task w) = false ->
        _closed (resp w) = false -> conn_protocol c <> Some true ->
        deferred c w (_response_eof w)).
Proof.
  split; [|split].
  - intros w Hr. apply inv_pool, Inv_reachable, Hr.
  - intros w c Hr _. apply release_deferred, Inv_reachable, Hr.
  - intros w c Hr _. apply response_eof_deferred, Inv_reachable, Hr.
Qed.

(** Scenario D of the specification: a POST whose body is still being
    written when the head of the response has arrived. *)
Definition scenario_D : World :=
  run [EvStart [Ok (mkMessage HttpVersion11 200 "OK" [("Content-Length", "2")],
                    mkStream None false [] 0 false)]
         (mkConnection 7 (Some false))]
      (fresh "POST" None example_request_info None false false false).

Lemma connection_release_waits_for_writer_witness :
  deferred (mkConnection 7 (Some false)) scenario_D (release scenario_D).
Proof.
  destruct connection_release_waits_for_writer as (_ & H & _).
  apply H; [|reflexivity|reflexivity|reflexivity].
  exists "POST", None, example_request_info, None, false, false, false.
  eexists. split. 2: reflexivity. reflexivity.
Defined.

(** C1 as it is stated fails when the response is finalized: [__del__] of
    a response that was not closed calls [connection.release()] at once,
    without a look at the writer task. Here the response of scenario D is
    finalized while its writer task is still in flight, and the pool gets
    the connection back with the writer unfinished. *)
Lemma finalizer_release_counterexample :
  let w := step EvDel scenario_D in
  done (task scenario_D) = false
  /\ _closed (resp scenario_D) = false
  /\ pool scenario_D = []
  /\ w = __del__ scenario_D
  /\ done (task w) = false
  /\ pool w = [PoolRelease (mkConnection 7 (Some false)) false]
  /\ ~ released_after_writer w.
Proof.
  simpl. repeat split.
  intros H. specialize (H (mkConnection 7 (Some false)) false (or_introl eq_refl)).
  discriminate H.
Qed.

(** Scenario D, run on the code: after [release()] the pool has seen
    nothing; it sees the release once the writer task has finished and the
    loop has run its observers. A release after the writer has finished
    reaches the pool at once. *)
Example scenario_D_runs :
  pool (release scenario_D) = []
  /\ pool (run [EvRelease; EvTaskFinish] scenario_D) = []
  /\ pool (run [EvRelease; EvTaskFinish; EvLoopTurn] scenario_D)
     = [PoolRelease (mkConnection 7 (Some false)) true]
  /\ pool (run [EvTaskFinish; EvLoopTurn; EvRelease] scenario_D)
     = [PoolRelease (mkConnection 7 (Some false)) true]
  /\ pool (run [EvResponseEof; EvRelease; EvTaskFinish; EvLoopTurn; EvLoopTurn] scenario_D)
     = [PoolRelease (mkConnection 7 (Some false)) true].
Proof. repeat split. Qed.

End ReleaseOrder.

(** ** C7: reading the body twice, and reading after a release *)

Module ReadFacts.
Import ClientResponse.

(** The part of a response that [read] looks at before it touches the
    stream: the cache, the released flag, and the stream itself. *)
Definition same_cache (w w' : World) : Prop :=
  content (resp w') = content (resp w)
  /\ _body (resp w') = _body (resp w)
  /\ _released (resp w') = _released (resp w).

Lemma same_cache_refl w : same_cache w w.
Proof. repeat split. Qed.

Lemma same_cache_trans w1 w2 w3 :
  same_cache w1 w2 -> same_cache w2 w3 -> same_cache w1 w3.
Proof. unfold same_cache. intros (A & B & C) (D & E & F). repeat split; congruence. Qed.

Lemma same_cache_release_connection w : same_cache w (_release_connection w).
Proof.
  unfold same_cache, _release_connection, add_done_callback, connection_release.
  repeat break_match; simpl; auto.
Qed.

Lemma same_cache_run_callback cb w : same_cache w (run_callback cb w).
Proof.
  destruct cb; simpl; [repeat split|apply same_cache_release_connection].
Qed.

Lemma same_cache_run_callbacks cbs :
  forall w, same_cache w (fold_left (fun w cb => run_callback cb w) cbs w).
Proof.
  induction cbs as [|cb rest IH]; simpl; intro w; [apply same_cache_refl|].
  eapply same_cache_trans; [apply same_cache_run_callback|apply IH].
Qed.

Lemma same_cache_run_ready w : same_cache w (run_ready w).
Proof.
  unfold run_ready.
  eapply same_cache_trans; [|apply same_cache_run_callbacks]. repeat split.
Qed.

Lemma same_cache_task_finish w : same_cache w (task_finish w).
Proof. unfold task_finish. destruct (done (task w)); repeat split. Qed.

Lemma same_cache_await_writer o w : same_cache w (snd (await_writer o w)).
Proof.
  unfold await_writer.
  assert (H : same_cache w (if done (task w) then w else run_ready (task_finish w))).
  { destruct (done (task w)); [apply same_cache_refl|].
    eapply same_cache_trans; [apply same_cache_task_finish|apply same_cache_run_ready]. }
  destruct o; exact H.
Qed.

Lemma same_cache_wait_released o w : same_cache w (snd (_wait_released o w)).
Proof.
  unfold _wait_released.
  destruct (_writer (resp w)); [|apply same_cache_release_connection].
  pose proof (same_cache_await_writer o w) as H.
  destruct (await_writer o w) as [[u|e] w']; simpl in *; [|exact H].
  eapply same_cache_trans; [exact H|apply same_cache_release_connection].
Qed.

(** [read] from the point where the cache is filled. *)
Definition read_tail (env : ReadEnv) (w : World) : result exn (option bytes) * World :=
  match
    match match _connection (resp w) with
          | Some c => conn_protocol c
          | None => None
          end with
    | Some true => (Ok tt, w)
    | _ => _wait_released (writer_outcome env) w
    end
  with
  | (Raise e, w) => (Raise e, w)
  | (Ok _, w) => (Ok (_body (resp w)), w)
  end.

Lemma read_cached env w b :
  _body (resp w) = Some b -> _released (resp w) = false ->
  read env w = read_tail env w.
Proof. intros Hb Hr. unfold read, read_tail. rewrite Hb, Hr. reflexivity. Qed.

(** The state in which a first [read] reaches its tail. *)
Definition filled (env : ReadEnv) (w : World) (s' : StreamReader) (eof_now : bool)
    (data : bytes) : World :=
  let w1 := with_resp w (with_content (resp w) (Some s')) in
  let w2 := if eof_now then _response_eof w1 else w1 in
  with_resp w2 (with_body (resp w2) (Some data)).

Lemma read_uncached env w s :
  _body (resp w) = None -> content (resp w) = Some s ->
  match stream_read (incoming env) s with
  | (Raise e, _, _) => fst (read env w) = Raise e
  | (Ok data, s', eof_now) =>
      match trace_outcome env with
      | Some e => fst (read env w) = Raise e
      | None => read env w = read_tail env (filled env w s' eof_now data)
      end
  end.
Proof.
  intros Hb Hc. unfold read, read_tail, filled. rewrite Hb, Hc.
  destruct (stream_read (incoming env) s) as [[[data|e] s'] eof_now]; [|reflexivity].
  destruct (trace_outcome env); reflexivity.
Qed.

Lemma response_eof_flags w :
  _body (resp (_response_eof w)) = _body (resp w)
  /\ _released (resp (_response_eof w)) = _released (resp w)
  /\ content (resp (_response_eof w)) = content (resp w).
Proof.
  unfold _response_eof, _cleanup_writer, _release_connection, task_cancel,
    add_done_callback, connection_release.
  repeat break_match; simpl; auto.
Qed.

Lemma filled_flags env w s' eof_now data :
  _body (resp (filled env w s' eof_now data)) = Some data
  /\ _released (resp (filled env w s' eof_now data)) = _released (resp w).
Proof.
  unfold filled. simpl. split; [reflexivity|].
  destruct eof_now; [|reflexivity].
  now rewrite (proj1 (proj2 (response_eof_flags _))).
Qed.

(** The tail of [read] on a filled cache: the stream is not touched, what
    is returned is the cache, and it is returned unless waiting for the
    writer raises. *)
Lemma read_tail_cached env w b :
  _body (resp w) = Some b ->
  same_cache w (snd (read_tail env w))
  /\ (forall r, fst (read_tail env w) = Ok r -> r = Some b)
  /\ (writer_outcome env = None -> fst (read_tail env w) = Ok (Some b)).
Proof.
  intros Hb. unfold read_tail.
  pose proof (same_cache_wait_released (writer_outcome env) w) as Hsc.
  assert (Hw : forall o, o = writer_outcome env ->
            same_cache w (snd (match _wait_released o w with
                               | (Raise e, w) => (Raise e, w)
                               | (Ok _, w) => (Ok (_body (resp w)), w)
                               end))
            /\ (forall r, fst (match _wait_released o w with
                               | (Raise e, w) => (Raise e, w)
                               | (Ok _, w) => (Ok (_body (resp w)), w)
                               end) = Ok r -> r = Some b)
            /\ (o = None -> fst (match _wait_released o w with
                                 | (Raise e, w) => (Raise e, w)
                                 | (Ok _, w) => (Ok (_body (resp w)), w)
                                 end) = Ok (Some b))).
  { intros o ->.
    destruct (_wait_released (writer_outcome env) w) as [[u|e] w'] eqn:E; simpl in *.
    - pose proof Hsc as (_ & Hb' & _). rewrite Hb', Hb.
      split; [exact Hsc|]. split; [|reflexivity].
      intros r Hr. injection Hr as <-. reflexivity.
    - split; [exact Hsc|]. split; [discriminate|].
      intros Ho. unfold _wait_released, await_writer in E. rewrite Ho in E.
      destruct (_writer (resp w)); discriminate. }
  destruct (_connection (resp w)) as [c|]; [|now apply Hw].
  destruct (conn_protocol c) as [[|]|]; try now apply Hw.
  simpl. rewrite Hb. split; [apply same_cache_refl|]. split; [|reflexivity].
  intros r Hr. injection Hr as <-. reflexivity.
Qed.

Lemma release_connection_writer w :
  _writer (resp (_release_connection w)) = _writer (resp w).
Proof.
  unfold _release_connection, add_done_callback, connection_release.
  repeat break_match; simpl; congruence.
Qed.

Lemma read_tail_no_writer env w b :
  _writer (resp w) = None -> _body (resp w) = Some b ->
  fst (read_tail env w) = Ok (Some b).
Proof.
  intros Hw Hb. unfold read_tail.
  assert (H : _wait_released (writer_outcome env) w = (Ok tt, _release_connection w))
    by (unfold _wait_released; now rewrite Hw).
  pose proof (same_cache_release_connection w) as (_ & Hb' & _).
  destruct (_connection (resp w)) as [c|];
    [destruct (conn_protocol c) as [[|]|]|]; rewrite ?H; simpl; congruence.
Qed.

(** A second pass through the tail of [read] returns what the first one
    returned; the writer task ends the same way both times. *)
Lemma wait_released_after_error e w u w' :
  _wait_released (Some e) w = (Ok u, w') -> _writer (resp w') = None.
Proof.
  intros E. unfold _wait_released in E.
  destruct (_writer (resp w)) eqn:Ew; [simpl in E; discriminate|].
  injection E as _ <-. now rewrite release_connection_writer.
Qed.

Lemma read_tail_again env1 env2 w b r :
  _body (resp w) = Some b ->
  fst (read_tail env1 w) = Ok r ->
  writer_outcome env2 = writer_outcome env1 ->
  fst (read_tail env2 (snd (read_tail env1 w))) = Ok (Some b).
Proof.
  intros Hb H1 Ho.
  destruct (read_tail_cached env1 w b Hb) as ((_ & Hb1 & _) & _ & _).
  rewrite Hb in Hb1.
  destruct (writer_outcome env1) as [e|] eqn:Eo;
    [|now apply read_tail_cached].
  (* the writer ended with an error: the first pass did not wait for it *)
  unfold read_tail in H1, Hb1 |- *. rewrite ?Eo in *.
  destruct (_connection (resp w)) as [c|] eqn:Ec.
  - destruct (conn_protocol c) as [[|]|] eqn:Ep.
    + simpl. rewrite Ec, Ep. simpl. now rewrite Hb.
    + destruct (_wait_released (Some e) w) as [[u|x] w'] eqn:E;
        [|simpl in H1; discriminate].
      simpl in *. apply read_tail_no_writer; [|exact Hb1].
      eapply wait_released_after_error; eauto.
    + destruct (_wait_released (Some e) w) as [[u|x] w'] eqn:E;
        [|simpl in H1; discriminate].
      simpl in *. apply read_tail_no_writer; [|exact Hb1].
      eapply wait_released_after_error; eauto.
  - destruct (_wait_released (Some e) w) as [[u|x] w'] eqn:E;
      [|simpl in H1; discriminate].
    simpl in *. apply read_tail_no_writer; [|exact Hb1].
    eapply wait_released_after_error; eauto.
Qed.

(** What [release] leaves of the stream and the cache. *)
Lemma release_notifies w s :
  content (resp w) = Some s -> _released (resp w) = false ->
  content (resp (release w))
  = Some (match stream_exception s with
          | None => stream_set_exception s (ClientConnectionError "Connection closed")
          | Some _ => s
          end)
  /\ _body (resp (release w)) = _body (resp w)
  /\ _released (resp (release w)) = true.
Proof.
  intros Hc Hr.
  unfold release, _notify_content, _cleanup_writer, _release_connection,
    task_cancel, add_done_callback, connection_release.
  rewrite Hr, Hc. simpl.
  destruct (stream_exception s); simpl; repeat break_match; simpl; auto.
Qed.

(** C7, as amended. A response with its body in the cache that was not
    released: [read] does not touch the content stream, returns nothing but
    the cached bytes, and returns them unless waiting for the writer task
    raises; so a [read] that follows a [read] that returned gives the same
    bytes. A started response released before any body was cached, whose
    payload is a stream reader proper: [read] fails, with the
    connection-closed error when the content stream had not failed before
    the release, and with that earlier failure otherwise. When the payload
    is the empty stream reader of a response without a body, the release
    leaves no failure on it and [read] returns the empty bytes, unless a
    trace hook or waiting for the writer task raises. *)
Theorem read_twice_or_after_release :
  (forall env w b,
      _body (resp w) = Some b -> _released (resp w) = false ->
      content (resp (snd (read env w))) = content (resp w)
      /\ (forall r, fst (read env w) = Ok r -> r = Some b)
      /\ (writer_outcome env = None -> fst (read env w) = Ok (Some b)))
  /\ (forall env1 env2 w r,
        _released (resp w) = false ->
        fst (read env1 w) = Ok r ->
        writer_outcome env2 = writer_outcome env1 ->
        exists b,
          r = Some b
          /\ fst (read env2 (snd (read env1 w))) = Ok (Some b)
          /\ content (resp (snd (read env2 (snd (read env1 w)))))
             = content (resp (snd (read env1 w))))
  /\ (forall env w s,
        content (resp w) = Some s -> _body (resp w) = None ->
        _released (resp w) = false ->
        (sr_empty s = false ->
         (sr_exception s = None ->
          fst (read env (release w)) = Raise (ClientConnectionError "Connection closed"))
         /\ (forall e, sr_exception s = Some e -> fst (read env (release w)) = Raise e))
        /\ (sr_empty s = true ->
            trace_outcome env = None -> writer_outcome env = None ->
            fst (read env (release w)) = Ok (Some []))).
Proof.
  assert (Hcached : forall env w b,
      _body (resp w) = Some b -> _released (resp w) = false ->
      same_cache w (snd (read env w))
      /\ (forall r, fst (read env w) = Ok r -> r = Some b)
      /\ (writer_outcome env = None -> fst (read env w) = Ok (Some b))).
  { intros env w b Hb Hr. rewrite (read_cached env w b Hb Hr).
    now apply read_tail_cached. }
  assert (Hagain : forall env1 env2 w b r,
      _body (resp w) = Some b -> _released (resp w) = false ->
      fst (read_tail env1 w) = Ok r ->
      writer_outcome env2 = writer_outcome env1 ->
      r = Some b
      /\ fst (read env2 (snd (read_tail env1 w))) = Ok (Some b)
      /\ content (resp (snd (read env2 (snd (read_tail env1 w)))))
         = content (resp (snd (read_tail env1 w)))).
  { intros env1 env2 w b r Hb Hr H1 Ho.
    destruct (read_tail_cached env1 w b Hb) as ((_ & Hb1 & Hr1) & Hret & _).
    rewrite Hb in Hb1. rewrite Hr in Hr1.
    split; [now apply Hret|].
    destruct (Hcached env2 _ b Hb1 Hr1) as ((Hc2 & _) & _).
    split; [|exact Hc2].
    rewrite (read_cached env2 _ b Hb1 Hr1).
    now apply read_tail_again with r. }
  split; [|split].
  - intros env w b Hb Hr.
    destruct (Hcached env w b Hb Hr) as ((Hc & _) & H2 & H3). auto.
  - intros env1 env2 w r Hr H1 Ho.
    destruct (_body (resp w)) as [b|] eqn:Hb.
    + exists b. rewrite (read_cached env1 w b Hb Hr) in *.
      now apply Hagain.
    + destruct (content (resp w)) as [s|] eqn:Hc.
      * pose proof (read_uncached env1 w s Hb Hc) as Hu.
        destruct (stream_read (incoming env1) s) as [[[data|e] s'] eof_now];
          [|rewrite Hu in H1; discriminate].
        destruct (trace_outcome env1); [rewrite Hu in H1; discriminate|].
        rewrite Hu in *.
        destruct (filled_flags env1 w s' eof_now data) as [Hfb Hfr].
        rewrite Hr in Hfr.
        exists data. now apply Hagain.
      * unfold read in H1. rewrite Hb, Hc in H1. discriminate.
  - intros env w s Hc Hb Hr.
    destruct (release_notifies w s Hc Hr) as (Hc' & Hb' & _).
    rewrite Hb in Hb'.
    pose proof (read_uncached env (release w) _ Hb' Hc') as Hu.
    unfold stream_exception, stream_set_exception in Hu.
    split.
    + intros Hk. rewrite Hk in Hu. split.
      * intros He. rewrite He in Hu. exact Hu.
      * intros e He. rewrite He in Hu. unfold stream_read in Hu.
        rewrite Hk, He in Hu. exact Hu.
    + intros Hk Ht Hw. rewrite Hk in Hu. unfold stream_read in Hu.
      rewrite Hk, Ht in Hu. rewrite Hu.
      match goal with
      | |- fst (read_tail env ?f) = _ =>
          apply (read_tail_cached env f []); [|exact Hw]
      end.
      apply filled_flags.
Qed.

Definition quiet_env : ReadEnv := mkReadEnv (Ok [Byte.x68; Byte.x69]) None None.

(** A started response on a connection the pool handed out, with the given
    content stream and nothing cached. *)
Definition open_world (s : StreamReader) : World :=
  mkWorld
    (mk "GET" (Some HttpVersion11) (Some 200%Z) (Some "OK") (Some s)
        (Some [("Content-Length", "2")]) (Some (mkConnection 3 (Some false)))
        false false None None None [] example_request_info None ResolveUtf8)
    (mkTask true false []) [] [] false false 0.

Lemma read_twice_or_after_release_witness :
  fst (read quiet_env (release (open_world (mkStream None false [] 0 false))))
  = Raise (ClientConnectionError "Connection closed").
Proof.
  destruct read_twice_or_after_release as (_ & _ & H).
  destruct (H quiet_env (open_world (mkStream None false [] 0 false))
              (mkStream None false [] 0 false) eq_refl eq_refl eq_refl) as [Hc _].
  destruct (Hc eq_refl) as [Hnone _].
  apply Hnone. reflexivity.
Defined.

(** The payload of a response without a body. *)
Definition EMPTY_PAYLOAD : StreamReader := mkStream None true [] 0 true.

(** A response without a body, as [start] leaves it: the writer task had
    finished, and the end of the payload, which is there from the start,
    has closed the response and released the connection. *)
Definition bodyless_world : World :=
  run [EvStart [Ok (mkMessage HttpVersion11 204 "No Content" [("Server", "x")],
                    EMPTY_PAYLOAD)]
         (mkConnection 3 (Some false))]
      (ReleaseOrder.fresh "GET" None example_request_info None true false false).

(** C7 as it is stated fails in two ways. On a response whose content
    stream had already failed when it was released (here: the connection
    dropped with the payload incomplete), [release] keeps the earlier
    failure, and [read] raises it, not the connection-closed error. And on
    a response without a body, whose payload is the empty stream reader,
    [release] leaves no failure behind and [read] returns the empty
    bytes. *)
Lemma read_after_release_counterexample :
  let w := open_world (mkStream (Some (OtherException "ClientPayloadError")) false [] 0
                         false) in
  let w0 := bodyless_world in
  (_body (resp w) = None
   /\ _released (resp w) = false
   /\ _released (resp (release w)) = true
   /\ _body (resp (release w)) = None
   /\ fst (read quiet_env (release w)) = Raise (OtherException "ClientPayloadError")
   /\ fst (read quiet_env (release w))
      <> Raise (ClientConnectionError "Connection closed"))
  /\ (content (resp w0) = Some EMPTY_PAYLOAD
      /\ _body (resp w0) = None
      /\ _released (resp w0) = false
      /\ _released (resp (release w0)) = true
      /\ _body (resp (release w0)) = None
      /\ fst (read quiet_env (release w0)) = Ok (Some [])).
Proof. simpl. repeat split. discriminate. Qed.

(** Reading twice, run on the code: the second [read] returns the same
    bytes and the stream has been read once. *)
Example read_twice_runs :
  let w1 := snd (read quiet_env (open_world (mkStream None false [] 0 false))) in
  fst (read quiet_env (open_world (mkStream None false [] 0 false)))
  = Ok (Some [Byte.x68; Byte.x69])
  /\ fst (read quiet_env w1) = Ok (Some [Byte.x68; Byte.x69])
  /\ option_map sr_reads (content (resp (snd (read quiet_env w1)))) = Some 1%nat
  /\ pool (snd (read quiet_env w1)) = [PoolRelease (mkConnection 3 (Some false)) true].
Proof. repeat split. Qed.

End ReadFacts.

(** ** Facts about the header multimap *)

Module CIMultiDictFacts.
Import CIMultiDict.

Lemma key_eqb_refl k : key_eqb k k = true.
Proof. apply String.eqb_refl. Qed.

Lemma key_eqb_sym a b : key_eqb a b = key_eqb b a.
Proof. apply String.eqb_sym. Qed.

Lemma key_eqb_true a b : key_eqb a b = true <-> lower a = lower b.
Proof. apply String.eqb_eq. Qed.

(** Two names for one header tell the same about any third name. *)
Lemma key_eqb_congr a b c : key_eqb a b = true -> key_eqb a c = key_eqb b c.
Proof. unfold key_eqb. intro H. apply String.eqb_eq in H. now rewrite H. Qed.

Lemma get_getall d k : get d k = hd_error (getall d k).
Proof.
  unfold getall. induction d as [|[k0 v0] rest IH]; simpl; [reflexivity|].
  destruct (key_eqb k0 k); simpl; auto.
Qed.

Lemma contains_getall d k :
  contains d k = match getall d k with [] => false | _ => true end.
Proof.
  unfold contains, getall. induction d as [|[k0 v0] rest IH]; simpl; [reflexivity|].
  destruct (key_eqb k0 k); simpl; auto.
Qed.

Lemma getall_app a b k : getall (a ++ b) k = getall a k ++ getall b k.
Proof. unfold getall. now rewrite filter_app, map_app. Qed.

Lemma getall_add d k' v k :
  getall (add d k' v) k = getall d k ++ (if key_eqb k' k then [v] else []).
Proof.
  unfold add. rewrite getall_app. unfold getall at 2. simpl.
  destruct (key_eqb k' k); reflexivity.
Qed.

(** Turn the key tests at hand into (in)equalities of lower-cased names. *)
Ltac keys :=
  unfold key_eqb in *;
  repeat match goal with
         | H : String.eqb _ _ = true |- _ => apply String.eqb_eq in H
         | H : String.eqb _ _ = false |- _ => apply String.eqb_neq in H
         end;
  try congruence.

Lemma getall_remove_all d k' k :
  getall (remove_all d k') k = if key_eqb k' k then [] else getall d k.
Proof.
  unfold getall, remove_all.
  induction d as [|[k0 v0] rest IH]; simpl.
  - now destruct (key_eqb k' k).
  - destruct (key_eqb k0 k') eqn:E0; simpl; rewrite ?IH;
      destruct (key_eqb k0 k) eqn:E1; destruct (key_eqb k' k) eqn:E2;
      simpl; rewrite ?IH, ?E1, ?E2; try reflexivity; exfalso; keys.
Qed.

Lemma getall_cons k0 v0 rest k :
  getall ((k0, v0) :: rest) k = (if key_eqb k0 k then [v0] else []) ++ getall rest k.
Proof. unfold getall. simpl. destruct (key_eqb k0 k); reflexivity. Qed.

Lemma getall_setitem d k' v k :
  getall (setitem d k' v) k = if key_eqb k' k then [v] else getall d k.
Proof.
  induction d as [|[k0 v0] rest IH]; simpl.
  - unfold getall. simpl. now destruct (key_eqb k' k).
  - destruct (key_eqb k0 k') eqn:E0.
    + rewrite !getall_cons, getall_remove_all.
      destruct (key_eqb k0 k) eqn:E1; destruct (key_eqb k' k) eqn:E2;
        simpl; try reflexivity; exfalso; keys.
    + rewrite !getall_cons, IH.
      destruct (key_eqb k0 k) eqn:E1; destruct (key_eqb k' k) eqn:E2;
        simpl; try reflexivity; exfalso; keys.
Qed.

End CIMultiDictFacts.

(** ** C3 and C4: header negotiation *)

Module NegotiationFacts.
Import CIMultiDict CIMultiDictFacts.

(** The header names that the steps around the negotiation write: a name
    outside them keeps, up to the negotiation proper, exactly the entries
    the caller gave. *)
Definition auto_key (k : string) : bool :=
  key_eqb hdrs.HOST k || key_eqb hdrs.ACCEPT k || key_eqb hdrs.ACCEPT_ENCODING k
  || key_eqb hdrs.USER_AGENT k || key_eqb hdrs.COOKIE k
  || key_eqb hdrs.AUTHORIZATION k || key_eqb hdrs.EXPECT k.

Lemma auto_key_false k :
  auto_key k = false ->
  key_eqb hdrs.HOST k = false /\ key_eqb hdrs.ACCEPT k = false
  /\ key_eqb hdrs.ACCEPT_ENCODING k = false /\ key_eqb hdrs.USER_AGENT k = false
  /\ key_eqb hdrs.COOKIE k = false /\ key_eqb hdrs.AUTHORIZATION k = false
  /\ key_eqb hdrs.EXPECT k = false.
Proof.
  unfold auto_key. intro H.
  repeat (apply orb_false_iff in H; destruct H as [H ?]). repeat split; assumption.
Qed.

(** The caller's headers as a list: [None] and an empty collection are the
    same to the constructor. *)
Definition hdrs_of (hs : option (list (string * string))) : list (string * string) :=
  match hs with Some l => l | None => [] end.

Lemma get_default_getall d k dflt :
  get_default d k dflt = match getall d k with v :: _ => v | [] => dflt end.
Proof. unfold get_default. rewrite get_getall. destruct (getall d k); reflexivity. Qed.

Section Steps.
Variable is_ipv6_address : string -> bool.
Variable SERVER_SOFTWARE : string.
Variable HAS_BROTLI : bool.
Variable cookie_output : option string -> list (string * string) -> string.
Variable BasicAuth_encode : BasicAuth -> string.
Variable netrc_auth : string -> option BasicAuth.
Variable parse_mimetype : string -> MimeType.
Variable with_fragment_none : URL -> URL.
Variable repr : string -> string.

Lemma fold_caller_headers k (l : list (string * string)) :
  key_eqb hdrs.HOST k = false ->
  forall acc,
    getall (fold_left ClientRequest.add_caller_header l acc) k
    = getall acc k ++ getall l k.
Proof.
  intros Hk. induction l as [|[key value] rest IH]; intro acc; simpl.
  - now rewrite app_nil_r.
  - rewrite IH, getall_cons, app_assoc. f_equal.
    destruct (String.eqb (lower key) "host") eqn:E.
    + rewrite getall_setitem.
      assert (Hkey : key_eqb key k = false).
      { apply String.eqb_eq in E. unfold key_eqb in *. rewrite E. exact Hk. }
      rewrite Hkey. now rewrite app_nil_r.
    + apply getall_add.
Qed.

Lemma getall_update_headers s hs k :
  key_eqb hdrs.HOST k = false ->
  getall (ClientRequest.headers (ClientRequest.update_headers is_ipv6_address s hs)) k
  = getall (hdrs_of hs) k.
Proof.
  intros Hk. unfold ClientRequest.update_headers.
  destruct hs as [l|]; simpl.
  - rewrite fold_caller_headers by assumption.
    rewrite getall_cons, Hk. reflexivity.
  - rewrite getall_cons, Hk. reflexivity.
Qed.

Lemma getall_update_auto_headers s skip k :
  key_eqb hdrs.ACCEPT k = false -> key_eqb hdrs.ACCEPT_ENCODING k = false ->
  key_eqb hdrs.USER_AGENT k = false ->
  getall (ClientRequest.headers
            (ClientRequest.update_auto_headers SERVER_SOFTWARE HAS_BROTLI s skip)) k
  = getall (ClientRequest.headers s) k.
Proof.
  intros H1 H2 H3. unfold ClientRequest.update_auto_headers,
    ClientRequest.DEFAULT_HEADERS. simpl.
  repeat match goal with
         | |- context [if ?c then _ else _] => destruct c
         end;
    rewrite ?getall_setitem, ?getall_add, ?H1, ?H2, ?H3, ?app_nil_r; reflexivity.
Qed.

Lemma getall_update_cookies s cookies k :
  key_eqb hdrs.COOKIE k = false ->
  getall (ClientRequest.headers (ClientRequest.update_cookies cookie_output s cookies)) k
  = getall (ClientRequest.headers s) k.
Proof.
  intros H1. unfold ClientRequest.update_cookies.
  destruct cookies as [[|c cs]|]; simpl; try reflexivity.
  destruct (contains (ClientRequest.headers s) hdrs.COOKIE);
    rewrite ?getall_setitem, ?getall_remove_all, ?H1; reflexivity.
Qed.

Lemma getall_update_auth s a trust_env k :
  key_eqb hdrs.AUTHORIZATION k = false ->
  getall (ClientRequest.headers
            (ClientRequest.update_auth BasicAuth_encode netrc_auth s a trust_env)) k
  = getall (ClientRequest.headers s) k.
Proof.
  intros H1. unfold ClientRequest.update_auth.
  repeat break_match; simpl; rewrite ?getall_setitem, ?H1; reflexivity.
Qed.

Lemma getall_update_expect_continue s e k :
  key_eqb hdrs.EXPECT k = false ->
  getall (ClientRequest.headers (ClientRequest.update_expect_continue s e)) k
  = getall (ClientRequest.headers s) k.
Proof.
  intros H1. unfold ClientRequest.update_expect_continue.
  repeat break_match; simpl; rewrite ?getall_setitem, ?H1; reflexivity.
Qed.

(** *** What the negotiation looks at, and a step-by-step account of it *)

(** The entries under Content-Length and Transfer-Encoding, the chunked
    flag and the body: all that the negotiation reads and writes. *)
Record Obs := mkObs {
  o_cl : list string;
  o_te : list string;
  o_chunked : option bool;
  o_body : Body
}.

Definition obs (s : ClientRequest.t) : Obs :=
  mkObs (getall (ClientRequest.headers s) hdrs.CONTENT_LENGTH)
        (getall (ClientRequest.headers s) hdrs.TRANSFER_ENCODING)
        (ClientRequest.chunked s) (ClientRequest.body s).

Definition map_result {E A B : Type} (f : A -> B) (r : result E A) : result E B :=
  match r with Ok a => Ok (f a) | Raise e => Raise e end.

Definition is_nil {A : Type} (l : list A) : bool :=
  match l with [] => true | _ => false end.

(** The first Transfer-Encoding value mentions [chunked]. *)
Definition te_says_chunked (te : list string) : bool :=
  str_in "chunked" (lower (match te with v :: _ => v | [] => "" end)).

Definition msg_compress : string :=
  "compress can not be set if Content-Encoding header is set".
Definition msg_chunked_te : string :=
  ("chunked can not be set if " ++ dquote ++ "Transfer-Encoding: chunked"
   ++ dquote ++ " header is set")%string.
Definition msg_chunked_cl : string :=
  "chunked can not be set if Content-Length header is set".

(** [update_transfer_encoding], told on the observations. *)
Definition ute_spec (o : Obs) : result exn Obs :=
  if te_says_chunked (o_te o) then
    if chunked_truthy (o_chunked o) then Raise (ValueError msg_chunked_te) else Ok o
  else if chunked_truthy (o_chunked o) then
    if is_nil (o_cl o) then Ok (mkObs (o_cl o) ["chunked"] (o_chunked o) (o_body o))
    else Raise (ValueError msg_chunked_cl)
  else if is_nil (o_cl o) then
    n <- ClientRequest.body_len (o_body o) ;;
    Ok (mkObs [str_of_nat n] (o_te o) (o_chunked o) (o_body o))
  else Ok o.

(** [update_body_from_data] for a payload [p] that contributes neither
    Content-Length nor Transfer-Encoding, told on the observations. *)
Definition ubd_spec (o : Obs) (p : Payload) : result exn Obs :=
  let o' :=
    if negb (chunked_truthy (o_chunked o)) && is_nil (o_cl o) then
      match size p with
      | None => mkObs (o_cl o) (o_te o) (Some true) (BodyPayload p)
      | Some n => mkObs [str_of_nat n] (o_te o) (o_chunked o) (BodyPayload p)
      end
    else mkObs (o_cl o) (o_te o) (o_chunked o) (BodyPayload p) in
  if is_nil (payload_headers p) then Raise AssertionError else Ok o'.

Lemma key_CL_TE : key_eqb hdrs.CONTENT_LENGTH hdrs.TRANSFER_ENCODING = false.
Proof. reflexivity. Qed.
Lemma key_TE_CL : key_eqb hdrs.TRANSFER_ENCODING hdrs.CONTENT_LENGTH = false.
Proof. reflexivity. Qed.
Lemma key_CE_CL : key_eqb hdrs.CONTENT_ENCODING hdrs.CONTENT_LENGTH = false.
Proof. reflexivity. Qed.
Lemma key_CE_TE : key_eqb hdrs.CONTENT_ENCODING hdrs.TRANSFER_ENCODING = false.
Proof. reflexivity. Qed.
Lemma key_CE_CT : key_eqb hdrs.CONTENT_ENCODING hdrs.CONTENT_TYPE = false.
Proof. reflexivity. Qed.

Lemma update_transfer_encoding_obs s :
  map_result obs (ClientRequest.update_transfer_encoding s) = ute_spec (obs s).
Proof.
  unfold ClientRequest.update_transfer_encoding, ute_spec, te_says_chunked, obs.
  cbn [o_te o_cl o_chunked o_body].
  rewrite get_default_getall, contains_getall.
  destruct (str_in "chunked" _).
  { destruct (chunked_truthy (ClientRequest.chunked s)); reflexivity. }
  destruct (chunked_truthy (ClientRequest.chunked s)).
  { destruct (getall (ClientRequest.headers s) hdrs.CONTENT_LENGTH) eqn:E; simpl;
      [|reflexivity].
    unfold obs. simpl. rewrite !getall_setitem, key_TE_CL, E. reflexivity. }
  destruct (getall (ClientRequest.headers s) hdrs.CONTENT_LENGTH) eqn:E; simpl;
    [|unfold obs; now rewrite E].
  destruct (ClientRequest.body_len (ClientRequest.body s)); simpl; [|reflexivity].
  unfold obs. simpl. rewrite !getall_setitem, key_CL_TE. reflexivity.
Qed.

Lemma fold_copy_payload_headers skip k (ph : list (string * string)) :
  contains ph k = false ->
  forall h,
    getall (fold_left (ClientRequest.copy_payload_header skip) ph h) k = getall h k.
Proof.
  induction ph as [|[key value] rest IH]; intros Hc h; simpl; [reflexivity|].
  simpl in Hc. apply orb_false_iff in Hc. destruct Hc as [Hk Hrest].
  rewrite IH by assumption.
  destruct (contains h key); [reflexivity|].
  destruct (contains skip key); [reflexivity|].
  rewrite getall_setitem, Hk. reflexivity.
Qed.

(** The payload [update_body_from_data] stores for the data [d]. *)
Definition payload_of (h : CIMultiDict.t) (d : Data) : Payload :=
  match d with
  | DataPayload p => p
  | DataFormFields form =>
      form (if contains h hdrs.CONTENT_TYPE then
              params_get
                (mt_parameters (parse_mimetype (get_default h hdrs.CONTENT_TYPE "")))
                "boundary"
            else None)
  end.

Lemma update_body_from_data_obs s d :
  let p := payload_of (ClientRequest.headers s) d in
  contains (payload_headers p) hdrs.CONTENT_LENGTH = false ->
  contains (payload_headers p) hdrs.TRANSFER_ENCODING = false ->
  map_result obs (ClientRequest.update_body_from_data parse_mimetype s (Some d))
  = ubd_spec (obs s) p.
Proof.
  intros p Hcl Hte.
  unfold ClientRequest.update_body_from_data, ubd_spec.
  fold (payload_of (ClientRequest.headers s) d). fold p.
  unfold obs at 2 3 4 5 6 7 8 9 10. cbn [o_te o_cl o_chunked o_body].
  replace (CIMultiDict.truthy (payload_headers p))
    with (negb (is_nil (payload_headers p)))
    by (destruct (payload_headers p); reflexivity).
  rewrite negb_involutive.
  destruct (is_nil (payload_headers p)); [reflexivity|].
  simpl ClientRequest.chunked. simpl ClientRequest.headers.
  rewrite contains_getall.
  destruct (chunked_truthy (ClientRequest.chunked s)); simpl.
  { unfold obs. simpl. now rewrite !fold_copy_payload_headers. }
  destruct (getall (ClientRequest.headers s) hdrs.CONTENT_LENGTH) eqn:E; simpl.
  - destruct (size p); simpl.
    + unfold obs. simpl.
      rewrite !fold_copy_payload_headers by assumption.
      now rewrite !getall_setitem, key_CL_TE.
    + unfold obs. simpl.
      rewrite !fold_copy_payload_headers by assumption. now rewrite E.
  - unfold obs. simpl.
    rewrite !fold_copy_payload_headers by assumption. now rewrite E.
Qed.

(** *** The constructor as a whole *)

(** The arguments the negotiation does not depend on. *)
Variable url_ : URL.
Variable skip_ : list string.
Variable cookies_ : option (list (string * string)).
Variable auth_ : option BasicAuth.
Variable version_ : HttpVersion.
Variable expect100_ : bool.
Variable proxy_ : option URL.
Variable proxy_auth_ : option BasicAuth.
Variable proxy_headers_ : option (list (string * string)).
Variable ssl_ : SslPolicy.
Variable trust_env_ : bool.

Definition construct (method_ : string) (hs : option (list (string * string)))
    (data : option Data) (compress_ : option Compress) (chunked_ : option bool)
  : result exn ClientRequest.t :=
  ClientRequest.init is_ipv6_address SERVER_SOFTWARE HAS_BROTLI cookie_output
    BasicAuth_encode netrc_auth parse_mimetype with_fragment_none repr
    method_ url_ hs skip_ data cookies_ auth_ version_ compress_ chunked_ expect100_
    proxy_ proxy_auth_ proxy_headers_ ssl_ trust_env_.

(** The method and the URL pass the checks that come before any header
    is looked at. *)
Definition well_formed (method_ : string) : Prop :=
  search_non_token method_ = None
  /\ exists h, raw_host url_ = Some h /\ str_truthy h = true.

(** The request as it stands when the negotiation starts. *)
Definition draft (method_ : string) (hs : option (list (string * string)))
    (compress_ : option Compress) (chunked_ : option bool) : ClientRequest.t :=
  let s0 :=
    ClientRequest.mk (upper method_) url_ (with_fragment_none url_) version_ [] []
      (BodyBytes []) None chunked_ compress_ None None None ssl_ None in
  let s1 :=
    match user url_ with
    | Some username =>
        if str_truthy username then
          ClientRequest.with_auth s0
            (Some (mkBasicAuth username
                     (match password url_ with Some p => p | None => "" end) "latin1"))
        else s0
    | None => s0
    end in
  ClientRequest.update_cookies cookie_output
    (ClientRequest.update_auto_headers SERVER_SOFTWARE HAS_BROTLI
       (ClientRequest.update_headers is_ipv6_address s1 hs) skip_)
    cookies_.

(** The steps from the content encoding on. *)
Definition negotiate (s : ClientRequest.t) (data : option Data)
  : result exn ClientRequest.t :=
  s4 <- ClientRequest.update_content_encoding s data ;;
  s6 <- ClientRequest.update_body_from_data parse_mimetype
          (ClientRequest.update_proxy
             (ClientRequest.update_auth BasicAuth_encode netrc_auth s4 auth_ trust_env_)
             proxy_ proxy_auth_ proxy_headers_)
          data ;;
  s7 <- match data with
        | Some _ => ClientRequest.update_transfer_encoding s6
        | None =>
            if negb (ClientRequest.method_in (ClientRequest.method s6)
                       ClientRequest.GET_METHODS)
            then ClientRequest.update_transfer_encoding s6
            else Ok s6
        end ;;
  Ok (ClientRequest.update_expect_continue s7 expect100_).

Lemma construct_negotiate method_ hs data compress_ chunked_ :
  well_formed method_ ->
  construct method_ hs data compress_ chunked_
  = negotiate (draft method_ hs compress_ chunked_) data.
Proof.
  intros [Hm (h & Hh & Ht)].
  unfold construct, ClientRequest.init, negotiate, draft. rewrite Hm.
  unfold ClientRequest.update_host, ClientRequest.update_version. simpl.
  rewrite Hh, Ht. simpl.
  destruct (user url_) as [u|]; [destruct (str_truthy u)|]; reflexivity.
Qed.

(** The flags, the body and the method of a request. *)
Definition fields (s : ClientRequest.t) : option bool * option Compress * Body * string :=
  (ClientRequest.chunked s, ClientRequest.compress s, ClientRequest.body s,
   ClientRequest.method s).

Lemma fields_update_headers s hs :
  fields (ClientRequest.update_headers is_ipv6_address s hs) = fields s.
Proof. unfold ClientRequest.update_headers. destruct hs; reflexivity. Qed.

Lemma fields_update_auto_headers s skip :
  fields (ClientRequest.update_auto_headers SERVER_SOFTWARE HAS_BROTLI s skip) = fields s.
Proof. reflexivity. Qed.

Lemma fields_update_cookies s cookies :
  fields (ClientRequest.update_cookies cookie_output s cookies) = fields s.
Proof.
  unfold ClientRequest.update_cookies. destruct cookies as [[|c cs]|]; reflexivity.
Qed.

Lemma draft_fields method_ hs compress_ chunked_ :
  let s := draft method_ hs compress_ chunked_ in
  ClientRequest.chunked s = chunked_ /\ ClientRequest.compress s = compress_
  /\ ClientRequest.body s = BodyBytes [] /\ ClientRequest.method s = upper method_.
Proof.
  intros s.
  assert (H : fields s = (chunked_, compress_, BodyBytes [], upper method_)).
  { subst s. unfold draft.
    rewrite fields_update_cookies, fields_update_auto_headers, fields_update_headers.
    destruct (user url_) as [u|]; [destruct (str_truthy u)|]; reflexivity. }
  unfold fields in H. injection H as -> -> -> ->. repeat split.
Qed.

Lemma draft_getall method_ hs compress_ chunked_ k :
  auto_key k = false ->
  getall (ClientRequest.headers (draft method_ hs compress_ chunked_)) k
  = getall (hdrs_of hs) k.
Proof.
  intros Hk. apply auto_key_false in Hk.
  destruct Hk as (H1 & H2 & H3 & H4 & H5 & _).
  unfold draft.
  rewrite getall_update_cookies, getall_update_auto_headers, getall_update_headers;
    auto.
Qed.

(** The whole negotiation, told on the observations: [ce] says that a
    non-empty Content-Encoding header is there, [c_on] that the compress
    flag is set, [data] is the payload for the data, if any, and
    [no_body_method] says that the method is one of [GET_METHODS]. *)
Definition negotiate_spec (o : Obs) (ce c_on : bool) (data : option Payload)
    (no_body_method : bool) : result exn Obs :=
  match data with
  | Some p =>
      if ce && c_on then Raise (ValueError msg_compress)
      else
        o1 <- ubd_spec (mkObs (o_cl o) (o_te o)
                          (if c_on then Some true else o_chunked o) (o_body o)) p ;;
        ute_spec o1
  | None => if no_body_method then Ok o else ute_spec o
  end.

Lemma map_result_bind {A B : Type} (m : result exn A) (f : A -> result exn B)
    (oa : A -> Obs) (ob : B -> Obs) (g : Obs -> result exn Obs) :
  (forall a, map_result ob (f a) = g (oa a)) ->
  map_result ob (x <- m ;; f x) = (o <- map_result oa m ;; g o).
Proof. intros H. destruct m; simpl; auto. Qed.

Lemma map_result_ok {A B : Type} (f : A -> B) (r : result exn A) (b : B) :
  map_result f r = Ok b -> exists a, r = Ok a /\ f a = b.
Proof. destruct r; simpl; intros [= <-]; eauto. Qed.

Lemma map_result_raise {A B : Type} (f : A -> B) (r : result exn A) (e : exn) :
  map_result f r = Raise e -> r = Raise e.
Proof. destruct r; simpl; intros [= <-]; eauto. Qed.

Lemma obs_update_expect_continue s e :
  obs (ClientRequest.update_expect_continue s e) = obs s.
Proof.
  unfold obs. rewrite !getall_update_expect_continue by reflexivity.
  unfold ClientRequest.update_expect_continue. repeat break_match; reflexivity.
Qed.

Lemma obs_update_auth s a t :
  obs (ClientRequest.update_auth BasicAuth_encode netrc_auth s a t) = obs s
  /\ ClientRequest.method (ClientRequest.update_auth BasicAuth_encode netrc_auth s a t)
     = ClientRequest.method s.
Proof.
  unfold obs. rewrite !getall_update_auth by reflexivity.
  unfold ClientRequest.update_auth. repeat break_match; split; reflexivity.
Qed.

Lemma payload_of_ext h h' d :
  getall h hdrs.CONTENT_TYPE = getall h' hdrs.CONTENT_TYPE ->
  payload_of h d = payload_of h' d.
Proof.
  intros H. destruct d as [p|form]; simpl; [reflexivity|].
  now rewrite !contains_getall, !get_default_getall, H.
Qed.

(** The state between the content encoding step and the body step. *)
Definition before_body (s : ClientRequest.t) : ClientRequest.t :=
  ClientRequest.update_proxy
    (ClientRequest.update_auth BasicAuth_encode netrc_auth s auth_ trust_env_)
    proxy_ proxy_auth_ proxy_headers_.

Lemma before_body_frame s :
  obs (before_body s) = obs s
  /\ ClientRequest.method (before_body s) = ClientRequest.method s
  /\ getall (ClientRequest.headers (before_body s)) hdrs.CONTENT_TYPE
     = getall (ClientRequest.headers s) hdrs.CONTENT_TYPE.
Proof.
  unfold before_body, ClientRequest.update_proxy.
  destruct (obs_update_auth s auth_ trust_env_) as [Ho Hm].
  repeat split.
  - exact Ho.
  - exact Hm.
  - simpl. now rewrite getall_update_auth.
Qed.

Lemma tail_obs s6 :
  map_result obs
    (s7 <- ClientRequest.update_transfer_encoding s6 ;;
     Ok (ClientRequest.update_expect_continue s7 expect100_))
  = ute_spec (obs s6).
Proof.
  rewrite <- update_transfer_encoding_obs.
  destruct (ClientRequest.update_transfer_encoding s6); simpl; [|reflexivity].
  now rewrite obs_update_expect_continue.
Qed.

Lemma negotiate_obs s data :
  let ce := str_truthy (lower (get_default (ClientRequest.headers s)
                                 hdrs.CONTENT_ENCODING "")) in
  let c_on := compress_truthy (ClientRequest.compress s) in
  let p := option_map (payload_of (ClientRequest.headers s)) data in
  (forall q, p = Some q ->
             contains (payload_headers q) hdrs.CONTENT_LENGTH = false
             /\ contains (payload_headers q) hdrs.TRANSFER_ENCODING = false) ->
  map_result obs (negotiate s data)
  = negotiate_spec (obs s) ce c_on p
      (ClientRequest.method_in (ClientRequest.method s) ClientRequest.GET_METHODS).
Proof.
  intros ce c_on p Hp. unfold negotiate.
  destruct data as [d|]; simpl in p; subst p.
  - (* a body is given *)
    destruct (Hp _ eq_refl) as [Hcl Hte].
    assert (Hstep : forall s4,
      obs s4 = mkObs (o_cl (obs s)) (o_te (obs s))
                 (if c_on then Some true else o_chunked (obs s)) (o_body (obs s)) ->
      getall (ClientRequest.headers s4) hdrs.CONTENT_TYPE
      = getall (ClientRequest.headers s) hdrs.CONTENT_TYPE ->
      map_result obs
        (s6 <- ClientRequest.update_body_from_data parse_mimetype (before_body s4)
                 (Some d) ;;
         s7 <- ClientRequest.update_transfer_encoding s6 ;;
         Ok (ClientRequest.update_expect_continue s7 expect100_))
      = (o1 <- ubd_spec (mkObs (o_cl (obs s)) (o_te (obs s))
                           (if c_on then Some true else o_chunked (obs s))
                           (o_body (obs s)))
                 (payload_of (ClientRequest.headers s) d) ;;
         ute_spec o1)).
    { intros s4 Ho Hct.
      destruct (before_body_frame s4) as (Hob & _ & Hctb).
      assert (Hpay : payload_of (ClientRequest.headers (before_body s4)) d
                     = payload_of (ClientRequest.headers s) d)
        by (apply payload_of_ext; congruence).
      rewrite (map_result_bind _ _ obs obs ute_spec) by apply tail_obs.
      rewrite update_body_from_data_obs; rewrite Hpay; auto.
      now rewrite Hob, Ho. }
    unfold negotiate_spec, ClientRequest.update_content_encoding.
    fold ce. fold c_on. fold (before_body).
    destruct ce, c_on; simpl bind; cbv iota beta; simpl andb; cbv iota.
    + reflexivity.
    + apply Hstep; [now destruct (obs s)|reflexivity].
    + apply Hstep.
      * unfold obs. simpl.
        now rewrite !getall_setitem, key_CE_CL, key_CE_TE.
      * simpl. now rewrite getall_setitem, key_CE_CT.
    + apply Hstep; [now destruct (obs s)|reflexivity].
  - (* no body *)
    unfold ClientRequest.update_content_encoding, ClientRequest.update_body_from_data.
    cbn [bind negotiate_spec option_map]. fold (before_body s).
    destruct (before_body_frame s) as (Hob & Hm & _).
    rewrite Hm.
    destruct (ClientRequest.method_in (ClientRequest.method s) ClientRequest.GET_METHODS);
      simpl.
    + now rewrite obs_update_expect_continue, Hob.
    + rewrite tail_obs. now rewrite Hob.
Qed.

(** *** The caller's side *)

(** The caller gave a non-empty Content-Encoding header. *)
Definition ce_given (hs : option (list (string * string))) : bool :=
  str_truthy (lower (get_default (hdrs_of hs) hdrs.CONTENT_ENCODING "")).

(** The caller's Transfer-Encoding header (the first one) mentions chunked. *)
Definition te_given (hs : option (list (string * string))) : bool :=
  te_says_chunked (getall (hdrs_of hs) hdrs.TRANSFER_ENCODING).

(** The caller gave a Content-Length header. *)
Definition cl_given (hs : option (list (string * string))) : bool :=
  contains (hdrs_of hs) hdrs.CONTENT_LENGTH.

(** Some Transfer-Encoding value of the list mentions chunked. *)
Definition te_anywhere (l : list string) : bool :=
  existsb (fun v => str_in "chunked" (lower v)) l.

(** The payload that becomes the body, if data are given. *)
Definition body_payload (hs : option (list (string * string))) (data : option Data)
  : option Payload :=
  option_map (payload_of (hdrs_of hs)) data.

(** What the code expects of a payload: it contributes at least one header
    (the code asserts it), and neither Content-Length nor
    Transfer-Encoding. *)
Definition payload_contract (p : Payload) : Prop :=
  payload_headers p <> []
  /\ contains (payload_headers p) hdrs.CONTENT_LENGTH = false
  /\ contains (payload_headers p) hdrs.TRANSFER_ENCODING = false.

(** [update_content_encoding] looks at the headers only when data are
    given: this is the conflict it refuses. *)
Definition encoding_conflict (hs : option (list (string * string)))
    (data : option Data) (compress_ : option Compress) : bool :=
  match data with
  | Some _ => compress_truthy compress_ && ce_given hs
  | None => false
  end.

(** [update_transfer_encoding] runs: data are given, or the method is not
    one of [GET_METHODS]. *)
Definition negotiates (method_ : string) (data : option Data) : bool :=
  match data with
  | Some _ => true
  | None => negb (ClientRequest.method_in (upper method_) ClientRequest.GET_METHODS)
  end.

(** Chunked transfer is in force when [update_transfer_encoding] runs: the
    flag was given, or compress forced it, or a body of unknown size did. *)
Definition chunked_in_force (hs : option (list (string * string)))
    (data : option Data) (compress_ : option Compress) (chunked_ : option bool) : bool :=
  chunked_truthy chunked_
  || match body_payload hs data with
     | Some p =>
         (compress_truthy compress_ && negb (ce_given hs))
         || (negb (cl_given hs) && match size p with None => true | Some _ => false end)
     | None => false
     end.

Lemma construct_obs method_ hs data compress_ chunked_ :
  well_formed method_ ->
  (forall p, body_payload hs data = Some p -> payload_contract p) ->
  map_result obs (construct method_ hs data compress_ chunked_)
  = negotiate_spec
      (mkObs (getall (hdrs_of hs) hdrs.CONTENT_LENGTH)
             (getall (hdrs_of hs) hdrs.TRANSFER_ENCODING) chunked_ (BodyBytes []))
      (ce_given hs) (compress_truthy compress_) (body_payload hs data)
      (ClientRequest.method_in (upper method_) ClientRequest.GET_METHODS).
Proof.
  intros Hwf Hp. rewrite construct_negotiate by assumption.
  destruct (draft_fields method_ hs compress_ chunked_) as (Hch & Hco & Hb & Hm).
  assert (Hpay : option_map
                   (payload_of (ClientRequest.headers (draft method_ hs compress_ chunked_)))
                   data
                 = body_payload hs data).
  { unfold body_payload. destruct data as [d|]; simpl; [|reflexivity].
    f_equal. apply payload_of_ext. now apply draft_getall. }
  rewrite negotiate_obs.
  - rewrite Hpay, Hco, Hm. unfold ce_given.
    rewrite !get_default_getall, (draft_getall _ _ _ _ hdrs.CONTENT_ENCODING) by reflexivity.
    unfold obs. rewrite Hch, Hb, !draft_getall by reflexivity. reflexivity.
  - rewrite Hpay. intros q Hq. apply Hp in Hq. apply Hq.
Qed.

Lemma cl_given_getall hs :
  cl_given hs = negb (is_nil (getall (hdrs_of hs) hdrs.CONTENT_LENGTH)).
Proof.
  unfold cl_given. rewrite contains_getall.
  now destruct (getall (hdrs_of hs) hdrs.CONTENT_LENGTH).
Qed.

Lemma obs_inv r cl te ch b :
  obs r = mkObs cl te ch b ->
  getall (ClientRequest.headers r) hdrs.CONTENT_LENGTH = cl
  /\ getall (ClientRequest.headers r) hdrs.TRANSFER_ENCODING = te
  /\ ClientRequest.chunked r = ch /\ ClientRequest.body r = b.
Proof. unfold obs. intros [= <- <- <- <-]. repeat split. Qed.

(** C4. Take a request with a body, or with a method outside
    [GET_METHODS], for which chunked transfer is neither requested (no
    chunked flag, no Transfer-Encoding header that mentions chunked) nor
    forced by compress, and whose caller gave no Content-Length. Then the
    constructor succeeds, and: with a payload of known size [n],
    Content-Length is set to [str(n)] and nothing else changes; with a
    payload of unknown size, the chunked flag is set, Transfer-Encoding
    becomes [chunked] and there is no Content-Length; without data,
    Content-Length is set to the length of the empty body. *)
Theorem content_length_or_forced_chunked method_ hs data compress_ chunked_ :
  well_formed method_ ->
  (forall p, body_payload hs data = Some p -> payload_contract p) ->
  negotiates method_ data = true ->
  chunked_truthy chunked_ = false ->
  (data <> None -> compress_truthy compress_ = false) ->
  te_given hs = false ->
  cl_given hs = false ->
  exists r,
    construct method_ hs data compress_ chunked_ = Ok r
    /\ match body_payload hs data with
       | Some p =>
           ClientRequest.body r = BodyPayload p
           /\ match size p with
              | Some n =>
                  getall (ClientRequest.headers r) hdrs.CONTENT_LENGTH = [str_of_nat n]
                  /\ get (ClientRequest.headers r) hdrs.CONTENT_LENGTH
                     = Some (str_of_nat n)
                  /\ ClientRequest.chunked r = chunked_
                  /\ getall (ClientRequest.headers r) hdrs.TRANSFER_ENCODING
                     = getall (hdrs_of hs) hdrs.TRANSFER_ENCODING
              | None =>
                  ClientRequest.chunked r = Some true
                  /\ getall (ClientRequest.headers r) hdrs.TRANSFER_ENCODING = ["chunked"]
                  /\ contains (ClientRequest.headers r) hdrs.CONTENT_LENGTH = false
              end
       | None =>
           ClientRequest.body r = BodyBytes []
           /\ getall (ClientRequest.headers r) hdrs.CONTENT_LENGTH = ["0"]
           /\ ClientRequest.chunked r = chunked_
       end.
Proof.
  intros Hwf Hp Hneg Hch Hco Hte Hcl.
  pose proof (construct_obs method_ hs data compress_ chunked_ Hwf Hp) as H.
  rewrite cl_given_getall in Hcl. apply negb_false_iff in Hcl.
  unfold te_given in Hte.
  unfold negotiate_spec, ubd_spec, ute_spec in H.
  cbn [o_cl o_te o_chunked o_body] in H.
  destruct (body_payload hs data) as [p|] eqn:Ep.
  - assert (Hd : data <> None) by (destruct data; [discriminate|discriminate Ep]).
    rewrite (Hco Hd) in H. rewrite andb_false_r in H.
    destruct (Hp p eq_refl) as (Hne & _ & _).
    rewrite Hch, Hcl in H. simpl negb in H. simpl andb in H. cbv iota in H.
    assert (Hnil : is_nil (payload_headers p) = false)
      by (destruct (payload_headers p); [contradiction|reflexivity]).
    rewrite Hnil in H.
    destruct (size p) as [n|]; simpl in H; rewrite Hte in H.
    + rewrite Hch in H. simpl in H.
      apply map_result_ok in H. destruct H as (r & Hr & Ho).
      apply obs_inv in Ho. destruct Ho as (A & B & C & D).
      exists r. repeat split; auto.
      rewrite get_getall, A. reflexivity.
    + simpl in H. rewrite Hcl in H.
      apply map_result_ok in H. destruct H as (r & Hr & Ho).
      apply obs_inv in Ho. destruct Ho as (A & B & C & D).
      exists r. repeat split; auto.
      rewrite contains_getall, A. now destruct (getall (hdrs_of hs) hdrs.CONTENT_LENGTH).
  - assert (Hd : data = None) by (destruct data; [discriminate Ep|reflexivity]).
    subst data. unfold negotiates in Hneg. apply negb_true_iff in Hneg.
    rewrite Hneg, Hte, Hch, Hcl in H. simpl in H.
    apply map_result_ok in H. destruct H as (r & Hr & Ho).
    apply obs_inv in Ho. destruct Ho as (A & B & C & D).
    exists r. repeat split; auto.
Qed.

Lemma te_anywhere_head l : te_anywhere l = false -> te_says_chunked l = false.
Proof.
  unfold te_anywhere, te_says_chunked. destruct l as [|v rest]; simpl.
  - reflexivity.
  - intros H. apply orb_false_iff in H. apply H.
Qed.

(** C3, as amended. For a well-formed method and URL and a payload that
    honours its contract:
    - with data, a compress flag together with a first Content-Encoding
      header that is not empty is refused;
    - when [update_transfer_encoding] runs (data are given or the method
      is outside [GET_METHODS]) and chunked transfer is in force (by the
      flag, by compress, or by a body of unknown size), a first
      Transfer-Encoding header that mentions chunked is refused, and
      otherwise so is a Content-Length header;
    - in every other case the constructor succeeds, and if no
      Transfer-Encoding header of the caller mentions chunked, the
      resulting headers do not hold both a Content-Length and a
      Transfer-Encoding that mentions chunked. *)
Theorem construct_conflicts_and_exclusivity method_ hs data compress_ chunked_ :
  well_formed method_ ->
  (forall p, body_payload hs data = Some p -> payload_contract p) ->
  (encoding_conflict hs data compress_ = true ->
   construct method_ hs data compress_ chunked_ = Raise (ValueError msg_compress))
  /\ (encoding_conflict hs data compress_ = false ->
      negotiates method_ data = true ->
      chunked_in_force hs data compress_ chunked_ = true ->
      te_given hs = true ->
      construct method_ hs data compress_ chunked_ = Raise (ValueError msg_chunked_te))
  /\ (encoding_conflict hs data compress_ = false ->
      negotiates method_ data = true ->
      chunked_in_force hs data compress_ chunked_ = true ->
      te_given hs = false ->
      cl_given hs = true ->
      construct method_ hs data compress_ chunked_ = Raise (ValueError msg_chunked_cl))
  /\ (encoding_conflict hs data compress_ = false ->
      negotiates method_ data = false
      \/ chunked_in_force hs data compress_ chunked_ = false
      \/ (te_given hs = false /\ cl_given hs = false) ->
      exists r,
        construct method_ hs data compress_ chunked_ = Ok r
        /\ (te_anywhere (getall (hdrs_of hs) hdrs.TRANSFER_ENCODING) = false ->
            ~ (contains (ClientRequest.headers r) hdrs.CONTENT_LENGTH = true
               /\ te_anywhere (getall (ClientRequest.headers r) hdrs.TRANSFER_ENCODING)
                  = true))).
Proof.
  intros Hwf Hp.
  pose proof (construct_obs method_ hs data compress_ chunked_ Hwf Hp) as H.
  unfold encoding_conflict, negotiates, chunked_in_force, te_given.
  rewrite cl_given_getall.
  unfold negotiate_spec, ubd_spec, ute_spec in H.
  cbn [o_cl o_te o_chunked o_body] in H.
  assert (Hex : forall r,
             construct method_ hs data compress_ chunked_ = Ok r ->
             forall cl te ch b,
               obs r = mkObs cl te ch b ->
               (cl = [] \/ te = getall (hdrs_of hs) hdrs.TRANSFER_ENCODING) ->
               (cl = [] \/ te_anywhere te = true -> cl = []
                \/ te = getall (hdrs_of hs) hdrs.TRANSFER_ENCODING) ->
               te_anywhere (getall (hdrs_of hs) hdrs.TRANSFER_ENCODING) = false ->
               ~ (contains (ClientRequest.headers r) hdrs.CONTENT_LENGTH = true
                  /\ te_anywhere (getall (ClientRequest.headers r) hdrs.TRANSFER_ENCODING)
                     = true)).
  { intros r _ cl te ch b Ho Hor _ Hany [Hc Ht].
    apply obs_inv in Ho. destruct Ho as (A & B & _ & _).
    rewrite contains_getall, A in Hc. rewrite B in Ht.
    destruct Hor as [-> | ->]; [discriminate|congruence]. }
  destruct (body_payload hs data) as [p|] eqn:Ep.
  - assert (Hd : exists d, data = Some d)
      by (destruct data as [d|]; [eauto|discriminate Ep]).
    destruct Hd as [d ->].
    destruct (Hp p eq_refl) as (Hne & _ & _).
    assert (Hnil : is_nil (payload_headers p) = false)
      by (destruct (payload_headers p); [contradiction|reflexivity]).
    rewrite Hnil in H. clear Hnil Hne.
    destruct (ce_given hs), (compress_truthy compress_); simpl in H |- *;
      destruct chunked_ as [[|]|]; simpl in H |- *;
      destruct (getall (hdrs_of hs) hdrs.CONTENT_LENGTH) as [|c0 crest] eqn:Ecl;
      simpl in H |- *;
      destruct (size p); simpl in H |- *;
      destruct (te_says_chunked (getall (hdrs_of hs) hdrs.TRANSFER_ENCODING)) eqn:Ete;
      simpl in H |- *; rewrite ?Ete in H; simpl in H;
      (repeat split;
       try (intros; discriminate);
       try (intros; now apply map_result_raise in H);
       try (intros _ [Hx|[Hx|[Hx Hy]]]; discriminate);
       try (intros;
            apply map_result_ok in H; destruct H as (r & Hr & Ho);
            exists r; split; [exact Hr|];
            intro Hany;
            try (apply te_anywhere_head in Hany; congruence);
            eapply Hex; eauto; fail)).
  - assert (Hd : data = None) by (destruct data; [discriminate Ep|reflexivity]).
    subst data.
    destruct (ClientRequest.method_in (upper method_) ClientRequest.GET_METHODS);
      simpl in H |- *;
      destruct chunked_ as [[|]|]; simpl in H |- *;
      destruct (getall (hdrs_of hs) hdrs.CONTENT_LENGTH) as [|c0 crest] eqn:Ecl;
      simpl in H |- *;
      destruct (te_says_chunked (getall (hdrs_of hs) hdrs.TRANSFER_ENCODING)) eqn:Ete;
      simpl in H |- *; rewrite ?Ete in H; simpl in H;
      (repeat split;
       try (intros; discriminate);
       try (intros; now apply map_result_raise in H);
       try (intros _ [Hx|[Hx|[Hx Hy]]]; discriminate);
       try (intros;
            apply map_result_ok in H; destruct H as (r & Hr & Ho);
            exists r; split; [exact Hr|];
            intro Hany;
            try (apply te_anywhere_head in Hany; congruence);
            eapply Hex; eauto; fail)).
Qed.

End Steps.

End NegotiationFacts.

(** *** The constructor run on concrete requests *)

(** A stand-in for the built-in [repr] on strings, right for the strings
    that need no escape and hold no quote. *)
Definition toy_repr (s : string) : string := ("'" ++ s ++ "'")%string.

(** Stand-ins for the collaborators, enough to run the constructor. *)
Definition toy_construct (method_ : string) (hs : option (list (string * string)))
    (data : option Data) (compress_ : option Compress) (chunked_ : option bool)
  : result exn ClientRequest.t :=
  NegotiationFacts.construct (fun _ => false) "Python/3.11 aiohttp/3.9" false
    (fun _ _ => "") (fun _ => "Basic dTpw") (fun _ => None) toy_parse_mimetype
    (fun u => u) toy_repr example_url [] None None HttpVersion11 false None None None
    (SslBool true) false method_ hs data compress_ chunked_.

(** A ten-byte in-memory body, and a body streamed from a generator. *)
Definition ten_bytes : Payload :=
  mkPayload (Some 10%nat) [("Content-Type", "application/octet-stream")]
    [repeat Byte.x61 10].

Definition streamed : Payload :=
  mkPayload None [("Content-Type", "application/octet-stream")]
    [[Byte.x61]; [Byte.x62]].

Lemma toy_well_formed m :
  search_non_token m = None -> NegotiationFacts.well_formed example_url m.
Proof. intro H. split; [exact H|]. exists "example.com". split; reflexivity. Qed.

Lemma ten_bytes_contract : NegotiationFacts.payload_contract ten_bytes.
Proof. split; [discriminate|split; reflexivity]. Qed.

Lemma content_length_or_forced_chunked_witness :
  exists r,
    toy_construct "post" None (Some (DataPayload ten_bytes)) None None = Ok r
    /\ CIMultiDict.get (ClientRequest.headers r) hdrs.CONTENT_LENGTH = Some "10"
    /\ ClientRequest.chunked r = None.
Proof.
  destruct (NegotiationFacts.content_length_or_forced_chunked
              (fun _ => false) "Python/3.11 aiohttp/3.9" false
              (fun _ _ => "") (fun _ => "Basic dTpw") (fun _ => None) toy_parse_mimetype
              (fun u => u) toy_repr example_url [] None None HttpVersion11 false None None None
              (SslBool true) false
              "post" None (Some (DataPayload ten_bytes)) None None)
    as (r & Hr & Hb & _ & Hget & Hch & _).
  - apply toy_well_formed. reflexivity.
  - intros p [= <-]. exact ten_bytes_contract.
  - reflexivity.
  - reflexivity.
  - reflexivity.
  - reflexivity.
  - reflexivity.
  - exists r. repeat split; assumption.
Defined.

Lemma construct_conflicts_and_exclusivity_witness :
  toy_construct "POST" (Some [("Content-Encoding", "gzip")])
    (Some (DataPayload ten_bytes)) (Some (CompressStr "deflate")) None
  = Raise (ValueError NegotiationFacts.msg_compress).
Proof.
  destruct (NegotiationFacts.construct_conflicts_and_exclusivity
              (fun _ => false) "Python/3.11 aiohttp/3.9" false
              (fun _ _ => "") (fun _ => "Basic dTpw") (fun _ => None) toy_parse_mimetype
              (fun u => u) toy_repr example_url [] None None HttpVersion11 false None None None
              (SslBool true) false
              "POST" (Some [("Content-Encoding", "gzip")])
              (Some (DataPayload ten_bytes)) (Some (CompressStr "deflate")) None)
    as (H & _).
  - apply toy_well_formed. reflexivity.
  - intros p [= <-]. exact ten_bytes_contract.
  - apply H. reflexivity.
Defined.

(** The call returns a request, and the request satisfies [P]. *)
Definition returns (r : result exn ClientRequest.t) (P : ClientRequest.t -> Prop) : Prop :=
  match r with
  | Ok x => P x
  | Raise _ => False
  end.

(** C3 as it is stated fails on the code, in three ways.
    Without data the constructor does not look for conflicts: a compress
    flag with a Content-Encoding header is accepted, and so is, for a GET,
    a chunked flag with both a chunked Transfer-Encoding header and a
    Content-Length header, which then stay side by side.
    With none of the three listed conflicts, a body of known size and
    a chunked Transfer-Encoding header of the caller end in a request with
    both Content-Length and Transfer-Encoding: chunked.
    With none of the three listed conflicts, a body of unknown size and
    a chunked Transfer-Encoding header of the caller are refused. *)
Lemma header_conflicts_counterexample :
  returns
    (toy_construct "GET" (Some [("Content-Encoding", "gzip")]) None
       (Some (CompressStr "deflate")) None)
    (fun r =>
       ClientRequest.compress r = Some (CompressStr "deflate")
       /\ CIMultiDict.get (ClientRequest.headers r) hdrs.CONTENT_ENCODING = Some "gzip")
  /\ returns
       (toy_construct "GET"
          (Some [("Transfer-Encoding", "chunked"); ("Content-Length", "5")]) None
          None (Some true))
       (fun r =>
          ClientRequest.chunked r = Some true
          /\ CIMultiDict.get (ClientRequest.headers r) hdrs.CONTENT_LENGTH = Some "5"
          /\ CIMultiDict.get (ClientRequest.headers r) hdrs.TRANSFER_ENCODING
             = Some "chunked")
  /\ returns
       (toy_construct "POST" (Some [("Transfer-Encoding", "chunked")])
          (Some (DataPayload ten_bytes)) None None)
       (fun r =>
          CIMultiDict.get (ClientRequest.headers r) hdrs.CONTENT_LENGTH = Some "10"
          /\ CIMultiDict.get (ClientRequest.headers r) hdrs.TRANSFER_ENCODING
             = Some "chunked")
  /\ toy_construct "POST" (Some [("Transfer-Encoding", "chunked")])
       (Some (DataPayload streamed)) None None
     = Raise (ValueError NegotiationFacts.msg_chunked_te).
Proof. vm_compute. repeat split. Qed.

(** Scenarios A and B of the specification, run on the code. *)
Example scenarios_A_and_B :
  returns (toy_construct "GET" None None None None)
    (fun r =>
       ClientRequest.headers r
       = [("Host", "example.com"); ("Accept", "*/*");
          ("Accept-Encoding", "gzip, deflate");
          ("User-Agent", "Python/3.11 aiohttp/3.9")]
       /\ ClientRequest.keep_alive r = true)
  /\ returns (toy_construct "POST" None (Some (DataPayload ten_bytes)) None None)
       (fun r =>
          ClientRequest.headers r
          = [("Host", "example.com"); ("Accept", "*/*");
             ("Accept-Encoding", "gzip, deflate");
             ("User-Agent", "Python/3.11 aiohttp/3.9");
             ("Content-Length", "10");
             ("Content-Type", "application/octet-stream")]).
Proof. vm_compute. repeat split. Qed.

(** * Further properties of the code *)

(** ** [send]: the headers it completes *)

Module SendFacts.
Import CIMultiDict CIMultiDictFacts.

Lemma get_setitem d k v k' :
  get (setitem d k v) k' = if key_eqb k k' then Some v else get d k'.
Proof. rewrite !get_getall, getall_setitem. now destruct (key_eqb k k'). Qed.

(** The state after the content-type step of [send]. *)
Definition with_default_content_type (r : ClientRequest.t) : ClientRequest.t :=
  if ClientRequest.method_in (ClientRequest.method r) ClientRequest.POST_METHODS
     && negb (contains (ClientRequest.skip_auto_headers r) hdrs.CONTENT_TYPE)
     && negb (contains (ClientRequest.headers r) hdrs.CONTENT_TYPE)
  then ClientRequest.with_headers r
         (setitem (ClientRequest.headers r) hdrs.CONTENT_TYPE "application/octet-stream")
  else r.

Lemma content_type_step_frame r k :
  key_eqb hdrs.CONTENT_TYPE k = false ->
  getall (ClientRequest.headers (with_default_content_type r)) k
  = getall (ClientRequest.headers r) k.
Proof.
  intros Hk. unfold with_default_content_type.
  destruct (_ && _ && _); [|reflexivity].
  simpl. now rewrite getall_setitem, Hk.
Qed.

Lemma content_type_step_fields r :
  ClientRequest.version (with_default_content_type r) = ClientRequest.version r
  /\ ClientRequest.chunked (with_default_content_type r) = ClientRequest.chunked r
  /\ ClientRequest.compress (with_default_content_type r) = ClientRequest.compress r
  /\ ClientRequest.body (with_default_content_type r) = ClientRequest.body r.
Proof. unfold with_default_content_type. destruct (_ && _ && _); repeat split. Qed.

(** The connection header [send] computes is the one it found: the
    branches that would make one up are never taken, because [keep_alive]
    answers from the same header. *)
Lemma computed_connection r :
  let connection := get (ClientRequest.headers r) hdrs.CONNECTION in
  (if negb (match connection with Some c => str_truthy c | None => false end) then
     if ClientRequest.keep_alive r then
       if HttpVersion_eqb (ClientRequest.version r) HttpVersion10 then Some "keep-alive"
       else connection
     else
       if HttpVersion_eqb (ClientRequest.version r) HttpVersion11 then Some "close"
       else connection
   else connection) = connection.
Proof.
  intros connection. subst connection.
  unfold ClientRequest.keep_alive.
  destruct (get (ClientRequest.headers r) hdrs.CONNECTION) as [c|] eqn:Hg.
  - destruct c as [|a c']; simpl; [|reflexivity].
    destruct (HttpVersion_ltb (ClientRequest.version r) HttpVersion10) eqn:Hlt.
    + destruct (HttpVersion_eqb (ClientRequest.version r) HttpVersion11) eqn:H11;
        [|reflexivity].
      apply HttpVersion_eqb_spec in H11. rewrite H11 in Hlt. discriminate.
    + destruct (HttpVersion_eqb (ClientRequest.version r) HttpVersion10) eqn:H10; simpl.
      * destruct (HttpVersion_eqb (ClientRequest.version r) HttpVersion11) eqn:H11;
          [|reflexivity].
        apply HttpVersion_eqb_spec in H10, H11. rewrite H10 in H11. discriminate.
      * reflexivity.
  - simpl.
    destruct (HttpVersion_ltb (ClientRequest.version r) HttpVersion10) eqn:Hlt.
    + destruct (HttpVersion_eqb (ClientRequest.version r) HttpVersion11) eqn:H11;
        [|reflexivity].
      apply HttpVersion_eqb_spec in H11. rewrite H11 in Hlt. discriminate.
    + destruct (HttpVersion_eqb (ClientRequest.version r) HttpVersion10) eqn:H10; simpl.
      * destruct (HttpVersion_eqb (ClientRequest.version r) HttpVersion11) eqn:H11;
          [|reflexivity].
        apply HttpVersion_eqb_spec in H10, H11. rewrite H10 in H11. discriminate.
      * reflexivity.
Qed.

Lemma send_headers_unfold r :
  ClientRequest.send_headers r
  = match get (ClientRequest.headers (with_default_content_type r)) hdrs.CONNECTION with
    | Some c =>
        ClientRequest.with_headers (with_default_content_type r)
          (setitem (ClientRequest.headers (with_default_content_type r))
             hdrs.CONNECTION c)
    | None => with_default_content_type r
    end.
Proof.
  unfold ClientRequest.send_headers. fold (with_default_content_type r).
  cbv zeta. rewrite (computed_connection (with_default_content_type r)).
  reflexivity.
Qed.

(** X1. [send] never makes up a Connection header: for every request, of
    any HTTP version, the Connection header after [send] completed the
    headers is the one the request had (the first value, if there were
    several), and a request without one still has none. *)
Theorem send_never_invents_connection (r : ClientRequest.t) :
  get (ClientRequest.headers (ClientRequest.send_headers r)) hdrs.CONNECTION
  = get (ClientRequest.headers r) hdrs.CONNECTION
  /\ contains (ClientRequest.headers (ClientRequest.send_headers r)) hdrs.CONNECTION
     = contains (ClientRequest.headers r) hdrs.CONNECTION
  /\ ClientRequest.keep_alive (ClientRequest.send_headers r) = ClientRequest.keep_alive r.
Proof.
  assert (Hget : get (ClientRequest.headers (ClientRequest.send_headers r)) hdrs.CONNECTION
                 = get (ClientRequest.headers r) hdrs.CONNECTION).
  { rewrite send_headers_unfold.
    assert (H0 : get (ClientRequest.headers (with_default_content_type r)) hdrs.CONNECTION
                 = get (ClientRequest.headers r) hdrs.CONNECTION)
      by (rewrite !get_getall, content_type_step_frame; reflexivity).
    destruct (get (ClientRequest.headers (with_default_content_type r)) hdrs.CONNECTION)
      as [c|] eqn:Hg; [|now rewrite Hg].
    simpl. rewrite get_setitem, key_eqb_refl. exact H0. }
  assert (Hver : ClientRequest.version (ClientRequest.send_headers r)
                 = ClientRequest.version r).
  { rewrite send_headers_unfold.
    destruct (get (ClientRequest.headers (with_default_content_type r)) hdrs.CONNECTION);
      simpl; apply (proj1 (content_type_step_fields r)). }
  split; [exact Hget|]. split.
  - rewrite !contains_getall. rewrite !get_getall in Hget.
    destruct (getall (ClientRequest.headers (ClientRequest.send_headers r)) hdrs.CONNECTION),
      (getall (ClientRequest.headers r) hdrs.CONNECTION); simpl in Hget;
      try reflexivity; discriminate.
  - unfold ClientRequest.keep_alive. now rewrite Hget, Hver.
Qed.

(** X2. The default content type: [send] sets
    [Content-Type: application/octet-stream] exactly for a PATCH, POST or
    PUT that has no Content-Type and has not skip-listed it; it never
    replaces a Content-Type that is there, never adds one for another
    method, and leaves every header other than Content-Type and Connection
    as it was. *)
Theorem send_default_content_type (r : ClientRequest.t) :
  let r' := ClientRequest.send_headers r in
  (contains (ClientRequest.headers r) hdrs.CONTENT_TYPE = true ->
   getall (ClientRequest.headers r') hdrs.CONTENT_TYPE
   = getall (ClientRequest.headers r) hdrs.CONTENT_TYPE)
  /\ (contains (ClientRequest.headers r) hdrs.CONTENT_TYPE = false ->
      getall (ClientRequest.headers r') hdrs.CONTENT_TYPE
      = if ClientRequest.method_in (ClientRequest.method r) ClientRequest.POST_METHODS
           && negb (contains (ClientRequest.skip_auto_headers r) hdrs.CONTENT_TYPE)
        then ["application/octet-stream"] else [])
  /\ (forall k,
         key_eqb hdrs.CONTENT_TYPE k = false -> key_eqb hdrs.CONNECTION k = false ->
         getall (ClientRequest.headers r') k = getall (ClientRequest.headers r) k).
Proof.
  intros r'. subst r'.
  assert (Hstep : forall k,
             key_eqb hdrs.CONNECTION k = false ->
             getall (ClientRequest.headers (ClientRequest.send_headers r)) k
             = getall (ClientRequest.headers (with_default_content_type r)) k).
  { intros k Hk. rewrite send_headers_unfold.
    destruct (get _ hdrs.CONNECTION); [|reflexivity].
    simpl. now rewrite getall_setitem, Hk. }
  split; [|split].
  - intros Hc. rewrite Hstep by reflexivity.
    unfold with_default_content_type. rewrite Hc, andb_false_r. reflexivity.
  - intros Hc. rewrite Hstep by reflexivity.
    unfold with_default_content_type. rewrite Hc, andb_true_r.
    destruct (_ && _); simpl.
    + now rewrite getall_setitem, key_eqb_refl.
    + rewrite contains_getall in Hc.
      now destruct (getall (ClientRequest.headers r) hdrs.CONTENT_TYPE).
  - intros k H1 H2. rewrite Hstep by assumption. now apply content_type_step_frame.
Qed.

(** A POST without Content-Type, as [send] finds it. *)
Definition post_request : ClientRequest.t :=
  ClientRequest.mk "POST" example_url example_url HttpVersion11
    [("Host", "example.com"); ("Content-Length", "0")] [] (BodyBytes []) None None None
    None None None (SslBool true) None.

Lemma send_default_content_type_witness :
  getall (ClientRequest.headers (ClientRequest.send_headers post_request))
    hdrs.CONTENT_TYPE
  = ["application/octet-stream"].
Proof.
  destruct (send_default_content_type post_request) as (_ & H & _).
  apply H. reflexivity.
Defined.

End SendFacts.

(** ** [write_bytes]: cancellation, and the order of the chunks *)

Module WriterFacts.
Import BodyWriter.

Section Run.
Variable env : Env.
Variable conn_str : string.

(** X3. A request with the 100-continue waiter armed, cancelled while it
    drains the headers or waits for the waiter: the coroutine returns
    normally and has sent nothing of the body: no chunk, no end-of-body
    marker, no stored error, no timer. Any other failure at that point
    leaves the coroutine as an exception, with the same nothing sent. And
    a request without a waiter does not drain at all. *)
Theorem write_bytes_cancelled_before_body (wd : World) :
  (forall f e,
      ClientRequest._continue (req wd) = Some f ->
      drain_outcome env = Some e \/
      (drain_outcome env = None /\ continue_outcome env = Some e) ->
      let r := write_bytes env conn_str wd in
      fst r = (match classify e with IsCancelled => Ok tt | _ => Raise e end)
      /\ written (writer (snd r)) = written (writer wd)
      /\ eof_written (writer (snd r)) = eof_written (writer wd)
      /\ protocol (snd r) = protocol wd
      /\ req (snd r) = req wd)
  /\ (ClientRequest._continue (req wd) = None -> await_continue env wd = (None, wd)).
Proof.
  split.
  - intros f e Hc Hout. unfold write_bytes, await_continue. rewrite Hc.
    destruct Hout as [Hd | [Hd Hw]].
    + rewrite Hd. destruct (classify e); simpl; repeat split.
    + rewrite Hd, Hw. destruct (classify e); simpl; repeat split.
  - intros Hc. unfold await_continue. now rewrite Hc.
Qed.

(** X4. Cancelled while the body is streamed, the writer still writes the
    end-of-body marker and stores no error and starts no timer; a base
    exception that is no [Exception] is not stored either, it leaves the
    coroutine as it came and no end-of-body marker is written. *)
Theorem write_bytes_cancelled_while_streaming (wd wd1 wd2 : World) (e : exn) :
  await_continue env wd = (None, wd1) ->
  stream_body env wd1 = (Some e, wd2) ->
  (classify e = IsCancelled ->
   write_eof_outcome env = None ->
   write_bytes env conn_str wd
   = (Ok tt,
      mkWorld (req wd2)
        (mkWriter (written (writer wd2)) true (drains (writer wd2)))
        (protocol wd2)))
  /\ (classify e = IsCancelled ->
      forall x, write_eof_outcome env = Some x ->
                write_bytes env conn_str wd = (Raise x, wd2))
  /\ (classify e = IsBaseException ->
      write_bytes env conn_str wd = (Raise e, wd2))
  /\ (classify e = IsCancelled \/ classify e = IsBaseException ->
      protocol (snd (write_bytes env conn_str wd)) = protocol wd).
Proof.
  intros Hc Hs.
  assert (Hp : protocol wd2 = protocol wd).
  { destruct (await_continue_frame env _ _ _ Hc) as (_ & H1 & _).
    destruct (stream_body_frame env _ _ _ Hs) as (_ & H2 & _).
    congruence. }
  unfold write_bytes. rewrite Hc, Hs. unfold write_eof.
  split; [|split; [|split]].
  - intros H1 H2. rewrite H1, H2. reflexivity.
  - intros H1 x H2. rewrite H1, H2. destruct wd2; reflexivity.
  - intros H1. rewrite H1. reflexivity.
  - intros [H1 | H1]; rewrite H1; [|exact Hp].
    destruct (write_eof_outcome env); exact Hp.
Qed.

(** What a writer has been handed is what it had plus the first [n]
    chunks, in order; all of them if no write failed, and otherwise [n] is
    the position of the write that failed. *)
Lemma write_chunks_prefix (chunks : list bytes) :
  forall w r w',
    write_chunks env chunks w = (r, w') ->
    exists n,
      (n <= length chunks)%nat
      /\ written w' = written w ++ firstn n chunks
      /\ (r = None -> n = length chunks)
      /\ (forall e, r = Some e ->
            (n < length chunks)%nat
            /\ write_outcome env (length (written w) + n) (nth n chunks []) = Some e).
Proof.
  induction chunks as [|c rest IH]; simpl; intros w r w' H.
  - injection H as <- <-. exists 0%nat. rewrite app_nil_r.
    split; [lia|]. split; [reflexivity|]. split; [reflexivity|].
    intros e He. discriminate He.
  - destruct (write_outcome env (length (written w)) c) as [e|] eqn:Ho.
    + injection H as <- <-. exists 0%nat. simpl. rewrite app_nil_r.
      split; [lia|]. split; [reflexivity|]. split; [discriminate|].
      intros e' He. injection He as <-. split; [lia|]. now rewrite Nat.add_0_r.
    + apply IH in H. simpl in H. destruct H as (n & Hn & Hw & Hnone & Hsome).
      exists (S n). simpl.
      split; [lia|]. split; [rewrite Hw, <- app_assoc; reflexivity|].
      split; [intros Hr; now rewrite (Hnone Hr)|].
      intros e He. destruct (Hsome e He) as [Hlt Hout].
      split; [lia|].
      rewrite length_app in Hout. simpl in Hout.
      now replace (length (written w) + S n)%nat
        with (length (written w) + 1 + n)%nat by lia.
Qed.

(** The chunks a body is streamed as. *)
Definition chunks_of (b : Body) : list bytes :=
  match b with
  | BodyBytes x => [x]
  | BodyPayload p => payload_chunks p
  | BodyChunks l => l
  end.

(** X5. The body goes out in order and without gaps: after the streaming,
    the writer has been handed what it had before followed by the first
    [n] chunks of the body; [n] is the number of chunks when the streaming
    succeeded, and otherwise the position of the chunk whose write
    failed, so that nothing after a failed write is sent. *)
Theorem body_streamed_in_order (wd1 wd2 : World) (r : option exn) :
  stream_body env wd1 = (r, wd2) ->
  let chunks := chunks_of (ClientRequest.body (req wd1)) in
  exists n,
    (n <= length chunks)%nat
    /\ written (writer wd2) = written (writer wd1) ++ firstn n chunks
    /\ (r = None -> n = length chunks)
    /\ (forall e, r = Some e ->
          (n < length chunks)%nat
          /\ write_outcome env (length (written (writer wd1)) + n) (nth n chunks [])
             = Some e).
Proof.
  intros H. cbv zeta. unfold stream_body in H.
  destruct (ClientRequest.body (req wd1)) as [b|p|l]; simpl chunks_of;
    match type of H with
    | context [write_chunks env ?c ?w] =>
        destruct (write_chunks env c w) as [r' w'] eqn:E
    end; injection H as <- <-; simpl writer;
    exact (write_chunks_prefix _ _ _ _ E).
Qed.

End Run.

Lemma write_bytes_cancelled_before_body_witness :
  fst (write_bytes (mkEnv None (Some CancelledError) (fun _ _ => None) None) "c"
         (mkWorld
            (ClientRequest.with_continue
               (example_request HttpVersion11 [("Expect", "100-continue")])
               (Some PendingFuture))
            (mkWriter [] false 0) (mkProtocol None false)))
  = Ok tt.
Proof.
  destruct (write_bytes_cancelled_before_body
              (mkEnv None (Some CancelledError) (fun _ _ => None) None) "c"
              (mkWorld
                 (ClientRequest.with_continue
                    (example_request HttpVersion11 [("Expect", "100-continue")])
                    (Some PendingFuture))
                 (mkWriter [] false 0) (mkProtocol None false)))
    as [H _].
  destruct (H PendingFuture CancelledError eq_refl (or_intror (conj eq_refl eq_refl)))
    as [Hr _].
  exact Hr.
Defined.

Lemma write_bytes_cancelled_while_streaming_witness :
  write_bytes (mkEnv None None (fun n _ => if Nat.eqb n 1 then Some CancelledError else None)
                 None) "c"
    (example_write_world (BodyChunks [[Byte.x61]; [Byte.x62]; [Byte.x63]]))
  = (Ok tt,
     mkWorld
       (ClientRequest.with_body (example_request HttpVersion11 [("Host", "example.com")])
          (BodyChunks [[Byte.x61]; [Byte.x62]; [Byte.x63]]))
       (mkWriter [[Byte.x61]] true 0) (mkProtocol None false)).
Proof.
  destruct (write_bytes_cancelled_while_streaming
              (mkEnv None None
                 (fun n _ => if Nat.eqb n 1 then Some CancelledError else None) None)
              "c"
              (example_write_world (BodyChunks [[Byte.x61]; [Byte.x62]; [Byte.x63]]))
              (example_write_world (BodyChunks [[Byte.x61]; [Byte.x62]; [Byte.x63]]))
              (mkWorld
                 (ClientRequest.with_body
                    (example_request HttpVersion11 [("Host", "example.com")])
                    (BodyChunks [[Byte.x61]; [Byte.x62]; [Byte.x63]]))
                 (mkWriter [[Byte.x61]] false 0) (mkProtocol None false))
              CancelledError eq_refl eq_refl) as [H _].
  exact (H eq_refl eq_refl).
Defined.

Lemma body_streamed_in_order_witness :
  exists n,
    (n <= 3)%nat
    /\ written (mkWriter [[Byte.x61]] false 0) = [] ++ firstn n [[Byte.x61]; [Byte.x62]; [Byte.x63]].
Proof.
  destruct (body_streamed_in_order
              (mkEnv None None
                 (fun n _ => if Nat.eqb n 1 then Some CancelledError else None) None)
              (example_write_world (BodyChunks [[Byte.x61]; [Byte.x62]; [Byte.x63]]))
              (mkWorld
                 (ClientRequest.with_body
                    (example_request HttpVersion11 [("Host", "example.com")])
                    (BodyChunks [[Byte.x61]; [Byte.x62]; [Byte.x63]]))
                 (mkWriter [[Byte.x61]] false 0) (mkProtocol None false))
              (Some CancelledError) eq_refl) as (n & Hn & Hw & _).
  exists n. split; [exact Hn|exact Hw].
Defined.

End WriterFacts.

(** ** [ClientResponse]: start, close, and what reaches the pool *)

Module ResponseFacts.
Import ClientResponse.

(** A head that [start] discards: 1xx, except 101. *)
Definition informational (m : RawResponseMessage) : bool :=
  negb ((msg_code m <? 100)%Z || (msg_code m >? 199)%Z || (msg_code m =? 101)%Z).

(** What the protocol delivered before the final head: informational
    heads only. *)
Definition all_informational
    (pre : list (result HttpProcessingError (RawResponseMessage * StreamReader))) : Prop :=
  Forall (fun x => exists m p, x = Ok (m, p) /\ informational m = true) pre.

(** The waiter as the loop of [start] leaves it after the heads [pre]. *)
Definition continue_after
    (pre : list (result HttpProcessingError (RawResponseMessage * StreamReader)))
    (self : t) : t :=
  match pre, _continue self with
  | _ :: _, Some _ => with_continue self None
  | _, _ => self
  end.

Lemma start_loop_skips pre :
  all_informational pre ->
  forall rest self,
    start_loop (pre ++ rest) self = start_loop rest (continue_after pre self).
Proof.
  induction 1 as [|x pre' (m & p & -> & Hi) _ IH]; intros rest self.
  - simpl. unfold continue_after. simpl. now destruct (_continue self).
  - simpl. unfold informational in Hi. apply negb_true_iff in Hi. rewrite Hi.
    rewrite IH. f_equal.
    unfold continue_after.
    destruct (_continue self) eqn:E; destruct pre' as [|y pre'']; simpl;
      rewrite ?E; reflexivity.
Qed.

Lemma response_eof_head (w : World) :
  _continue (resp (_response_eof w)) = _continue (resp w)
  /\ _request_info (resp (_response_eof w)) = _request_info (resp w)
  /\ _history (resp (_response_eof w)) = _history (resp w)
  /\ _body (resp (_response_eof w)) = _body (resp w).
Proof.
  unfold _response_eof, _cleanup_writer, _release_connection, task_cancel,
    add_done_callback, connection_release.
  repeat break_match; simpl; auto.
Qed.

(** X6. [start] discards the informational heads (1xx other than 101) that
    come before the final one and takes status, reason, version, headers
    and payload from the first head that is not informational, 101
    included; the 100-continue waiter is dropped as soon as one
    informational head was seen and kept otherwise. What the protocol
    delivers after the final head is not read. *)
Theorem start_skips_informational pre m p post (connection : Connection) (w : World) :
  all_informational pre ->
  informational m = false ->
  let r := start (pre ++ Ok (m, p) :: post) connection w in
  fst r = Some (Ok tt)
  /\ status (resp (snd r)) = Some (msg_code m)
  /\ reason (resp (snd r)) = Some (msg_reason m)
  /\ version (resp (snd r)) = Some (msg_version m)
  /\ _headers (resp (snd r)) = Some (msg_headers m)
  /\ content (resp (snd r)) = Some p
  /\ _continue (resp (snd r))
     = match pre with [] => _continue (resp w) | _ :: _ => None end.
Proof.
  intros Hpre Hm r. subst r. unfold start.
  rewrite (start_loop_skips pre Hpre). simpl start_loop.
  unfold informational in Hm. apply negb_false_iff in Hm. rewrite Hm.
  set (self := continue_after pre
                 (with_connection (with_closed (resp w) false) (Some connection))).
  assert (Hc : _continue self
               = match pre with [] => _continue (resp w) | _ :: _ => None end).
  { subst self. unfold continue_after.
    destruct pre; simpl; [reflexivity|].
    destruct (_continue (resp w)) eqn:E; simpl; rewrite ?E; reflexivity. }
  simpl. repeat split.
  rewrite <- Hc. destruct (stream_at_eof p); [|reflexivity].
  apply (proj1 (response_eof_head (with_resp w self))).
Qed.

(** X7. A head the protocol cannot parse, coming after informational heads
    only, makes [start] raise a response error with the request info, the
    history and the code, message and headers of the parse error; the
    response keeps no status. And while the protocol has delivered
    informational heads only, [start] has not returned. *)
Theorem start_translates_parse_errors pre exc post (connection : Connection) (w : World) :
  all_informational pre ->
  (let r := start (pre ++ Raise exc :: post) connection w in
   fst r = Some (Raise (ClientResponseError (_request_info (resp w)) (_history (resp w))
                          (Some (hpe_code exc)) (hpe_message exc) (hpe_headers exc)))
   /\ status (resp (snd r)) = status (resp w)
   /\ content (resp (snd r)) = content (resp w)
   /\ pool (snd r) = pool w)
  /\ fst (start pre connection w) = None.
Proof.
  intros Hpre.
  set (self0 := with_connection (with_closed (resp w) false) (Some connection)).
  assert (Hframe : _request_info (continue_after pre self0) = _request_info (resp w)
                   /\ _history (continue_after pre self0) = _history (resp w)
                   /\ status (continue_after pre self0) = status (resp w)
                   /\ content (continue_after pre self0) = content (resp w)).
  { unfold continue_after. destruct pre; [|destruct (_continue self0)]; repeat split. }
  destruct Hframe as (Hri & Hhi & Hst & Hco).
  split.
  - unfold start. fold self0. rewrite (start_loop_skips pre Hpre). simpl.
    rewrite Hri, Hhi. repeat split; assumption.
  - unfold start. fold self0.
    rewrite <- (app_nil_r pre), (start_loop_skips pre Hpre). reflexivity.
Qed.

Definition head (code : Z) (reason_ : string) : RawResponseMessage :=
  mkMessage HttpVersion11 code reason_ [("Server", "x")].

(** Scenario C of the specification: [100 Continue], then [200 OK]. *)
Lemma start_skips_informational_witness :
  let r := start [Ok (head 100 "Continue", mkStream None true [] 0 false);
                  Ok (head 200 "OK", mkStream None false [] 0 false)]
             (mkConnection 7 (Some false))
             (ReleaseOrder.fresh "POST" (Some PendingFuture) example_request_info None
                false false false) in
  status (resp (snd r)) = Some 200%Z /\ _continue (resp (snd r)) = None.
Proof.
  destruct (start_skips_informational
              [Ok (head 100 "Continue", mkStream None true [] 0 false)]
              (head 200 "OK") (mkStream None false [] 0 false) []
              (mkConnection 7 (Some false))
              (ReleaseOrder.fresh "POST" (Some PendingFuture) example_request_info None
                 false false false))
    as (_ & Hs & _ & _ & _ & _ & Hc).
  - constructor; [|constructor]. eexists. eexists. split; reflexivity.
  - reflexivity.
  - split; [exact Hs|exact Hc].
Defined.

Lemma start_translates_parse_errors_witness :
  fst (start [Ok (head 100 "Continue", mkStream None true [] 0 false);
              Raise (mkHttpError 400 "Bad status line" None)]
         (mkConnection 7 (Some false))
         (ReleaseOrder.fresh "GET" None example_request_info None true false false))
  = Some (Raise (ClientResponseError example_request_info [] (Some 400%Z)
                   "Bad status line" None)).
Proof.
  destruct (start_translates_parse_errors
              [Ok (head 100 "Continue", mkStream None true [] 0 false)]
              (mkHttpError 400 "Bad status line" None) []
              (mkConnection 7 (Some false))
              (ReleaseOrder.fresh "GET" None example_request_info None true false false))
    as [(H & _) _].
  - constructor; [|constructor]. eexists. eexists. split; reflexivity.
  - exact H.
Defined.

(** *** [close] *)

Lemma cleanup_writer_twice (w : World) :
  _cleanup_writer (_cleanup_writer w) = _cleanup_writer w.
Proof.
  destruct w as [r k q p lc ld wn]. destruct r. destruct k as [d cr cbs].
  unfold _cleanup_writer, task_cancel. simpl.
  destruct _writer0; simpl; [|reflexivity].
  destruct d; simpl; reflexivity.
Qed.

(** X8. [close] never returns the connection to the pool: on an open loop
    the connection, if one is bound, is closed and unbound, and the writer
    task, if its handle is still held, is asked to cancel; on a closed loop
    only the flags change and the connection stays bound, neither closed
    nor released. In both cases the response ends up closed and released,
    no observer is added to the writer task, and a second [close] changes
    nothing. *)
Theorem close_never_releases (w : World) :
  let w' := close w in
  closed (resp w') = true
  /\ _released (resp w') = true
  /\ callbacks (task w') = callbacks (task w)
  /\ ready w' = ready w
  /\ (if loop_closed w
      then pool w' = pool w /\ _connection (resp w') = _connection (resp w)
           /\ task w' = task w
      else _connection (resp w') = None
           /\ pool w' = match _connection (resp w) with
                        | Some c => PoolClose c :: pool w
                        | None => pool w
                        end
           /\ match _writer (resp w) with
              | Some _ => done (task w') = false -> cancel_requested (task w') = true
              | None => task w' = task w
              end)
  /\ close w' = w'.
Proof.
  destruct w as [r k q p lc ld wn]. destruct r. destruct k as [d cr cbs].
  destruct _released0, lc, _writer0, d, _connection0, content0 as [[[e|] ? ? ? [|]]|];
    cbv; repeat split; easy.
Qed.

Lemma close_never_releases_witness :
  pool (close ReleaseOrder.scenario_D) = [PoolClose (mkConnection 7 (Some false))]
  /\ cancel_requested (task (close ReleaseOrder.scenario_D)) = true.
Proof.
  destruct (close_never_releases ReleaseOrder.scenario_D) as (_ & _ & _ & _ & H & _).
  vm_compute in H. destruct H as (_ & Hp & Hc).
  split; [exact Hp|]. apply Hc. reflexivity.
Defined.

(** *** An upgraded connection *)

(** X9. While the connection bound to the response is upgraded, the end of
    the payload does nothing at all, and a [read] that returns leaves the
    connection bound, the pool, the writer task and the loop untouched, and
    does not close the response: it neither releases nor waits for the
    writer. *)
Theorem upgraded_connection_is_kept (w : World) (c : Connection) :
  _connection (resp w) = Some c ->
  conn_protocol c = Some true ->
  _response_eof w = w
  /\ forall env b,
       fst (read env w) = Ok b ->
       let w' := snd (read env w) in
       _connection (resp w') = Some c
       /\ pool w' = pool w /\ task w' = task w /\ ready w' = ready w
       /\ _closed (resp w') = _closed (resp w)
       /\ _released (resp w') = _released (resp w).
Proof.
  intros Hc Hup.
  assert (Heof : forall w0, _connection (resp w0) = Some c -> _response_eof w0 = w0).
  { intros w0 H0. unfold _response_eof. rewrite H0, Hup. now destruct (_closed (resp w0)). }
  split; [now apply Heof|].
  intros env b. unfold read.
  destruct (_body (resp w)) as [body|] eqn:Hb.
  - destruct (_released (resp w)) eqn:Hrel; simpl; [discriminate|].
    rewrite Hc, Hup. simpl. intros _. repeat split; auto.
  - destruct (content (resp w)) as [s|]; [|simpl; discriminate].
    destruct (stream_read (incoming env) s) as [[[data|e] s'] eof_now];
      [|simpl; discriminate].
    set (w1 := with_resp w (with_content (resp w) (Some s'))).
    assert (E : (if eof_now then _response_eof w1 else w1) = w1)
      by (destruct eof_now; [now apply Heof|reflexivity]).
    rewrite E.
    destruct (trace_outcome env); [simpl; discriminate|].
    simpl. rewrite Hc, Hup. simpl. intros _. repeat split; auto.
Qed.

Lemma upgraded_connection_is_kept_witness :
  let w := snd (start [Ok (head 101 "Switching Protocols", mkStream None false [] 0 false)]
                  (mkConnection 7 (Some true))
                  (ReleaseOrder.fresh "GET" None example_request_info None
                     true false false)) in
  _response_eof w = w.
Proof.
  apply (upgraded_connection_is_kept _ (mkConnection 7 (Some true)));
    reflexivity.
Defined.

(** *** What reaches the pool *)

(** The connection [c] that [start] bound is either still bound, and the
    pool has seen nothing, or unbound, and the pool has seen at most one
    event: its release or its close. *)
Definition handed_back (c : Connection) (w : World) : Prop :=
  match _connection (resp w) with
  | Some c' => c' = c /\ pool w = []
  | None => pool w = [] \/ (exists d, pool w = [PoolRelease c d]) \/ pool w = [PoolClose c]
  end.

Lemma handed_back_frame c (w w' : World) :
  _connection (resp w') = _connection (resp w) -> pool w' = pool w ->
  handed_back c w -> handed_back c w'.
Proof. unfold handed_back. intros -> ->. auto. Qed.

Lemma hb_add_done_callback cb c w : handed_back c w -> handed_back c (add_done_callback cb w).
Proof.
  apply handed_back_frame; unfold add_done_callback; destruct (done (task w)); reflexivity.
Qed.

Lemma hb_task_finish c w : handed_back c w -> handed_back c (task_finish w).
Proof.
  apply handed_back_frame; unfold task_finish; destruct (done (task w)); reflexivity.
Qed.

Lemma hb_cleanup_writer c w : handed_back c w -> handed_back c (_cleanup_writer w).
Proof.
  apply handed_back_frame; unfold _cleanup_writer, task_cancel;
    destruct (_writer (resp w)); try destruct (done (task w)); reflexivity.
Qed.

Lemma hb_notify_content c w :
  handed_back c w ->
  handed_back c (if negb (_released (resp w)) then _notify_content w else w).
Proof.
  apply handed_back_frame; apply (ReleaseOrder.notify_content_frame w).
Qed.

Lemma hb_closed_flag c w b :
  handed_back c w -> handed_back c (with_resp w (with_closed (resp w) b)).
Proof. now apply handed_back_frame. Qed.

Lemma hb_release_connection c w : handed_back c w -> handed_back c (_release_connection w).
Proof.
  intros H. unfold _release_connection.
  destruct (_connection (resp w)) as [c'|] eqn:Hc; [|exact H].
  destruct (_writer (resp w)); [now apply hb_add_done_callback|].
  unfold handed_back in H. rewrite Hc in H. destruct H as [-> Hp].
  unfold handed_back, connection_release. simpl.
  rewrite Hp. right. left. eexists. reflexivity.
Qed.

Lemma hb_response_eof c w : handed_back c w -> handed_back c (_response_eof w).
Proof.
  intros H. unfold _response_eof.
  destruct (_closed (resp w)); [exact H|].
  assert (Hgo : handed_back c (_release_connection
                  (_cleanup_writer (with_resp w (with_closed (resp w) true)))))
    by now apply hb_release_connection, hb_cleanup_writer, hb_closed_flag.
  destruct (_connection (resp w)) as [c'|]; [|exact Hgo].
  destruct (conn_protocol c') as [[|]|]; [exact H|exact Hgo|exact Hgo].
Qed.

Lemma hb_release c w : handed_back c w -> handed_back c (release w).
Proof.
  intros H. unfold release.
  now apply hb_release_connection, hb_cleanup_writer, hb_closed_flag, hb_notify_content.
Qed.

Lemma hb_close c w : handed_back c w -> handed_back c (close w).
Proof.
  intros H. unfold close.
  pose proof (hb_notify_content c w H) as H1.
  set (w1 := if negb (_released (resp w)) then _notify_content w else w) in *.
  pose proof (hb_closed_flag c w1 true H1) as H2.
  set (w2 := with_resp w1 (with_closed (resp w1) true)) in *.
  destruct (loop_closed w2); [exact H2|].
  pose proof (hb_cleanup_writer c w2 H2) as H3.
  remember (_cleanup_writer w2) as w3 eqn:E3.
  destruct (_connection (resp w3)) as [c'|] eqn:Hc; [|exact H3].
  unfold handed_back in H3. rewrite Hc in H3. destruct H3 as [-> Hp].
  unfold handed_back, connection_close. simpl.
  rewrite Hp. right. right. reflexivity.
Qed.

Lemma hb_run_callbacks c (cbs : list callback) :
  forall w, handed_back c w ->
            handed_back c (fold_left (fun w cb => run_callback cb w) cbs w).
Proof.
  induction cbs as [|cb rest IH]; simpl; intros w H; [exact H|].
  apply IH. destruct cb; simpl; [exact H|now apply hb_release_connection].
Qed.

Lemma hb_run_ready c w : handed_back c w -> handed_back c (run_ready w).
Proof. intros H. unfold run_ready. apply hb_run_callbacks. exact H. Qed.

Lemma hb_await_writer c outcome w :
  handed_back c w -> handed_back c (snd (await_writer outcome w)).
Proof.
  intros H. unfold await_writer.
  assert (H1 : handed_back c (if done (task w) then w else run_ready (task_finish w)))
    by (destruct (done (task w)); [exact H|now apply hb_run_ready, hb_task_finish]).
  destruct outcome; exact H1.
Qed.

Lemma hb_wait_released c outcome w :
  handed_back c w -> handed_back c (snd (_wait_released outcome w)).
Proof.
  intros H. unfold _wait_released.
  destruct (_writer (resp w)); [|now apply hb_release_connection].
  pose proof (hb_await_writer c outcome w H) as H1.
  destruct (await_writer outcome w) as [[u|e] w']; simpl in *;
    [now apply hb_release_connection|exact H1].
Qed.

Lemma hb_wait_for_close c outcome w :
  handed_back c w -> handed_back c (snd (wait_for_close outcome w)).
Proof.
  intros H. unfold wait_for_close.
  destruct (_writer (resp w)); [|now apply hb_release].
  pose proof (hb_await_writer c outcome w H) as H1.
  destruct (await_writer outcome w) as [[u|e] w']; simpl in *;
    [now apply hb_release|exact H1].
Qed.

Lemma hb_raise_for_status c w :
  handed_back c w -> handed_back c (snd (raise_for_status w)).
Proof.
  intros H. unfold raise_for_status.
  destruct (ok (resp w)) as [[|]|e]; simpl; auto.
  destruct (reason (resp w)); simpl; [now apply hb_release|exact H].
Qed.

Lemma hb_read c env w : handed_back c w -> handed_back c (snd (read env w)).
Proof.
  intros H. unfold read.
  set (tail := fun (filled : result exn unit * World) =>
    match filled with
    | (Raise e, w) => (Raise e, w)
    | (Ok _, w) =>
        match
          match match _connection (resp w) with
                | Some c => conn_protocol c
                | None => None
                end with
          | Some true => (Ok tt, w)
          | _ => _wait_released (writer_outcome env) w
          end
        with
        | (Raise e, w) => (Raise e, w)
        | (Ok _, w) => (Ok (_body (resp w)), w)
        end
    end).
  assert (Htail : forall f, handed_back c (snd f) -> handed_back c (snd (tail f))).
  { intros [[u|e] w'] H'; simpl in *; [|assumption].
    pose proof (hb_wait_released c (writer_outcome env) w' H') as Hw.
    destruct (_connection (resp w')) as [c'|].
    - destruct (conn_protocol c') as [[|]|]; simpl; auto;
        destruct (_wait_released (writer_outcome env) w') as [[u'|e'] w'']; simpl in *; auto.
    - destruct (_wait_released (writer_outcome env) w') as [[u'|e'] w'']; simpl in *; auto. }
  apply (Htail _).
  destruct (_body (resp w)) as [b|].
  - destruct (_released (resp w)); simpl; assumption.
  - destruct (content (resp w)) as [s|]; [|simpl; now apply hb_close].
    destruct (stream_read (incoming env) s) as [[[data|e] s'] eof_now].
    + set (w1 := with_resp w (with_content (resp w) (Some s'))).
      assert (H1 : handed_back c w1) by (now apply handed_back_frame with w).
      set (w2 := if eof_now then _response_eof w1 else w1).
      assert (H2 : handed_back c w2)
        by (subst w2; destruct eof_now; [now apply hb_response_eof|exact H1]).
      set (w3 := with_resp w2 (with_body (resp w2) (Some data))).
      assert (H3 : handed_back c w3) by (now apply handed_back_frame with w2).
      destruct (trace_outcome env); simpl; [now apply hb_close|exact H3].
    + simpl. apply hb_close. now apply handed_back_frame with w.
Qed.

Lemma start_loop_connection reads :
  forall self r self',
    start_loop reads self = (r, self') -> _connection self' = _connection self.
Proof.
  induction reads as [|[[m p]|exc] rest IH]; simpl; intros self r self' H.
  - now injection H as _ <-.
  - destruct ((msg_code m <? 100)%Z || (msg_code m >? 199)%Z || (msg_code m =? 101)%Z).
    + now injection H as _ <-.
    + apply IH in H. rewrite H. destruct (_continue self); reflexivity.
  - now injection H as _ <-.
Qed.

Lemma hb_start c reads w :
  pool w = [] -> handed_back c (snd (start reads c w)).
Proof.
  intros Hp. unfold start.
  destruct (start_loop reads _) as [[[[m p]|e]|] self] eqn:E;
    apply start_loop_connection in E; simpl in E; simpl.
  - assert (H0 : handed_back c (with_resp w self))
      by (unfold handed_back; simpl; rewrite E; auto).
    assert (H1 : handed_back c (if stream_at_eof p then _response_eof (with_resp w self)
                                else with_resp w self))
      by (destruct (stream_at_eof p); [now apply hb_response_eof|exact H0]).
    eapply handed_back_frame; [| |exact H1]; reflexivity.
  - unfold handed_back; simpl; rewrite E; auto.
  - unfold handed_back; simpl; rewrite E; auto.
Qed.

(** The events of a response in use: it is started once, and the
    finalizer runs on an object nobody uses any more. *)
Definition in_use (e : event) : bool :=
  match e with
  | EvStart _ _ | EvDel => false
  | _ => true
  end.

Lemma hb_step c e w : in_use e = true -> handed_back c w -> handed_back c (step e w).
Proof.
  intros He H. destruct e; simpl in *; try discriminate.
  - now apply hb_release.
  - now apply hb_response_eof.
  - now apply hb_close.
  - now apply hb_raise_for_status.
  - now apply hb_read.
  - now apply hb_wait_for_close.
  - now apply hb_release_connection.
  - now apply hb_task_finish.
  - now apply hb_run_ready.
Qed.

Lemma hb_run c evs :
  forall w, forallb in_use evs = true -> handed_back c w -> handed_back c (run evs w).
Proof.
  unfold run. induction evs as [|e rest IH]; simpl; intros w He H; [exact H|].
  apply andb_true_iff in He. destruct He as [He Hrest].
  apply IH; [exact Hrest|]. now apply hb_step.
Qed.

(** X10. Whatever is done with a response after [start] bound the
    connection [c] to it (reading, releasing, closing, raising for status,
    waiting, the payload ending, the writer task finishing, the loop
    running, in any order and any number of times), the pool sees at most
    one event for it, and it is either the release of [c], made when the
    writer task had finished, or the close of [c]; as long as the response
    still holds a connection, it is [c] and the pool has seen nothing. *)
Theorem connection_handed_back_at_most_once
    method_ continue100 request_info session task_done lc ld reads c evs :
  forallb in_use evs = true ->
  let w := run (EvStart reads c :: evs)
             (ReleaseOrder.fresh method_ continue100 request_info session
                task_done lc ld) in
  (pool w = [] \/ pool w = [PoolRelease c true] \/ pool w = [PoolClose c])
  /\ (forall c', _connection (resp w) = Some c' -> c' = c /\ pool w = []).
Proof.
  intros He w.
  set (w0 := ReleaseOrder.fresh method_ continue100 request_info session task_done lc ld)
    in *.
  assert (Hhb : handed_back c w).
  { subst w. change (run (EvStart reads c :: evs) w0)
      with (run evs (snd (start reads c w0))).
    apply hb_run; [exact He|]. apply hb_start.
    subst w0. unfold ReleaseOrder.fresh, init, set_writer, request_writer_handle.
    destruct task_done; reflexivity. }
  assert (HI : ReleaseOrder.Inv w).
  { subst w. apply ReleaseOrder.Inv_run; [|apply ReleaseOrder.Inv_fresh].
    simpl. clear Hhb. induction evs as [|e rest IH]; [reflexivity|].
    simpl in He. apply andb_true_iff in He. destruct He as [He Hrest].
    simpl. rewrite (IH Hrest), andb_true_r. now destruct e. }
  unfold handed_back in Hhb. split.
  - destruct (_connection (resp w)) as [c'|].
    + left. apply Hhb.
    + destruct Hhb as [Hp|[[d Hp]|Hp]]; auto.
      right. left. rewrite Hp.
      rewrite (ReleaseOrder.inv_pool _ HI c d); [reflexivity|].
      rewrite Hp. now left.
  - intros c' Hc. rewrite Hc in Hhb. exact Hhb.
Qed.

Lemma connection_handed_back_at_most_once_witness :
  let w := run [EvStart [Ok (head 200 "OK", mkStream None false [] 0 false)]
                  (mkConnection 7 (Some false));
                EvRelease; EvClose; EvTaskFinish; EvLoopTurn; EvRelease]
             (ReleaseOrder.fresh "POST" None example_request_info None
                false false false) in
  pool w = [] \/ pool w = [PoolRelease (mkConnection 7 (Some false)) true]
  \/ pool w = [PoolClose (mkConnection 7 (Some false))].
Proof.
  apply (connection_handed_back_at_most_once "POST" None example_request_info None
           false false false
           [Ok (head 200 "OK", mkStream None false [] 0 false)]
           (mkConnection 7 (Some false))
           [EvRelease; EvClose; EvTaskFinish; EvLoopTurn; EvRelease]).
  reflexivity.
Defined.

End ResponseFacts.

(** ** [ClientRequest]: the handle on the writer task *)

Module RequestWriterFacts.
Import RequestWriter.

(** What can happen to the request's handle and its task. *)
Inductive event :=
| EvSetWriter (h : option TaskHandle)   (* self._writer = h *)
| EvTerminate                           (* terminate() *)
| EvClose (outcome : option exn)        (* close(), run to its end *)
| EvObserve (id : nat)                  (* someone else observes the task *)
| EvCancel                              (* someone else cancels the task *)
| EvTaskFinish                          (* the task reaches a terminal state *)
| EvLoopTurn.                           (* the loop runs what it has scheduled *)

Definition step (e : event) (w : World) : World :=
  match e with
  | EvSetWriter h => set_writer h w
  | EvTerminate => terminate w
  | EvClose outcome => snd (close outcome w)
  | EvObserve id => add_done_callback (Foreign id) w
  | EvCancel => task_cancel w
  | EvTaskFinish => task_finish w
  | EvLoopTurn => run_scheduled w
  end.

Definition run (evs : list event) (w : World) : World :=
  fold_left (fun w e => step e w) evs w.

(** The request as [__init__] leaves it, and the task [send] makes. *)
Definition fresh (task_done loop_closed_ : bool) : World :=
  mkWorld None (mkTask task_done false []) [] loop_closed_.

Definition reachable (w : World) : Prop :=
  exists task_done lc evs, w = run evs (fresh task_done lc).

(** How often the request's own observer sits on the task. *)
Definition own_observers (w : World) : nat :=
  length (filter (observer_eqb ReqResetWriter) (callbacks (task w))).

(** The observers of others, in order. *)
Definition foreign (l : list observer) : list observer :=
  filter (fun c => negb (observer_eqb c ReqResetWriter)) l.

Record Inv (w : World) : Prop := mkInv {
  inv_done : done (task w) = true -> callbacks (task w) = [];
  inv_idle : done (task w) = false -> scheduled w = [];
  inv_own : own_observers w
            = match _writer w with
              | Some _ => if done (task w) then 0 else 1
              | None => 0
              end;
  inv_pending : forall h, _writer w = Some h -> done (task w) = true ->
                          In ReqResetWriter (scheduled w)
}.

Lemma own_app l1 l2 :
  length (filter (observer_eqb ReqResetWriter) (l1 ++ l2))
  = length (filter (observer_eqb ReqResetWriter) l1)
    + length (filter (observer_eqb ReqResetWriter) l2).
Proof. now rewrite filter_app, length_app. Qed.

Lemma own_foreign l : length (filter (observer_eqb ReqResetWriter) (foreign l)) = 0.
Proof.
  unfold foreign. induction l as [|[|id] l IH]; simpl; auto.
Qed.

Lemma own_in l :
  length (filter (observer_eqb ReqResetWriter) l) = 1 -> In ReqResetWriter l.
Proof.
  induction l as [|[|id] l IH]; simpl; intros H; [discriminate|now left|].
  right. now apply IH.
Qed.

Lemma foreign_twice l : foreign (foreign l) = foreign l.
Proof.
  unfold foreign. induction l as [|[|id] l IH]; simpl; auto. now rewrite IH.
Qed.

Lemma writer_Inv_remove w : Inv w -> own_observers (remove_done_callback ReqResetWriter w) = 0.
Proof. intros _. unfold own_observers, remove_done_callback. simpl. apply own_foreign. Qed.

Lemma writer_Inv_set_writer h w : Inv w -> Inv (set_writer h w).
Proof.
  intros [I1 I2 I3 I4]. unfold set_writer, own_observers in *.
  destruct w as [hw [d cr cbs] q lc]. simpl in *.
  destruct hw as [h0|]; destruct h as [h1|]; destruct d; simpl in *;
    unfold __reset_writer, add_done_callback, remove_done_callback; simpl;
    constructor; simpl; unfold own_observers; simpl;
    rewrite ?I1, ?own_app, ?own_foreign by reflexivity; simpl;
    auto; try discriminate; try lia.
  all: try (intros _; rewrite I1 by reflexivity; reflexivity).
Qed.

Lemma writer_Inv_task_cancel w : Inv w -> Inv (task_cancel w).
Proof.
  intros [I1 I2 I3 I4]. unfold task_cancel.
  destruct (done (task w)) eqn:Hd; [constructor; rewrite ?Hd; auto|].
  constructor; simpl; auto; discriminate.
Qed.

Lemma writer_Inv_terminate w : Inv w -> Inv (terminate w).
Proof.
  intros [I1 I2 I3 I4]. unfold terminate, set_writer, own_observers in *.
  destruct w as [hw [d cr cbs] q lc]. simpl in *.
  destruct hw as [h0|]; [|constructor; auto].
  destruct lc, d; simpl;
    unfold remove_done_callback, task_cancel; simpl;
    constructor; simpl; unfold own_observers; simpl;
    rewrite ?I1 by reflexivity; simpl; auto; try discriminate.
  all: fold (foreign cbs); fold (foreign (foreign cbs)); apply own_foreign.
Qed.

Lemma writer_Inv_add_foreign id w : Inv w -> Inv (add_done_callback (Foreign id) w).
Proof.
  intros [I1 I2 I3 I4]. unfold add_done_callback.
  destruct (done (task w)) eqn:Hd.
  - constructor; simpl; rewrite ?Hd; auto; try discriminate.
    intros h Hh _. apply in_or_app. left. now apply (I4 h).
  - constructor; simpl; auto; try discriminate.
    unfold own_observers in *. simpl. rewrite own_app, I3. simpl. lia.
Qed.

Lemma writer_Inv_task_finish w : Inv w -> Inv (task_finish w).
Proof.
  intros [I1 I2 I3 I4]. unfold task_finish.
  destruct (done (task w)) eqn:Hd; [constructor; rewrite ?Hd; auto|].
  constructor; simpl; auto; try discriminate.
  - unfold own_observers. simpl. now destruct (_writer w).
  - intros h Hh _. apply in_or_app. right. apply own_in.
    unfold own_observers in I3. rewrite I3, Hh. reflexivity.
Qed.

(** Running the scheduled observers clears the handle if the request's own
    observer is among them, and touches nothing else. *)
Lemma run_observers (cbs : list observer) :
  forall w,
    let w' := fold_left (fun w cb => run_observer cb w) cbs w in
    task w' = task w /\ scheduled w' = scheduled w /\ loop_closed w' = loop_closed w
    /\ _writer w' = if existsb (observer_eqb ReqResetWriter) cbs then None else _writer w.
Proof.
  induction cbs as [|[|id] rest IH]; intros w; simpl.
  - auto.
  - destruct (IH (__reset_writer w)) as (A & B & C & D). simpl in *.
    repeat split; auto. rewrite D. now destruct (existsb _ rest).
  - apply IH.
Qed.

Lemma existsb_own l :
  In ReqResetWriter l -> existsb (observer_eqb ReqResetWriter) l = true.
Proof. intros H. apply existsb_exists. exists ReqResetWriter. now split. Qed.

Lemma writer_Inv_run_scheduled w : Inv w -> Inv (run_scheduled w).
Proof.
  intros [I1 I2 I3 I4]. unfold run_scheduled.
  destruct (run_observers (scheduled w) (with_scheduled w [])) as (A & B & C & D).
  simpl in *.
  constructor; unfold own_observers in *; rewrite ?A, ?B, ?D; simpl; auto.
  - destruct (done (task w)) eqn:Hd.
    + rewrite (I1 eq_refl). simpl. now destruct (if existsb _ _ then _ else _).
    + rewrite (I2 eq_refl). simpl. exact I3.
  - intros h Hh Hd. destruct (_writer w) as [h0|] eqn:Hw.
    + rewrite (existsb_own _ (I4 h0 eq_refl Hd)) in Hh. discriminate.
    + now destruct (existsb _ _).
Qed.

Lemma writer_Inv_close outcome w : Inv w -> Inv (snd (close outcome w)).
Proof.
  intros HI. unfold close.
  destruct (_writer w); [|exact HI].
  assert (H : Inv (if done (task w) then w else run_scheduled (task_finish w)))
    by (destruct (done (task w)); [exact HI|now apply writer_Inv_run_scheduled, writer_Inv_task_finish]).
  destruct outcome as [e|]; [destruct (classify e)|]; exact H.
Qed.

Lemma writer_Inv_step e w : Inv w -> Inv (step e w).
Proof.
  intros HI. destruct e; simpl.
  - now apply writer_Inv_set_writer.
  - now apply writer_Inv_terminate.
  - now apply writer_Inv_close.
  - now apply writer_Inv_add_foreign.
  - now apply writer_Inv_task_cancel.
  - now apply writer_Inv_task_finish.
  - now apply writer_Inv_run_scheduled.
Qed.

Lemma writer_Inv_run evs : forall w, Inv w -> Inv (run evs w).
Proof.
  unfold run. induction evs as [|e rest IH]; simpl; intros w HI; [assumption|].
  apply IH, writer_Inv_step, HI.
Qed.

Lemma writer_Inv_fresh d lc : Inv (fresh d lc).
Proof. constructor; simpl; auto; discriminate. Qed.

Lemma writer_Inv_reachable w : reachable w -> Inv w.
Proof. intros (d & lc & evs & ->). apply writer_Inv_run, writer_Inv_fresh. Qed.

Lemma writer_done_task_finish w : done (task (task_finish w)) = true.
Proof. unfold task_finish. destruct (done (task w)) eqn:Hd; simpl; auto. Qed.

(** X11. At every moment the request's own observer [__reset_writer] sits
    on the writer task exactly once while the request holds the handle of
    an unfinished task, and not at all otherwise: assigning the handle
    again, terminating, or others observing and cancelling the task never
    pile up observers nor leave one behind. *)
Theorem request_observes_writer_while_held (w : World) :
  reachable w ->
  own_observers w
  = match _writer w with
    | Some _ => if done (task w) then 0 else 1
    | None => 0
    end.
Proof. intros H. apply inv_own, writer_Inv_reachable, H. Qed.

Lemma request_observes_writer_while_held_witness :
  own_observers (run [EvSetWriter (Some WriterTask); EvObserve 1;
                      EvSetWriter (Some WriterTask); EvCancel]
                   (fresh false false)) = 1.
Proof.
  apply (request_observes_writer_while_held
           (run [EvSetWriter (Some WriterTask); EvObserve 1;
                 EvSetWriter (Some WriterTask); EvCancel] (fresh false false))).
  exists false, false. eexists. reflexivity.
Defined.

(** X12. The handle does not outlive the writer task by more than one turn
    of the loop: in every state the request can reach, once the task has
    finished and the loop has run the observers, the handle is cleared; a
    handle assigned when the task has already finished is cleared at once;
    and [close] called after that returns without waiting and without
    raising, whatever the task ended with. *)
Theorem request_handle_cleared_after_writer (w : World) :
  reachable w ->
  _writer (run_scheduled (task_finish w)) = None
  /\ (done (task w) = true -> forall h, _writer (set_writer h w) = None)
  /\ forall outcome,
       close outcome (run_scheduled (task_finish w))
       = (Ok tt, run_scheduled (task_finish w)).
Proof.
  intros Hr. pose proof (writer_Inv_reachable _ Hr) as HI.
  assert (H : _writer (run_scheduled (task_finish w)) = None).
  { pose proof (writer_Inv_task_finish _ HI) as [I1 I2 I3 I4].
    unfold run_scheduled.
    destruct (run_observers (scheduled (task_finish w))
                (with_scheduled (task_finish w) [])) as (_ & _ & _ & D).
    simpl in D. rewrite D.
    destruct (_writer (task_finish w)) as [h|] eqn:Hw.
    - rewrite (existsb_own _ (I4 h eq_refl (writer_done_task_finish w))). reflexivity.
    - now destruct (existsb _ _). }
  split; [exact H|]. split.
  - intros Hd h. unfold set_writer.
    destruct h as [h|]; [|now destruct (_writer w)].
    destruct (_writer w); simpl; rewrite Hd; reflexivity.
  - intros outcome. unfold close. rewrite H. reflexivity.
Qed.

Lemma request_handle_cleared_after_writer_witness :
  _writer (run_scheduled (task_finish
             (run [EvSetWriter (Some WriterTask); EvObserve 1; EvCancel]
                (fresh false false)))) = None.
Proof.
  apply (request_handle_cleared_after_writer
           (run [EvSetWriter (Some WriterTask); EvObserve 1; EvCancel]
              (fresh false false))).
  exists false, false. eexists. reflexivity.
Defined.

(** X13. [terminate] lets go of the writer task: the handle is cleared and
    the request's own observer is taken off the task, while the observers
    of others (the response's) stay, in their order; the task is asked to
    cancel unless it has finished or the loop is closed, in which case the
    task is not touched; what the loop has already scheduled stays
    scheduled. Without a handle [terminate] does nothing, so a second
    [terminate] changes nothing. *)
Theorem terminate_detaches (w : World) :
  let w' := terminate w in
  _writer w' = None
  /\ scheduled w' = scheduled w
  /\ done (task w') = done (task w)
  /\ match _writer w with
     | Some _ =>
         callbacks (task w') = foreign (callbacks (task w))
         /\ cancel_requested (task w')
            = (if done (task w) || loop_closed w then cancel_requested (task w)
               else true)
     | None => w' = w
     end
  /\ terminate w' = w'.
Proof.
  destruct w as [hw [d cr cbs] q lc].
  unfold terminate, set_writer, remove_done_callback, task_cancel. simpl.
  destruct hw as [h|]; [|repeat split].
  destruct lc, d; simpl; repeat split; fold (foreign cbs); apply foreign_twice.
Qed.

End RequestWriterFacts.

(** ** [ClientRequest.__init__]: what the built request carries *)

Module ConstructorFacts.
Import CIMultiDict CIMultiDictFacts NegotiationFacts.

Lemma contains_congr d a b : key_eqb a b = true -> contains d a = contains d b.
Proof.
  intros H. unfold contains. induction d as [|[k v] rest IH]; simpl; [reflexivity|].
  rewrite IH. f_equal. rewrite (key_eqb_sym k a), (key_eqb_sym k b).
  now apply key_eqb_congr.
Qed.

Lemma contains_app a b k : contains (a ++ b) k = contains a k || contains b k.
Proof. unfold contains. apply existsb_app. Qed.

Lemma contains_false_getall d k : contains d k = false -> getall d k = [].
Proof. rewrite contains_getall. now destruct (getall d k). Qed.

Lemma contains_setitem d k' v k :
  contains (setitem d k' v) k = key_eqb k' k || contains d k.
Proof.
  rewrite !contains_getall, getall_setitem.
  destruct (key_eqb k' k); reflexivity.
Qed.

(** The first value only. *)
Definition first_of (l : list string) : list string :=
  match l with v :: _ => [v] | [] => [] end.

(** The loop that copies the payload's headers, for any header name: a
    name the request has, or the caller told to skip, is left alone;
    otherwise the payload's first value for it is taken. *)
Lemma fold_copy_payload_headers_any skip k (ph : list (string * string)) :
  forall h,
    getall (fold_left (ClientRequest.copy_payload_header skip) ph h) k
    = if contains h k || contains skip k then getall h k
      else first_of (getall ph k).
Proof.
  induction ph as [|[key value] rest IH]; intros h; simpl.
  - destruct (contains h k || contains skip k) eqn:E; [reflexivity|].
    apply orb_false_iff in E. now apply contains_false_getall.
  - rewrite IH, getall_cons.
    destruct (key_eqb key k) eqn:Ek.
    + pose proof (contains_congr h _ _ Ek) as Hh.
      pose proof (contains_congr skip _ _ Ek) as Hs.
      destruct (contains h key) eqn:Eh; [now rewrite <- Hh|].
      destruct (contains skip key) eqn:Es;
        [rewrite <- Hh, <- Hs; now rewrite orb_true_r|].
      rewrite contains_setitem, Ek, <- Hh, <- Hs. simpl.
      rewrite getall_setitem, Ek. reflexivity.
    + assert (Hsame : forall h',
                (h' = h \/ h' = setitem h key value) ->
                contains h' k = contains h k /\ getall h' k = getall h k).
      { intros h' [->| ->]; [auto|].
        now rewrite contains_setitem, getall_setitem, Ek. }
      simpl.
      destruct (contains h key); [reflexivity|].
      destruct (contains skip key); [reflexivity|].
      destruct (Hsame (setitem h key value) (or_intror eq_refl)) as [-> ->].
      reflexivity.
Qed.

Lemma last_cons {A : Type} (a d : A) (l : list A) : last (a :: l) d = last l a.
Proof.
  revert a d. induction l as [|b l IH]; intros a d; [reflexivity|].
  change (last (a :: b :: l) d) with (last (b :: l) d). rewrite !IH. reflexivity.
Qed.

Section Built.
Variable is_ipv6_address : string -> bool.
Variable SERVER_SOFTWARE : string.
Variable HAS_BROTLI : bool.
Variable cookie_output : option string -> list (string * string) -> string.
Variable BasicAuth_encode : BasicAuth -> string.
Variable netrc_auth : string -> option BasicAuth.
Variable parse_mimetype : string -> MimeType.
Variable with_fragment_none : URL -> URL.
Variable repr : string -> string.

(** *** The steps, one header name at a time *)

(** The Host value [update_headers] derives from the URL. *)
Definition netloc (u : URL) : string :=
  let netloc := match raw_host u with Some h => h | None => "" end in
  let netloc := if is_ipv6_address netloc then ("[" ++ netloc ++ "]")%string else netloc in
  let netloc := rstrip_dot netloc in
  match url_port u with
  | Some p =>
      if negb (is_default_port u) then (netloc ++ ":" ++ str_of_Z p)%string
      else netloc
  | None => netloc
  end.

Lemma fold_caller_host (l : list (string * string)) :
  forall acc v,
    getall acc hdrs.HOST = [v] ->
    getall (fold_left ClientRequest.add_caller_header l acc) hdrs.HOST
    = [last (getall l hdrs.HOST) v].
Proof.
  induction l as [|[key value] rest IH]; intros acc v Hacc; simpl; [exact Hacc|].
  rewrite getall_cons.
  destruct (String.eqb (lower key) "host") eqn:E.
  - assert (Hk : key_eqb key hdrs.HOST = true) by exact E.
    rewrite Hk. simpl app. rewrite last_cons.
    apply IH. now rewrite getall_setitem, Hk.
  - assert (Hk : key_eqb key hdrs.HOST = false) by exact E.
    rewrite Hk. simpl app.
    apply IH. rewrite getall_add, Hk, app_nil_r. exact Hacc.
Qed.

Lemma getall_update_headers_host s hs :
  getall (ClientRequest.headers (ClientRequest.update_headers is_ipv6_address s hs))
    hdrs.HOST
  = [last (getall (hdrs_of hs) hdrs.HOST) (netloc (ClientRequest.url s))].
Proof.
  unfold ClientRequest.update_headers. fold (netloc (ClientRequest.url s)).
  destruct hs as [l|]; simpl ClientRequest.headers.
  - apply fold_caller_host. reflexivity.
  - reflexivity.
Qed.

(** The value [update_auto_headers] gives a header nobody provided. *)
Definition auto_default (k : string) : list string :=
  if key_eqb hdrs.ACCEPT k then ["*/*"]
  else if key_eqb hdrs.ACCEPT_ENCODING k
       then [ClientRequest._gen_default_accept_encoding HAS_BROTLI]
  else if key_eqb hdrs.USER_AGENT k then [SERVER_SOFTWARE]
  else [].

(** The names on the skip list. *)
Definition skip_dict (skip : list string) : CIMultiDict.t :=
  map (fun hdr => (hdr, "")) skip.

(** The skip list as [update_auto_headers] stores it: sorted. *)
Definition stored_skip (skip : list string) : CIMultiDict.t :=
  map (fun hdr => (hdr, "")) (sorted skip).

Lemma existsb_insert_sorted (f : string -> bool) x l :
  existsb f (insert_sorted x l) = f x || existsb f l.
Proof.
  induction l as [|y rest IH]; simpl; [reflexivity|].
  destruct (String.leb x y); simpl; [reflexivity|].
  rewrite IH. now destruct (f x), (f y).
Qed.

Lemma existsb_sorted (f : string -> bool) l : existsb f (sorted l) = existsb f l.
Proof.
  unfold sorted. induction l as [|x rest IH]; simpl; [reflexivity|].
  now rewrite existsb_insert_sorted, IH.
Qed.

Lemma contains_names (l : list string) k :
  contains (map (fun hdr => (hdr, "")) l) k = existsb (fun hdr => key_eqb hdr k) l.
Proof.
  unfold contains. induction l as [|x rest IH]; simpl; [reflexivity|]. now rewrite IH.
Qed.

(** Sorting the skip list does not change what is on it. *)
Lemma contains_stored_skip skip k :
  contains (stored_skip skip) k = contains (skip_dict skip) k.
Proof. unfold stored_skip, skip_dict. now rewrite !contains_names, existsb_sorted. Qed.

Lemma getall_update_auto_headers_any s skip k :
  getall (ClientRequest.headers
            (ClientRequest.update_auto_headers SERVER_SOFTWARE HAS_BROTLI s skip)) k
  = if contains (ClientRequest.headers s) k || contains (skip_dict skip) k
    then getall (ClientRequest.headers s) k
    else auto_default k.
Proof.
  rewrite <- (contains_stored_skip skip k).
  unfold ClientRequest.update_auto_headers, ClientRequest.DEFAULT_HEADERS, auto_default.
  fold (stored_skip skip). simpl fold_left. simpl ClientRequest.headers.
  unfold extend. simpl fst. simpl snd.
  set (h := ClientRequest.headers s). set (sd := stored_skip skip).
  set (enc := ClientRequest._gen_default_accept_encoding HAS_BROTLI).
  assert (Hused : forall x, key_eqb x k = true ->
                            contains (h ++ sd) x = contains h k || contains sd k).
  { intros x Hx. rewrite (contains_congr _ _ _ Hx). apply contains_app. }
  assert (Hfresh : contains h k || contains sd k = false -> getall h k = []).
  { intros E. apply orb_false_iff in E. now apply contains_false_getall. }
  destruct (key_eqb hdrs.ACCEPT k) eqn:E1.
  { assert (E2 : key_eqb hdrs.ACCEPT_ENCODING k = false)
      by (rewrite (key_eqb_sym _ k), <- (key_eqb_congr _ _ _ E1); reflexivity).
    assert (E3 : key_eqb hdrs.USER_AGENT k = false)
      by (rewrite (key_eqb_sym _ k), <- (key_eqb_congr _ _ _ E1); reflexivity).
    rewrite (Hused _ E1).
    destruct (contains h k || contains sd k) eqn:Ec; simpl negb; cbv iota;
      repeat match goal with
             | |- context [if negb ?c then _ else _] => destruct c; simpl negb; cbv iota
             end;
      rewrite ?getall_setitem, ?getall_add, ?E1, ?E2, ?E3, ?app_nil_r;
      try reflexivity; now rewrite (Hfresh eq_refl). }
  destruct (key_eqb hdrs.ACCEPT_ENCODING k) eqn:E2.
  { assert (E3 : key_eqb hdrs.USER_AGENT k = false)
      by (rewrite (key_eqb_sym _ k), <- (key_eqb_congr _ _ _ E2); reflexivity).
    rewrite (Hused _ E2).
    destruct (contains h k || contains sd k) eqn:Ec; simpl negb; cbv iota;
      repeat match goal with
             | |- context [if negb ?c then _ else _] => destruct c; simpl negb; cbv iota
             end;
      rewrite ?getall_setitem, ?getall_add, ?E1, ?E2, ?E3, ?app_nil_r;
      try reflexivity; now rewrite (Hfresh eq_refl). }
  destruct (key_eqb hdrs.USER_AGENT k) eqn:E3.
  { rewrite (Hused _ E3).
    destruct (contains h k || contains sd k) eqn:Ec; simpl negb; cbv iota;
      repeat match goal with
             | |- context [if negb ?c then _ else _] => destruct c; simpl negb; cbv iota
             end;
      rewrite ?getall_setitem, ?getall_add, ?E1, ?E2, ?E3, ?app_nil_r;
      try reflexivity. }
  repeat match goal with
         | |- context [if negb ?c then _ else _] => destruct c; simpl negb; cbv iota
         end;
    rewrite ?getall_setitem, ?getall_add, ?E1, ?E2, ?E3, ?app_nil_r;
    destruct (contains h k || contains sd k) eqn:Ec; try reflexivity;
    now apply Hfresh.
Qed.

Lemma getall_update_content_encoding s data s' k :
  key_eqb hdrs.CONTENT_ENCODING k = false ->
  ClientRequest.update_content_encoding s data = Ok s' ->
  getall (ClientRequest.headers s') k = getall (ClientRequest.headers s) k.
Proof.
  intros Hk. unfold ClientRequest.update_content_encoding.
  repeat break_match; intros [= <-]; simpl; rewrite ?getall_setitem, ?Hk; reflexivity.
Qed.

Lemma getall_update_transfer_encoding s s' k :
  key_eqb hdrs.CONTENT_LENGTH k = false ->
  key_eqb hdrs.TRANSFER_ENCODING k = false ->
  ClientRequest.update_transfer_encoding s = Ok s' ->
  getall (ClientRequest.headers s') k = getall (ClientRequest.headers s) k.
Proof.
  intros H1 H2. unfold ClientRequest.update_transfer_encoding, bind.
  repeat break_match; simpl; intros [= <-]; simpl;
    rewrite ?getall_setitem, ?H1, ?H2; reflexivity.
Qed.

Lemma getall_update_body_from_data s d s' k :
  key_eqb hdrs.CONTENT_LENGTH k = false ->
  ClientRequest.update_body_from_data parse_mimetype s (Some d) = Ok s' ->
  getall (ClientRequest.headers s') k
  = if contains (ClientRequest.headers s) k
       || contains (ClientRequest.skip_auto_headers s) k
    then getall (ClientRequest.headers s) k
    else first_of (getall (payload_headers
                             (payload_of parse_mimetype (ClientRequest.headers s) d)) k).
Proof.
  intros Hk. unfold ClientRequest.update_body_from_data.
  fold (payload_of parse_mimetype (ClientRequest.headers s) d).
  set (p := payload_of parse_mimetype (ClientRequest.headers s) d).
  match goal with
  | |- (if _ then _ else Ok (ClientRequest.with_headers ?s1 _)) = _ -> _ =>
      set (s5 := s1)
  end.
  assert (H5 : contains (ClientRequest.headers s5) k = contains (ClientRequest.headers s) k
               /\ getall (ClientRequest.headers s5) k = getall (ClientRequest.headers s) k
               /\ ClientRequest.skip_auto_headers s5 = ClientRequest.skip_auto_headers s).
  { subst s5. repeat break_match; simpl;
      rewrite ?contains_setitem, ?getall_setitem, ?Hk; auto. }
  destruct H5 as (Hc & Hg & Hs).
  destruct (negb (truthy (payload_headers p))); [discriminate|].
  intros [= <-]. simpl ClientRequest.headers.
  rewrite fold_copy_payload_headers_any, Hc, Hg, Hs. reflexivity.
Qed.

(** *** The constructor as a whole *)

Variable url_ : URL.
Variable skip_ : list string.
Variable cookies_ : option (list (string * string)).
Variable auth_ : option BasicAuth.
Variable version_ : HttpVersion.
Variable expect100_ : bool.
Variable proxy_ : option URL.
Variable proxy_auth_ : option BasicAuth.
Variable proxy_headers_ : option (list (string * string)).
Variable ssl_ : SslPolicy.
Variable trust_env_ : bool.

Let built :=
  construct is_ipv6_address SERVER_SOFTWARE HAS_BROTLI cookie_output BasicAuth_encode
    netrc_auth parse_mimetype with_fragment_none repr url_ skip_ cookies_ auth_ version_
    expect100_ proxy_ proxy_auth_ proxy_headers_ ssl_ trust_env_.

Let drafted :=
  draft is_ipv6_address SERVER_SOFTWARE HAS_BROTLI cookie_output with_fragment_none
    url_ skip_ cookies_ version_ ssl_.

Let negotiated :=
  negotiate BasicAuth_encode netrc_auth parse_mimetype auth_ expect100_ proxy_
    proxy_auth_ proxy_headers_ trust_env_.

Let prepared :=
  before_body BasicAuth_encode netrc_auth auth_ proxy_ proxy_auth_ proxy_headers_
    trust_env_.

(** The host part of the URL is there. *)
Definition host_given (u : URL) : bool :=
  match raw_host u with Some h => str_truthy h | None => false end.

Lemma host_given_well_formed method_ :
  search_non_token method_ = None -> host_given url_ = true ->
  well_formed url_ method_.
Proof.
  unfold host_given. intros Hm Hh. split; [exact Hm|].
  destruct (raw_host url_) as [h|]; [|discriminate]. now exists h.
Qed.

Lemma built_ok method_ hs data compress_ chunked_ r :
  built method_ hs data compress_ chunked_ = Ok r ->
  search_non_token method_ = None /\ host_given url_ = true.
Proof.
  unfold built, construct, ClientRequest.init, host_given.
  destruct (search_non_token method_); [discriminate|].
  unfold ClientRequest.update_host.
  destruct (raw_host url_) as [h|]; [|discriminate].
  destruct (str_truthy h); [auto|discriminate].
Qed.

Lemma built_negotiated method_ hs data compress_ chunked_ r :
  built method_ hs data compress_ chunked_ = Ok r ->
  negotiated (drafted method_ hs compress_ chunked_) data = Ok r.
Proof.
  intros H. destruct (built_ok _ _ _ _ _ _ H) as [Hm Hh].
  unfold built in H. rewrite construct_negotiate in H; [exact H|].
  now apply host_given_well_formed.
Qed.

(** The steps of the negotiation that led to [r]. *)
Lemma negotiated_inv s data r :
  negotiated s data = Ok r ->
  exists s4 s6 s7,
    ClientRequest.update_content_encoding s data = Ok s4
    /\ ClientRequest.update_body_from_data parse_mimetype (prepared s4) data = Ok s6
    /\ (s7 = s6 /\ data = None \/ ClientRequest.update_transfer_encoding s6 = Ok s7)
    /\ r = ClientRequest.update_expect_continue s7 expect100_.
Proof.
  unfold negotiated, negotiate, prepared, before_body.
  destruct (ClientRequest.update_content_encoding s data) as [s4|e] eqn:E4;
    [|discriminate].
  cbn [bind].
  destruct (ClientRequest.update_body_from_data _ _ data) as [s6|e] eqn:E6;
    [|discriminate].
  cbn [bind].
  destruct data as [d|].
  - destruct (ClientRequest.update_transfer_encoding s6) as [s7|e] eqn:E7; [|discriminate].
    cbn [bind]. intros [= <-]. exists s4, s6, s7.
      split; [easy|split; [easy|split; [right; easy|reflexivity]]].
  - destruct (negb _).
    + destruct (ClientRequest.update_transfer_encoding s6) as [s7|e] eqn:E7;
        [|discriminate].
      cbn [bind]. intros [= <-]. exists s4, s6, s7.
      split; [easy|split; [easy|split; [right; easy|reflexivity]]].
    + cbn [bind]. intros [= <-]. exists s4, s6, s6.
      split; [easy|split; [easy|split; [left; split; reflexivity|reflexivity]]].
Qed.

(** *** The request when the negotiation starts *)

(** The credentials [update_host] takes from the URL. *)
Definition url_auth (u : URL) : option BasicAuth :=
  match user u with
  | Some username =>
      if str_truthy username then
        Some (mkBasicAuth username (match password u with Some p => p | None => "" end)
                "latin1")
      else None
  | None => None
  end.

(** What the negotiation never writes. *)
Definition core (s : ClientRequest.t) :=
  (ClientRequest.method s, ClientRequest.original_url s, ClientRequest.url s,
   ClientRequest.version s, ClientRequest._ssl s, ClientRequest.auth s,
   ClientRequest.skip_auto_headers s).

Definition proxies (s : ClientRequest.t) :=
  (ClientRequest.proxy s, ClientRequest.proxy_auth s, ClientRequest.proxy_headers s).

Lemma core_update_headers s hs :
  core (ClientRequest.update_headers is_ipv6_address s hs) = core s
  /\ ClientRequest._continue (ClientRequest.update_headers is_ipv6_address s hs)
     = ClientRequest._continue s.
Proof. unfold ClientRequest.update_headers. destruct hs; split; reflexivity. Qed.

Lemma core_update_cookies s cookies :
  core (ClientRequest.update_cookies cookie_output s cookies) = core s
  /\ ClientRequest._continue (ClientRequest.update_cookies cookie_output s cookies)
     = ClientRequest._continue s.
Proof.
  unfold ClientRequest.update_cookies. destruct cookies as [[|c cs]|]; split; reflexivity.
Qed.

Lemma drafted_core method_ hs compress_ chunked_ :
  let s := drafted method_ hs compress_ chunked_ in
  core s = (upper method_, url_, with_fragment_none url_, version_, ssl_,
            url_auth url_, stored_skip skip_)
  /\ ClientRequest._continue s = None
  /\ ClientRequest.chunked s = chunked_.
Proof.
  intros s. subst s. unfold drafted, draft.
  split; [|split].
  - rewrite (proj1 (core_update_cookies _ _)).
    unfold ClientRequest.update_auto_headers, core at 1. simpl.
    fold (stored_skip skip_).
    match goal with
    | |- context [ClientRequest.update_headers _ ?s1 _] =>
        pose proof (proj1 (core_update_headers s1 hs)) as H
    end.
    unfold core in H. injection H as -> -> -> -> -> -> _.
    unfold url_auth.
    destruct (user url_) as [u|]; [destruct (str_truthy u)|]; reflexivity.
  - rewrite (proj2 (core_update_cookies _ _)).
    unfold ClientRequest.update_auto_headers. simpl.
    rewrite (proj2 (core_update_headers _ _)).
    destruct (user url_) as [u|]; [destruct (str_truthy u)|]; reflexivity.
  - apply (draft_fields is_ipv6_address SERVER_SOFTWARE HAS_BROTLI cookie_output
             with_fragment_none url_ skip_ cookies_ version_ ssl_).
Qed.

Lemma drafted_host method_ hs compress_ chunked_ :
  getall (ClientRequest.headers (drafted method_ hs compress_ chunked_)) hdrs.HOST
  = [last (getall (hdrs_of hs) hdrs.HOST) (netloc (with_fragment_none url_))].
Proof.
  unfold drafted, draft.
  rewrite getall_update_cookies, getall_update_auto_headers by reflexivity.
  rewrite getall_update_headers_host.
  destruct (user url_) as [u|]; [destruct (str_truthy u)|]; reflexivity.
Qed.

(** The cookies to send, as a list. *)
Definition cookie_list : list (string * string) :=
  match cookies_ with Some l => l | None => [] end.

(** The Cookie header [update_cookies] writes when there are cookies to
    send: the first Cookie header of the caller, if any, merged with them. *)
Definition cookie_header (hs : option (list (string * string))) : string :=
  cookie_output (hd_error (getall (hdrs_of hs) hdrs.COOKIE)) cookie_list.

(** What the caller and the defaults provide under the name [k], before
    the payload is looked at. *)
Definition provided_early (hs : option (list (string * string))) (k : string)
  : list string :=
  if contains (hdrs_of hs) k || contains (skip_dict skip_) k
  then getall (hdrs_of hs) k
  else auto_default k.

Lemma drafted_getall_any method_ hs compress_ chunked_ k :
  key_eqb hdrs.HOST k = false ->
  getall (ClientRequest.headers (drafted method_ hs compress_ chunked_)) k
  = if key_eqb hdrs.COOKIE k && negb (is_nil cookie_list)
    then [cookie_header hs]
    else provided_early hs k.
Proof.
  intros Hh. unfold drafted, draft, provided_early.
  match goal with
  | |- context [ClientRequest.update_auto_headers _ _ ?s1 _] => set (s2 := s1)
  end.
  set (s3 := ClientRequest.update_auto_headers SERVER_SOFTWARE HAS_BROTLI s2 skip_).
  assert (G3 : forall k', key_eqb hdrs.HOST k' = false ->
                          getall (ClientRequest.headers s3) k'
                          = if contains (hdrs_of hs) k' || contains (skip_dict skip_) k'
                            then getall (hdrs_of hs) k'
                            else auto_default k').
  { intros k' Hk'. subst s3 s2. rewrite getall_update_auto_headers_any.
    rewrite !(contains_getall _ k'), getall_update_headers by assumption.
    reflexivity. }
  assert (Gc : getall (ClientRequest.headers s3) hdrs.COOKIE
               = getall (hdrs_of hs) hdrs.COOKIE).
  { subst s3 s2. rewrite getall_update_auto_headers by reflexivity.
    now rewrite getall_update_headers. }
  clearbody s3.
  unfold ClientRequest.update_cookies, cookie_header, cookie_list.
  destruct cookies_ as [[|c cs]|]; simpl is_nil; simpl negb;
    rewrite ?andb_false_r, ?andb_true_r; try (now apply G3).
  simpl ClientRequest.headers.
  destruct (key_eqb hdrs.COOKIE k) eqn:Ek.
  - rewrite getall_setitem, Ek. do 2 f_equal.
    rewrite (contains_getall (ClientRequest.headers s3)), get_default_getall, Gc.
    now destruct (getall (hdrs_of hs) hdrs.COOKIE).
  - destruct (contains (ClientRequest.headers s3) hdrs.COOKIE);
      rewrite getall_setitem, ?getall_remove_all, Ek; now apply G3.
Qed.

(** *** What the negotiation keeps *)

Definition kept (s s' : ClientRequest.t) : Prop :=
  core s' = core s
  /\ proxies s' = proxies s
  /\ ClientRequest._continue s' = ClientRequest._continue s
  /\ (ClientRequest.chunked s <> None -> ClientRequest.chunked s' <> None).

Lemma kept_refl s : kept s s.
Proof. repeat split; auto. Qed.

Lemma kept_trans s1 s2 s3 : kept s1 s2 -> kept s2 s3 -> kept s1 s3.
Proof.
  intros (A1 & B1 & C1 & D1) (A2 & B2 & C2 & D2).
  repeat split; try congruence. auto.
Qed.

Lemma kept_update_content_encoding s data s' :
  ClientRequest.update_content_encoding s data = Ok s' -> kept s s'.
Proof.
  unfold ClientRequest.update_content_encoding.
  repeat break_match; intros [= <-]; repeat split; auto; simpl; discriminate.
Qed.

Lemma kept_update_body_from_data s data s' :
  ClientRequest.update_body_from_data parse_mimetype s data = Ok s' -> kept s s'.
Proof.
  unfold ClientRequest.update_body_from_data.
  destruct data as [d|]; [|intros [= <-]; apply kept_refl].
  fold (payload_of parse_mimetype (ClientRequest.headers s) d).
  set (p := payload_of parse_mimetype (ClientRequest.headers s) d).
  match goal with
  | |- (if _ then _ else Ok (ClientRequest.with_headers ?s1 _)) = _ -> _ =>
      set (s5 := s1)
  end.
  assert (H5 : kept s s5).
  { subst s5. repeat break_match; repeat split; auto; simpl; discriminate. }
  destruct (negb (truthy (payload_headers p))); [discriminate|]. intros [= <-].
  apply (kept_trans _ _ _ H5). repeat split; auto.
Qed.

Lemma kept_update_transfer_encoding s s' :
  ClientRequest.update_transfer_encoding s = Ok s' -> kept s s'.
Proof.
  unfold ClientRequest.update_transfer_encoding, bind.
  repeat break_match; intros [= <-]; repeat split; auto.
Qed.

(** The first Expect header says [100-continue]. *)
Definition expects_continue (h : CIMultiDict.t) : bool :=
  String.eqb (lower (get_default h hdrs.EXPECT "")) "100-continue".

Lemma update_expect_continue_waiter s e :
  ClientRequest._continue s = None ->
  ClientRequest._continue (ClientRequest.update_expect_continue s e)
  = if expects_continue (ClientRequest.headers (ClientRequest.update_expect_continue s e))
    then Some PendingFuture else None.
Proof.
  intros H0. unfold ClientRequest.update_expect_continue, expects_continue.
  destruct e.
  - simpl. rewrite get_default_getall, getall_setitem, key_eqb_refl. reflexivity.
  - destruct (String.eqb _ _) eqn:E; simpl; rewrite E; [reflexivity|exact H0].
Qed.

Lemma negotiated_kept s data r :
  negotiated s data = Ok r ->
  core r = core s
  /\ proxies r = (proxy_, proxy_auth_, proxy_headers_)
  /\ (ClientRequest.chunked s <> None -> ClientRequest.chunked r <> None)
  /\ (ClientRequest._continue s = None ->
      ClientRequest._continue r
      = if expects_continue (ClientRequest.headers r) then Some PendingFuture else None).
Proof.
  intros H.
  destruct (negotiated_inv _ _ _ H) as (s4 & s6 & s7 & E4 & E6 & E7 & ->).
  pose proof (kept_update_content_encoding _ _ _ E4) as (A4 & _ & C4 & D4).
  pose proof (kept_update_body_from_data _ _ _ E6) as (A6 & B6 & C6 & D6).
  assert (K7 : kept s6 s7)
    by (destruct E7 as [[-> _]|E7];
        [apply kept_refl|now apply kept_update_transfer_encoding]).
  destruct K7 as (A7 & B7 & C7 & D7).
  assert (P4 : core (prepared s4) = core s4
               /\ proxies (prepared s4) = (proxy_, proxy_auth_, proxy_headers_)
               /\ ClientRequest._continue (prepared s4) = ClientRequest._continue s4
               /\ ClientRequest.chunked (prepared s4) = ClientRequest.chunked s4).
  { unfold prepared, before_body, ClientRequest.update_proxy, ClientRequest.update_auth.
    repeat break_match; repeat split. }
  destruct P4 as (Ap & Bp & Cp & Dp).
  set (s8 := ClientRequest.update_expect_continue s7 expect100_).
  assert (K8 : core s8 = core s7 /\ proxies s8 = proxies s7
               /\ ClientRequest.chunked s8 = ClientRequest.chunked s7).
  { subst s8. unfold ClientRequest.update_expect_continue.
    repeat break_match; repeat split. }
  destruct K8 as (A8 & B8 & D8).
  split; [congruence|]. split; [congruence|]. split.
  - intros Hc. rewrite D8. apply D7, D6. rewrite Dp. now apply D4.
  - intros H0. subst s8. apply update_expect_continue_waiter. congruence.
Qed.

(** *** Where each header of the built request comes from *)

(** The credentials [update_auth] encodes: the [auth] argument, else those
    of the URL, else, with [trust_env], those of the netrc file. *)
Definition effective_auth : option BasicAuth :=
  match auth_ with
  | Some a => Some a
  | None =>
      match url_auth url_ with
      | Some a => Some a
      | None =>
          match url_host (with_fragment_none url_) with
          | Some h => if trust_env_ then netrc_auth h else None
          | None => None
          end
      end
  end.

(** What the caller, the defaults and the payload provide under the
    name [k]: the caller's values if there are any; else nothing if the
    name is on the skip list; else the default if there is one; else the
    payload's first value. *)
Definition provided (hs : option (list (string * string))) (data : option Data)
    (k : string) : list string :=
  if contains (hdrs_of hs) k then getall (hdrs_of hs) k
  else if contains (skip_dict skip_) k then []
  else match auto_default k with
       | [] =>
           match body_payload parse_mimetype hs data with
           | Some p => first_of (getall (payload_headers p) k)
           | None => []
           end
       | l => l
       end.

(** The body step on a header it finds as [found]. *)
Definition with_payload (found : list string) (hs : option (list (string * string)))
    (data : option Data) (k : string) : list string :=
  match found, contains (skip_dict skip_) k, body_payload parse_mimetype hs data with
  | [], false, Some p => first_of (getall (payload_headers p) k)
  | _, _, _ => found
  end.

Lemma with_payload_early hs data k :
  with_payload (provided_early hs k) hs data k = provided hs data k.
Proof.
  unfold with_payload, provided_early, provided.
  rewrite (contains_getall (hdrs_of hs) k).
  destruct (getall (hdrs_of hs) k) as [|v vs] eqn:Eg; simpl.
  - destruct (contains (skip_dict skip_) k); [reflexivity|].
    destruct (auto_default k); [|reflexivity].
    destruct (body_payload parse_mimetype hs data); reflexivity.
  - destruct (contains (skip_dict skip_) k); reflexivity.
Qed.

(** The request between the content encoding step and the body step. *)
Lemma prepared_facts method_ hs data compress_ chunked_ s4 :
  ClientRequest.update_content_encoding (drafted method_ hs compress_ chunked_) data
  = Ok s4 ->
  ClientRequest.skip_auto_headers (prepared s4) = stored_skip skip_
  /\ (forall d, payload_of parse_mimetype (ClientRequest.headers (prepared s4)) d
                = payload_of parse_mimetype (hdrs_of hs) d)
  /\ (forall k, key_eqb hdrs.CONTENT_ENCODING k = false ->
                getall (ClientRequest.headers (prepared s4)) k
                = if key_eqb hdrs.AUTHORIZATION k then
                    match effective_auth with
                    | Some a => [BasicAuth_encode a]
                    | None => getall (ClientRequest.headers
                                        (drafted method_ hs compress_ chunked_)) k
                    end
                  else getall (ClientRequest.headers
                                 (drafted method_ hs compress_ chunked_)) k).
Proof.
  intros E4.
  pose proof (kept_update_content_encoding _ _ _ E4) as (A4 & _ & _ & _).
  destruct (drafted_core method_ hs compress_ chunked_) as (Ad & _ & _).
  rewrite Ad in A4. unfold core in A4. injection A4 as _ _ Hurl _ _ Hauth Hskip.
  assert (Hg : forall k, key_eqb hdrs.CONTENT_ENCODING k = false ->
                         getall (ClientRequest.headers s4) k
                         = getall (ClientRequest.headers
                                     (drafted method_ hs compress_ chunked_)) k)
    by (intros k Hk; now apply (getall_update_content_encoding _ data)).
  split; [|split].
  - unfold prepared, before_body, ClientRequest.update_proxy, ClientRequest.update_auth.
    repeat break_match; exact Hskip.
  - intros d. apply payload_of_ext.
    unfold prepared, before_body, ClientRequest.update_proxy. simpl ClientRequest.headers.
    rewrite getall_update_auth, Hg by reflexivity.
    unfold drafted. now rewrite draft_getall.
  - intros k Hk.
    unfold prepared, before_body, ClientRequest.update_proxy. simpl ClientRequest.headers.
    destruct (key_eqb hdrs.AUTHORIZATION k) eqn:Ea;
      [|rewrite getall_update_auth by assumption; now apply Hg].
    unfold ClientRequest.update_auth, effective_auth. rewrite Hauth, Hurl.
    destruct auth_ as [a|]; [simpl; now rewrite getall_setitem, Ea|].
    destruct (url_auth url_) as [a|]; [simpl; now rewrite getall_setitem, Ea|].
    destruct (url_host (with_fragment_none url_)) as [h|]; [|now apply Hg].
    destruct trust_env_; [|now apply Hg].
    destruct (netrc_auth h) as [a|]; [simpl; now rewrite getall_setitem, Ea|].
    now apply Hg.
Qed.

(** The headers of the drafted request under [k], with the credentials
    written over them. *)
Definition early (method_ : string) (hs : option (list (string * string)))
    (compress_ : option Compress) (chunked_ : option bool) (k : string) : list string :=
  if key_eqb hdrs.AUTHORIZATION k then
    match effective_auth with
    | Some a => [BasicAuth_encode a]
    | None => getall (ClientRequest.headers (drafted method_ hs compress_ chunked_)) k
    end
  else getall (ClientRequest.headers (drafted method_ hs compress_ chunked_)) k.

(** From the headers before the body step to those the last step finds. *)
Lemma built_steps method_ hs data compress_ chunked_ r :
  built method_ hs data compress_ chunked_ = Ok r ->
  exists s7,
    r = ClientRequest.update_expect_continue s7 expect100_
    /\ forall k,
         key_eqb hdrs.CONTENT_ENCODING k = false ->
         key_eqb hdrs.CONTENT_LENGTH k = false ->
         key_eqb hdrs.TRANSFER_ENCODING k = false ->
         getall (ClientRequest.headers s7) k
         = with_payload (early method_ hs compress_ chunked_ k) hs data k.
Proof.
  intros H. apply built_negotiated in H.
  destruct (negotiated_inv _ _ _ H) as (s4 & s6 & s7 & E4 & E6 & E7 & ->).
  destruct (prepared_facts _ _ _ _ _ _ E4) as (Hskip & Hpay & Hg).
  exists s7. split; [reflexivity|].
  intros k Hce Hcl Hte.
  assert (G7 : getall (ClientRequest.headers s7) k = getall (ClientRequest.headers s6) k).
  { destruct E7 as [[-> _]|E7]; [reflexivity|].
    now apply getall_update_transfer_encoding. }
  rewrite G7. unfold with_payload, body_payload, early.
  destruct data as [d|]; simpl option_map.
  - rewrite (getall_update_body_from_data _ _ _ _ Hcl E6).
    rewrite Hskip, contains_stored_skip, Hpay, contains_getall, (Hg k Hce).
    match goal with
    | |- context [match ?e with [] => false | _ :: _ => true end] => destruct e
    end; simpl; [|reflexivity].
    destruct (contains (skip_dict skip_) k); reflexivity.
  - simpl in E6. injection E6 as <-. rewrite (Hg k Hce).
    match goal with
    | |- ?e = _ => destruct e
    end; [|reflexivity].
    destruct (contains (skip_dict skip_) k); reflexivity.
Qed.

(** *** The built request *)

Lemma built_identity method_ hs data compress_ chunked_ r :
  built method_ hs data compress_ chunked_ = Ok r ->
  ClientRequest.method r = upper method_
  /\ ClientRequest.original_url r = url_
  /\ ClientRequest.url r = with_fragment_none url_
  /\ ClientRequest.version r = version_
  /\ ClientRequest.ssl r = ssl_
  /\ ClientRequest.proxy r = proxy_
  /\ ClientRequest.proxy_auth r = proxy_auth_
  /\ ClientRequest.proxy_headers r = proxy_headers_
  /\ ClientRequest.skip_auto_headers r = stored_skip skip_.
Proof.
  intros H. apply built_negotiated in H.
  destruct (negotiated_kept _ _ _ H) as (A & B & _ & _).
  destruct (drafted_core method_ hs compress_ chunked_) as (Ad & _ & _).
  rewrite Ad in A. unfold core in A. unfold proxies in B.
  injection A as -> -> -> -> H5 _ ->. injection B as -> -> ->.
  unfold ClientRequest.ssl. rewrite H5. repeat split.
Qed.

(** X14. The constructor checks the method first and the host of the URL
    second, before it looks at any header: a method with a character that
    is not a token character raises [ValueError], with a message that
    quotes the method and the first such character through [repr],
    whatever the URL; with a proper method, a URL without a host raises
    [InvalidURL]. And a request that is built carries the method in upper
    case, the URL as given and the URL without its fragment, the version,
    TLS setting, proxy, proxy credentials and proxy headers as given, and
    the skip list sorted. *)
Theorem construct_checks_method_then_host method_ hs data compress_ chunked_ :
  match search_non_token method_ with
  | Some c =>
      built method_ hs data compress_ chunked_
      = Raise (ValueError
                 ("Method cannot contain non-token characters " ++ repr method_
                  ++ " (found at least " ++ repr (String c EmptyString) ++ ")")%string)
  | None =>
      if host_given url_ then
        forall r,
          built method_ hs data compress_ chunked_ = Ok r ->
          ClientRequest.method r = upper method_
          /\ ClientRequest.original_url r = url_
          /\ ClientRequest.url r = with_fragment_none url_
          /\ ClientRequest.version r = version_
          /\ ClientRequest.ssl r = ssl_
          /\ ClientRequest.proxy r = proxy_
          /\ ClientRequest.proxy_auth r = proxy_auth_
          /\ ClientRequest.proxy_headers r = proxy_headers_
          /\ ClientRequest.skip_auto_headers r = stored_skip skip_
      else built method_ hs data compress_ chunked_ = Raise (InvalidURL url_)
  end.
Proof.
  destruct (search_non_token method_) as [c|] eqn:Hm.
  - unfold built, construct, ClientRequest.init. now rewrite Hm.
  - destruct (host_given url_) eqn:Hh.
    + intros r H. exact (built_identity _ _ _ _ _ _ H).
    + unfold built, construct, ClientRequest.init. rewrite Hm.
      unfold ClientRequest.update_host. unfold host_given in Hh.
      destruct (raw_host url_) as [h|]; [|reflexivity].
      now rewrite Hh.
Qed.

(** X15. A built request has exactly one Host header: the value of the
    last Host header the caller gave, in whatever case it was spelled, and
    otherwise the host of the URL, in brackets if it is an IPv6 address,
    without trailing dots, with the port unless it is the default one.
    No later step and no payload header changes it. *)
Theorem request_has_one_host_header method_ hs data compress_ chunked_ r :
  built method_ hs data compress_ chunked_ = Ok r ->
  getall (ClientRequest.headers r) hdrs.HOST
  = [last (getall (hdrs_of hs) hdrs.HOST) (netloc (with_fragment_none url_))].
Proof.
  intros H. destruct (built_steps _ _ _ _ _ _ H) as (s7 & -> & Hk).
  rewrite getall_update_expect_continue by reflexivity.
  rewrite Hk by reflexivity.
  unfold early. change (key_eqb hdrs.AUTHORIZATION hdrs.HOST) with false. cbv iota.
  rewrite drafted_host. reflexivity.
Qed.

(** The names under which the constructor writes headers of its own. *)
Definition negotiated_name (k : string) : bool :=
  key_eqb hdrs.HOST k || key_eqb hdrs.COOKIE k || key_eqb hdrs.AUTHORIZATION k
  || key_eqb hdrs.EXPECT k || key_eqb hdrs.CONTENT_ENCODING k
  || key_eqb hdrs.CONTENT_LENGTH k || key_eqb hdrs.TRANSFER_ENCODING k.

Lemma negotiated_name_false k :
  negotiated_name k = false ->
  key_eqb hdrs.HOST k = false /\ key_eqb hdrs.COOKIE k = false
  /\ key_eqb hdrs.AUTHORIZATION k = false /\ key_eqb hdrs.EXPECT k = false
  /\ key_eqb hdrs.CONTENT_ENCODING k = false /\ key_eqb hdrs.CONTENT_LENGTH k = false
  /\ key_eqb hdrs.TRANSFER_ENCODING k = false.
Proof.
  unfold negotiated_name. intro H.
  repeat (apply orb_false_iff in H; destruct H as [H ?]). repeat split; assumption.
Qed.

(** X16. Under every name other than Host, Cookie, Authorization, Expect,
    Content-Encoding, Content-Length and Transfer-Encoding, a built request
    has: the caller's values, all of them and in the caller's order, if the
    caller gave any; else nothing at all if the name is on the skip list,
    be it a default header or one the payload brings; else the default
    (Accept, Accept-Encoding, User-Agent); else the first value the payload
    has for the name. Names are compared without regard to case. *)
Theorem built_headers_provenance method_ hs data compress_ chunked_ r k :
  built method_ hs data compress_ chunked_ = Ok r ->
  negotiated_name k = false ->
  getall (ClientRequest.headers r) k = provided hs data k.
Proof.
  intros H Hn. apply negotiated_name_false in Hn.
  destruct Hn as (Hh & Hc & Ha & He & Hce & Hcl & Hte).
  destruct (built_steps _ _ _ _ _ _ H) as (s7 & -> & Hk).
  rewrite getall_update_expect_continue by assumption.
  rewrite Hk by assumption.
  unfold early. rewrite Ha, drafted_getall_any, Hc by assumption.
  apply with_payload_early.
Qed.

(** X17. With cookies to send, a built request has exactly one Cookie
    header: the cookies merged into the first Cookie header of the caller,
    if there is one; the caller's further Cookie headers are dropped.
    Without cookies to send, the Cookie headers are those the caller, or
    else the payload, provides. *)
Theorem request_cookie_header method_ hs data compress_ chunked_ r :
  built method_ hs data compress_ chunked_ = Ok r ->
  getall (ClientRequest.headers r) hdrs.COOKIE
  = if is_nil cookie_list then provided hs data hdrs.COOKIE
    else [cookie_header hs].
Proof.
  intros H. destruct (built_steps _ _ _ _ _ _ H) as (s7 & -> & Hk).
  rewrite getall_update_expect_continue by reflexivity.
  rewrite Hk by reflexivity.
  unfold early. change (key_eqb hdrs.AUTHORIZATION hdrs.COOKIE) with false. cbv iota.
  rewrite drafted_getall_any by reflexivity.
  rewrite key_eqb_refl. simpl andb.
  destruct (is_nil cookie_list); simpl negb; cbv iota.
  - apply with_payload_early.
  - reflexivity.
Qed.

(** X18. The Authorization header of a built request encodes the [auth]
    argument if there is one; else the credentials of the URL; else, with
    [trust_env] and a host, those the netrc file has for the host; it
    replaces every Authorization header of the caller. With none of these,
    the Authorization headers are those the caller, or else the payload,
    provides. The [auth] attribute holds the credentials of the URL only:
    the [auth] argument is encoded into the header but not stored. *)
Theorem authorization_precedence method_ hs data compress_ chunked_ r :
  built method_ hs data compress_ chunked_ = Ok r ->
  ClientRequest.auth r = url_auth url_
  /\ getall (ClientRequest.headers r) hdrs.AUTHORIZATION
     = match effective_auth with
       | Some a => [BasicAuth_encode a]
       | None => provided hs data hdrs.AUTHORIZATION
       end.
Proof.
  intros H. split.
  - apply built_negotiated in H.
    destruct (negotiated_kept _ _ _ H) as (A & _).
    destruct (drafted_core method_ hs compress_ chunked_) as (Ad & _ & _).
    rewrite Ad in A. unfold core in A. now injection A as _ _ _ _ _ -> _.
  - destruct (built_steps _ _ _ _ _ _ H) as (s7 & -> & Hk).
    rewrite getall_update_expect_continue by reflexivity.
    rewrite Hk by reflexivity.
    unfold early. rewrite key_eqb_refl.
    destruct effective_auth as [a|]; [reflexivity|].
    rewrite drafted_getall_any by reflexivity.
    change (key_eqb hdrs.COOKIE hdrs.AUTHORIZATION) with false. simpl andb. cbv iota.
    apply with_payload_early.
Qed.

(** X19. A built request has a waiter for [100 Continue] exactly when its
    first Expect header says [100-continue], in any case: with [expect100]
    the header is set to that, replacing what the caller gave; without it
    the Expect headers are those the caller, or else the payload,
    provides, and they alone decide. *)
Theorem continue_waiter_follows_expect_header method_ hs data compress_ chunked_ r :
  built method_ hs data compress_ chunked_ = Ok r ->
  ClientRequest._continue r
  = (if expects_continue (ClientRequest.headers r) then Some PendingFuture else None)
  /\ getall (ClientRequest.headers r) hdrs.EXPECT
     = if expect100_ then ["100-continue"] else provided hs data hdrs.EXPECT.
Proof.
  intros H. split.
  - apply built_negotiated in H.
    destruct (negotiated_kept _ _ _ H) as (_ & _ & _ & C).
    apply C. apply (drafted_core method_ hs compress_ chunked_).
  - destruct (built_steps _ _ _ _ _ _ H) as (s7 & -> & Hk).
    assert (G : getall (ClientRequest.headers
                          (ClientRequest.update_expect_continue s7 expect100_))
                  hdrs.EXPECT
                = if expect100_ then ["100-continue"]
                  else getall (ClientRequest.headers s7) hdrs.EXPECT).
    { unfold ClientRequest.update_expect_continue.
      destruct expect100_; [simpl; now rewrite getall_setitem|].
      now destruct (String.eqb _ _). }
    rewrite G. destruct expect100_; [reflexivity|].
    rewrite Hk by reflexivity.
    unfold early. change (key_eqb hdrs.AUTHORIZATION hdrs.EXPECT) with false. cbv iota.
    rewrite drafted_getall_any by reflexivity.
    change (key_eqb hdrs.COOKIE hdrs.EXPECT) with false. simpl andb. cbv iota.
    apply with_payload_early.
Qed.

(** X20. [send] turns chunked framing on whenever the [chunked] attribute
    is not [None], and the constructor never resets it to [None]: a request
    built with [chunked=False] is sent with chunked framing. In particular,
    without data, with a method that may have a body and no Content-Length
    or chunked Transfer-Encoding header of the caller, such a request
    announces [Content-Length: 0] and no chunked transfer, and [send] still
    turns chunked framing on. *)
Theorem chunked_false_still_enables_chunking method_ hs data compress_ r :
  (forall b, built method_ hs data compress_ (Some b) = Ok r ->
             ClientRequest.send_chunking r = true)
  /\ (built method_ hs None compress_ (Some false) = Ok r ->
      ClientRequest.method_in (upper method_) ClientRequest.GET_METHODS = false ->
      te_given hs = false -> cl_given hs = false ->
      getall (ClientRequest.headers r) hdrs.CONTENT_LENGTH = ["0"]
      /\ getall (ClientRequest.headers r) hdrs.TRANSFER_ENCODING
         = getall (hdrs_of hs) hdrs.TRANSFER_ENCODING
      /\ ClientRequest.send_chunking r = true).
Proof.
  assert (Hon : forall d b, built method_ hs d compress_ (Some b) = Ok r ->
                            ClientRequest.send_chunking r = true).
  { intros d b H. apply built_negotiated in H.
    destruct (negotiated_kept _ _ _ H) as (_ & _ & C & _).
    destruct (drafted_core method_ hs compress_ (Some b)) as (_ & _ & Dch).
    unfold ClientRequest.send_chunking.
    destruct (ClientRequest.chunked r); [reflexivity|].
    exfalso. apply C; [rewrite Dch; discriminate|reflexivity]. }
  split; [apply Hon|].
  intros H Hm Hte Hcl.
  destruct (built_ok _ _ _ _ _ _ H) as [Hs Hh].
  pose proof (construct_obs is_ipv6_address SERVER_SOFTWARE HAS_BROTLI cookie_output
                BasicAuth_encode netrc_auth parse_mimetype with_fragment_none repr url_
                skip_ cookies_ auth_ version_ expect100_ proxy_ proxy_auth_
                proxy_headers_ ssl_ trust_env_ method_ hs None compress_ (Some false)
                (host_given_well_formed _ Hs Hh)) as Ho.
  unfold built in H. rewrite H in Ho.
  unfold negotiate_spec, body_payload in Ho. simpl option_map in Ho.
  rewrite Hm in Ho. unfold ute_spec in Ho. cbn [o_te o_cl o_chunked o_body] in Ho.
  unfold te_given in Hte. rewrite Hte in Ho.
  rewrite cl_given_getall in Hcl. apply negb_false_iff in Hcl. rewrite Hcl in Ho.
  simpl in Ho. specialize (Ho ltac:(discriminate)).
  injection Ho as A B _ _.
  split; [exact A|]. split; [exact B|]. now apply (Hon None false).
Qed.

(** The key of a built request, written out. *)
Lemma connection_key_built hash_items method_ hs data compress_ chunked_ r :
  built method_ hs data compress_ chunked_ = Ok r ->
  ClientRequest.connection_key hash_items r
  = match raw_host (with_fragment_none url_) with
    | Some h =>
        Ok (ConnectionKey.mk h (url_port (with_fragment_none url_))
              (existsb (String.eqb (scheme (with_fragment_none url_))) ["https"; "wss"])
              ssl_ proxy_ proxy_auth_
              (match proxy_headers_ with
               | Some ph => if truthy ph then Some (hash_items ph) else None
               | None => None
               end))
    | None => Raise AssertionError
    end.
Proof.
  intros H.
  destruct (built_identity _ _ _ _ _ _ H) as (_ & _ & Hu & _ & Hssl & Hp & Hpa & Hph & _).
  unfold ClientRequest.connection_key, ClientRequest.host, ClientRequest.port,
    ClientRequest.is_ssl.
  rewrite Hu, Hssl, Hp, Hpa, Hph.
  destruct (raw_host (with_fragment_none url_)); reflexivity.
Qed.

End Built.

(** X21. The connection key of a built request depends on the URL, the
    TLS setting and the proxy settings only: two requests built for the
    same URL with the same TLS and proxy settings have the same key (or
    both have none), whatever their methods, headers, bodies, cookies,
    credentials and versions, so that they can share a connection. *)
Theorem connection_key_ignores_request_content
    is_ipv6_address SERVER_SOFTWARE HAS_BROTLI cookie_output BasicAuth_encode
    netrc_auth parse_mimetype with_fragment_none repr hash_items
    url_ proxy_ proxy_auth_ proxy_headers_ ssl_
    skip1 cookies1 auth1 version1 expect1 trust1 method1 hs1 data1 compress1 chunked1 r1
    skip2 cookies2 auth2 version2 expect2 trust2 method2 hs2 data2 compress2 chunked2 r2 :
  construct is_ipv6_address SERVER_SOFTWARE HAS_BROTLI cookie_output BasicAuth_encode
    netrc_auth parse_mimetype with_fragment_none repr url_ skip1 cookies1 auth1 version1
    expect1 proxy_ proxy_auth_ proxy_headers_ ssl_ trust1
    method1 hs1 data1 compress1 chunked1 = Ok r1 ->
  construct is_ipv6_address SERVER_SOFTWARE HAS_BROTLI cookie_output BasicAuth_encode
    netrc_auth parse_mimetype with_fragment_none repr url_ skip2 cookies2 auth2 version2
    expect2 proxy_ proxy_auth_ proxy_headers_ ssl_ trust2
    method2 hs2 data2 compress2 chunked2 = Ok r2 ->
  ClientRequest.connection_key hash_items r1 = ClientRequest.connection_key hash_items r2.
Proof.
  intros H1 H2.
  rewrite (connection_key_built _ _ _ _ _ _ _ _ _ _ _ _ _ _ _ _ _ _ _ _ _ _ _ _ _ _ _ H1).
  rewrite (connection_key_built _ _ _ _ _ _ _ _ _ _ _ _ _ _ _ _ _ _ _ _ _ _ _ _ _ _ _ H2).
  reflexivity.
Qed.

(** *** The constructor run on concrete requests *)

(** Stand-ins for the collaborators, as for the negotiation, with the
    arguments left open that the statements above depend on. *)
#[warning="-notation-for-abbreviation"]
Notation toy_request skip cookies auth_ expect100 :=
  (construct (fun _ => false) "Python/3.11 aiohttp/3.9" false
     (fun _ _ => "k=v") (fun _ => "Basic dTpw") (fun _ => None) toy_parse_mimetype
     (fun u => u) toy_repr example_url skip cookies auth_ HttpVersion11 expect100 None None None
     (SslBool true) false).

Lemma construct_checks_method_then_host_witness :
  toy_request [] None None false "GE T" None None None None
  = Raise (ValueError
             "Method cannot contain non-token characters 'GE T' (found at least ' ')").
Proof.
  exact (construct_checks_method_then_host (fun _ => false) "Python/3.11 aiohttp/3.9"
           false (fun _ _ => "k=v") (fun _ => "Basic dTpw") (fun _ => None)
           toy_parse_mimetype (fun u => u) toy_repr example_url [] None None HttpVersion11 false
           None None None (SslBool true) false "GE T" None None None None).
Defined.

Lemma request_has_one_host_header_witness :
  returns
    (toy_request [] None None false "GET"
       (Some [("host", "a.example"); ("X-Id", "1"); ("HOST", "b.example")])
       None None None)
    (fun r => getall (ClientRequest.headers r) hdrs.HOST = ["b.example"]).
Proof.
  destruct (toy_request [] None None false "GET"
              (Some [("host", "a.example"); ("X-Id", "1"); ("HOST", "b.example")])
              None None None) as [r|e] eqn:E; [|vm_compute in E; discriminate].
  simpl.
  rewrite (request_has_one_host_header (fun _ => false) "Python/3.11 aiohttp/3.9"
             false (fun _ _ => "k=v") (fun _ => "Basic dTpw") (fun _ => None)
             toy_parse_mimetype (fun u => u) toy_repr example_url [] None None HttpVersion11 false
             None None None (SslBool true) false _ _ _ _ _ r E).
  vm_compute. reflexivity.
Defined.

Lemma built_headers_provenance_witness :
  returns
    (toy_request ["content-type"] None None false "POST"
       (Some [("X-Id", "1"); ("x-id", "2")])
       (Some (DataPayload ten_bytes)) None None)
    (fun r =>
       getall (ClientRequest.headers r) "X-ID" = ["1"; "2"]
       /\ getall (ClientRequest.headers r) hdrs.CONTENT_TYPE = []).
Proof.
  destruct (toy_request ["content-type"] None None false "POST"
              (Some [("X-Id", "1"); ("x-id", "2")])
              (Some (DataPayload ten_bytes)) None None) as [r|e] eqn:E;
    [|vm_compute in E; discriminate].
  simpl. split.
  - rewrite (built_headers_provenance (fun _ => false) "Python/3.11 aiohttp/3.9"
               false (fun _ _ => "k=v") (fun _ => "Basic dTpw") (fun _ => None)
               toy_parse_mimetype (fun u => u) toy_repr example_url ["content-type"] None None
               HttpVersion11 false None None None (SslBool true) false _ _ _ _ _ r "X-ID" E);
      vm_compute; reflexivity.
  - rewrite (built_headers_provenance (fun _ => false) "Python/3.11 aiohttp/3.9"
               false (fun _ _ => "k=v") (fun _ => "Basic dTpw") (fun _ => None)
               toy_parse_mimetype (fun u => u) toy_repr example_url ["content-type"] None None
               HttpVersion11 false None None None (SslBool true) false _ _ _ _ _ r
               hdrs.CONTENT_TYPE E);
      vm_compute; reflexivity.
Defined.

Lemma request_cookie_header_witness :
  returns
    (toy_request [] (Some [("k", "v")]) None false "GET"
       (Some [("Cookie", "a=1"); ("Cookie", "b=2")]) None None None)
    (fun r => getall (ClientRequest.headers r) hdrs.COOKIE = ["k=v"]).
Proof.
  destruct (toy_request [] (Some [("k", "v")]) None false "GET"
              (Some [("Cookie", "a=1"); ("Cookie", "b=2")]) None None None)
    as [r|e] eqn:E; [|vm_compute in E; discriminate].
  simpl.
  rewrite (request_cookie_header (fun _ => false) "Python/3.11 aiohttp/3.9"
             false (fun _ _ => "k=v") (fun _ => "Basic dTpw") (fun _ => None)
             toy_parse_mimetype (fun u => u) toy_repr example_url [] (Some [("k", "v")]) None
             HttpVersion11 false None None None (SslBool true) false _ _ _ _ _ r E).
  vm_compute. reflexivity.
Defined.

Lemma authorization_precedence_witness :
  returns
    (toy_request [] None (Some (mkBasicAuth "u" "pw" "latin1")) false "GET"
       (Some [("Authorization", "Bearer t")]) None None None)
    (fun r =>
       ClientRequest.auth r = None
       /\ getall (ClientRequest.headers r) hdrs.AUTHORIZATION = ["Basic dTpw"]).
Proof.
  destruct (toy_request [] None (Some (mkBasicAuth "u" "pw" "latin1")) false "GET"
              (Some [("Authorization", "Bearer t")]) None None None)
    as [r|e] eqn:E; [|vm_compute in E; discriminate].
  simpl.
  exact (authorization_precedence (fun _ => false) "Python/3.11 aiohttp/3.9"
           false (fun _ _ => "k=v") (fun _ => "Basic dTpw") (fun _ => None)
           toy_parse_mimetype (fun u => u) toy_repr example_url [] None
           (Some (mkBasicAuth "u" "pw" "latin1"))
           HttpVersion11 false None None None (SslBool true) false _ _ _ _ _ r E).
Defined.

Lemma continue_waiter_follows_expect_header_witness :
  returns
    (toy_request [] None None false "POST" (Some [("expect", "100-Continue")])
       None None None)
    (fun r => ClientRequest._continue r = Some PendingFuture).
Proof.
  destruct (toy_request [] None None false "POST" (Some [("expect", "100-Continue")])
              None None None) as [r|e] eqn:E; [|vm_compute in E; discriminate].
  simpl.
  destruct (continue_waiter_follows_expect_header (fun _ => false)
              "Python/3.11 aiohttp/3.9" false (fun _ _ => "k=v") (fun _ => "Basic dTpw")
              (fun _ => None) toy_parse_mimetype (fun u => u) toy_repr example_url [] None None
              HttpVersion11 false None None None (SslBool true) false _ _ _ _ _ r E)
    as [Hc He].
  rewrite Hc. unfold expects_continue. rewrite get_default_getall, He. vm_compute. reflexivity.
Defined.

Lemma chunked_false_still_enables_chunking_witness :
  returns (toy_request [] None None false "POST" None None None (Some false))
    (fun r =>
       getall (ClientRequest.headers r) hdrs.CONTENT_LENGTH = ["0"]
       /\ getall (ClientRequest.headers r) hdrs.TRANSFER_ENCODING = []
       /\ ClientRequest.send_chunking r = true).
Proof.
  destruct (toy_request [] None None false "POST" None None None (Some false))
    as [r|e] eqn:E; [|vm_compute in E; discriminate].
  simpl.
  apply (chunked_false_still_enables_chunking (fun _ => false)
           "Python/3.11 aiohttp/3.9" false (fun _ _ => "k=v") (fun _ => "Basic dTpw")
           (fun _ => None) toy_parse_mimetype (fun u => u) toy_repr example_url [] None None
           HttpVersion11 false None None None (SslBool true) false "POST" None None None r);
    [exact E|vm_compute; reflexivity|vm_compute; reflexivity|vm_compute; reflexivity].
Defined.

Lemma connection_key_ignores_request_content_witness :
  match toy_request [] None None false "GET" None None None None,
        toy_request ["Accept"] (Some [("k", "v")]) None true "POST"
          (Some [("X-Id", "1")]) (Some (DataPayload ten_bytes)) None None with
  | Ok r1, Ok r2 =>
      ClientRequest.connection_key (fun _ => 0%Z) r1
      = ClientRequest.connection_key (fun _ => 0%Z) r2
  | _, _ => False
  end.
Proof.
  destruct (toy_request [] None None false "GET" None None None None)
    as [r1|e] eqn:E1; [|vm_compute in E1; discriminate].
  destruct (toy_request ["Accept"] (Some [("k", "v")]) None true "POST"
              (Some [("X-Id", "1")]) (Some (DataPayload ten_bytes)) None None)
    as [r2|e] eqn:E2; [|vm_compute in E2; discriminate].
  exact (connection_key_ignores_request_content _ _ _ _ _ _ _ _ _ _ _ _ _ _ _
           _ _ _ _ _ _ _ _ _ _ _ r1 _ _ _ _ _ _ _ _ _ _ _ r2 E1 E2).
Defined.

End ConstructorFacts.
